(** * reduce-scan: the OpenCL reduction kernel and its profiling harness

    A shallow embedding of [reduce-scan/main.cc]: the [reduce] kernel of the
    embedded OpenCL program, the [bandwidth] helper, [profile_reduce],
    [profile_scan_inclusive], [opencl_main] and [main].

    Floating-point values are IEEE-754 numbers of the Standard Library's
    [SpecFloat] (binary32 for [float], binary64 for [double]); integers are
    [Z] with the wrap-around of the C++ type written out; device arrays are
    lists, and an access outside an array is a fault ([None]). *)

From Stdlib Require Import ZArith QArith Qabs Qpower Lia Lqa String.
From Stdlib Require Import Floats.SpecFloat.
From stdpp Require Import base tactics option list numbers.

Local Open Scope nat_scope.

(** ** The [reduce] kernel (lines 127-160) *)

Module Kernel.

(** [#define BUFFSIZE 1024]: the size of the local scratch array. *)
Definition BUFFSIZE : nat := 1024.

(** [get_global_id(0)] of the work-item with local id [t] in group [k],
    for a local size of [m]. *)
Definition global_id (m k t : nat) : nat := k * m + t.

(** Program points of a work-group with respect to global memory: before
    the publication of line 149, inside the loop of lines 156-157 (with the
    loop counter [j] and the accumulator [sum] of the single work-item that
    runs it), and after its last global access. *)
Inductive pc (F : Type) : Type :=
  | AtPublish
  | AtCombine (j : nat) (sum : F)
  | Finished.
Arguments AtPublish {F}.
Arguments AtCombine {F} j sum.
Arguments Finished {F}.

Record gstate (F : Type) : Type := GState {
  result : list F;      (* the [global float* result] buffer *)
  pcs : list (pc F)     (* one program point per work-group *)
}.
Arguments GState {F} result pcs.
Arguments result {F} g.
Arguments pcs {F} g.

Section Reduce.
Context {F : Type}.
Variable zero : F.            (* the literal [0] of [float sum = 0] *)
Variable add : F -> F -> F.   (* [+] on [float] *)

(** [p[i] = x]; writing outside the array is a fault. *)
Definition store (mem : list F) (i : nat) (x : F) : option (list F) :=
  if decide (i < length mem) then Some (<[i:=x]> mem) else None.

(** The work-items [items] of one group run the same straight-line
    segment [f] (the code between two barriers), one after the other. *)
Fixpoint each_item (f : nat -> list F -> option (list F))
    (items : list nat) (buff : list F) : option (list F) :=
  match items with
  | [] => Some buff
  | t :: ts => buff' ← f t buff; each_item f ts buff'
  end.

(** Line 138: [buff[t] = a[k * m + t];] *)
Definition load_item (m k : nat) (a : list F) (t : nat) (buff : list F)
    : option (list F) :=
  x ← a !! global_id m k t; store buff t x.

(** Lines 143-145: [if (t < offset) { buff[t] += buff[t + offset]; }] *)
Definition fold_item (offset t : nat) (buff : list F) : option (list F) :=
  if decide (t < offset) then
    x ← buff !! t; y ← buff !! (t + offset); store buff t (add x y)
  else Some buff.

(** Lines 142-147:
    [for (int offset = m / 2; offset > 0; offset /= 2) { ...; barrier }].
    Every iteration is one barrier-delimited segment run by the [m]
    work-items of the group.  [fuel] bounds the number of iterations. *)
Fixpoint fold_loop (fuel m offset : nat) (buff : list F)
    : option (list F) :=
  if decide (0 < offset) then
    match fuel with
    | 0 => None
    | S fuel' =>
        buff' ← each_item (fold_item offset) (seq 0 m) buff;
        fold_loop fuel' m (offset / 2) buff'
    end
  else Some buff.

(** Lines 137-147 for work-group [k]: load, then fold; the value of
    [buff[0]] that line 149 publishes.  [lmem] is the content of the
    group's local memory when the kernel starts. *)
Definition group_sum (m k : nat) (a lmem : list F) : option F :=
  buff1 ← each_item (load_item m k a) (seq 0 m) lmem;
  buff2 ← fold_loop m m (m / 2) buff1;
  buff2 !! 0.

(** One global-memory action of work-group [k].  The two barriers of
    lines 146 and 151 order the work-items of one work-group only, so the
    groups advance independently of each other.
    - [AtPublish]: the group runs lines 137-151; its work-item [t = 0]
      executes [result[k] = buff[0]].  Afterwards the work-item whose
      global id is 0 (if it is in this group) enters the loop of line 156
      with [sum = 0], [j = 0]; the other work-items are done.
    - [AtCombine j sum]: one iteration [sum += result[j]] while [j < l],
      then [result[0] = sum] (line 158). *)
Definition step (m : nat) (a lmem : list F) (k : nat) (st : gstate F)
    : option (gstate F) :=
  let l := length (pcs st) in     (* get_num_groups(0) *)
  match pcs st !! k with
  | Some AtPublish =>
      x ← group_sum m k a lmem;
      r ← store (result st) k x;
      Some (GState r (<[k := if decide (global_id m k 0 = 0)
                             then AtCombine 0 zero else Finished]> (pcs st)))
  | Some (AtCombine j sum) =>
      if decide (j < l) then
        x ← result st !! j;
        Some (GState (result st) (<[k := AtCombine (S j) (add sum x)]> (pcs st)))
      else
        r ← store (result st) 0 sum;
        Some (GState r (<[k := Finished]> (pcs st)))
  | Some Finished | None => Some st
  end.

Fixpoint run (m : nat) (a lmem : list F) (sched : list nat) (st : gstate F)
    : option (gstate F) :=
  match sched with
  | [] => Some st
  | k :: ks => st' ← step m a lmem k st; run m a lmem ks st'
  end.

(** Every group, in turn, is given enough steps to finish. *)
Definition finish_all (l : nat) : list nat :=
  concat (map (fun k => replicate (l + 2) k) (seq 0 l)).

(** The kernel over [l] work-groups of [m] work-items.  [res0] is the
    content of the [result] buffer at launch, [sched] the order in which
    the device lets the groups act on global memory; groups that [sched]
    leaves unfinished are then run to completion in index order.  The
    value is the final content of [result]. *)
Definition reduce (l m : nat) (a res0 lmem : list F) (sched : list nat)
    : option (list F) :=
  st ← run m a lmem (sched ++ finish_all l)
         (GState res0 (replicate l AtPublish));
  Some (result st).

(** One halving step as a list function: the first [h] cells receive the
    sums with the [h] cells that follow them. *)
Definition halve (h : nat) (buff : list F) : list F :=
  zip_with add (take h buff) (take h (drop h buff)) ++ drop h buff.

(** The sum that the halving loop leaves in cell 0 when it starts from a
    group of [2 ^ d] values: a balanced tree of additions. *)
Fixpoint tree_sum (d : nat) (xs : list F) : F :=
  match d with
  | 0 => default zero (head xs)
  | S d' => tree_sum d' (zip_with add (take (2 ^ d') xs) (drop (2 ^ d') xs))
  end.

(** The slice of the input that work-group [k] loads. *)
Definition slice (m k : nat) (a : list F) : list F :=
  take m (drop (k * m) a).

(** [sum = 0; for (...) sum += x;] *)
Definition sum_list (xs : list F) : F := fold_left add xs zero.

(** The partial sums of the [l] work-groups of size [2 ^ d]. *)
Definition partials (d l : nat) (a : list F) : list F :=
  map (fun k => tree_sum d (slice (2 ^ d) k a)) (seq 0 l).

(** The steps a group still needs before it is [Finished], at most. *)
Definition remaining (l : nat) (p : pc F) : nat :=
  match p with
  | AtPublish => l + 2
  | AtCombine j _ => l + 1 - j
  | Finished => 0
  end.

(** Invariant of every execution: a group other than group 0 is either
    still to publish, or finished with its partial sum [P k] in its slot. *)
Definition frame_inv (l : nat) (P : nat -> F) (st : gstate F) : Prop :=
  length (pcs st) = l /\ length (result st) = l /\
  (forall k j s, pcs st !! k = Some (AtCombine j s) -> k = 0 /\ j <= l) /\
  (forall k, 0 < k < l ->
     pcs st !! k = Some AtPublish \/
     (pcs st !! k = Some Finished /\ result st !! k = Some (P k))).

(** Invariant of the combine once every group has published: [R] is the
    content of [result] after the publications. *)
Definition combine_inv (R : list F) (st : gstate F) : Prop :=
  (forall k, 0 < k < length R -> pcs st !! k = Some Finished) /\
  ((exists j, pcs st !! 0 = Some (AtCombine j (sum_list (take j R))) /\
              result st = R) \/
   (pcs st !! 0 = Some Finished /\ result st = <[0 := sum_list R]> R)).

End Reduce.

(** A schedule under which the barrier of line 151 would hold back every
    group until all [l] groups have published: the publications come first,
    in any order. *)
Definition barrier_synchronised (l : nat) (sched : list nat) : Prop :=
  exists pubs rest, sched = pubs ++ rest /\ Permutation pubs (seq 0 l).

End Kernel.

(** ** Floating-point numbers *)

(** [float]: IEEE-754 binary32, round to nearest even. *)
Module F32.
Definition prec : Z := 24.
Definition emax : Z := 128.
Definition zero : spec_float := S754_zero false.
Definition add : spec_float -> spec_float -> spec_float := SFadd prec emax.
Definition sub : spec_float -> spec_float -> spec_float := SFsub prec emax.
Definition abs : spec_float -> spec_float := SFabs.
(** Conversion of an integer, rounded. *)
Definition of_Z (z : Z) : spec_float := binary_normalize prec emax z 0 false.
(** The largest finite [float], [FLT_MAX]. *)
Definition max_float : spec_float := SFmax_float prec emax.
End F32.

(** [double]: IEEE-754 binary64, round to nearest even. *)
Module F64.
Definition prec : Z := 53.
Definition emax : Z := 1024.
Definition zero : spec_float := S754_zero false.
Definition mul : spec_float -> spec_float -> spec_float := SFmul prec emax.
Definition div : spec_float -> spec_float -> spec_float := SFdiv prec emax.
Definition ltb : spec_float -> spec_float -> bool := SFltb.
Definition of_Z (z : Z) : spec_float := binary_normalize prec emax z 0 false.
(** The promotion of a [float] operand to [double]; it is exact. *)
Definition of_f32 (x : spec_float) : spec_float :=
  match x with
  | S754_finite s m e => binary_round prec emax s m e
  | _ => x
  end.
(** The literals [1e-9], [1e-6] and [1e3]: the doubles nearest to the
    decimal values, which a correctly rounded division of two exactly
    representable integers yields. *)
Definition c_1e_9 : spec_float := Eval vm_compute in div (of_Z 1) (of_Z (10 ^ 9)).
Definition c_1e_6 : spec_float := Eval vm_compute in div (of_Z 1) (of_Z (10 ^ 6)).
Definition c_1e3 : spec_float := Eval vm_compute in of_Z 1000.
End F64.

(** The rational value of a finite floating-point number. *)
Definition SF2Q (x : spec_float) : option Q :=
  match x with
  | S754_zero _ => Some 0%Q
  | S754_finite s m e =>
      Some (inject_Z (if s then Z.neg m else Z.pos m) * Qpower 2 e)%Q
  | S754_infinity _ | S754_nan => None
  end.

(** [x] is a number within [tol] of [ref]: both are finite and
    [|x - ref| <= tol]. *)
Definition within (tol : Q) (x ref : spec_float) : Prop :=
  exists qx qr, SF2Q x = Some qx /\ SF2Q ref = Some qr /\
                (Qabs (qx - qr) <= tol)%Q.

(** A finite number that is not negative. *)
Definition nonneg_finite (x : spec_float) : Prop :=
  match x with
  | S754_zero false | S754_finite false _ _ => True
  | _ => False
  end.

(** The binade of a finite number [m * 2 ^ e]: its value lies in
    [[2 ^ (mag - 1), 2 ^ mag)]. *)
Definition mag (m : positive) (e : Z) : Z := (Zdigits2 (Zpos m) + e)%Z.

(** A positive finite number with its binade between [lo] and [hi]. *)
Definition pos_finite (lo hi : Z) (x : spec_float) : Prop :=
  exists m e, x = S754_finite false m e /\ (lo <= mag m e <= hi)%Z.

(** [+0] or a positive finite number with its binade at most [hi]. *)
Definition nonneg_below (hi : Z) (x : spec_float) : Prop :=
  x = S754_zero false \/
  exists m e, x = S754_finite false m e /\ (mag m e <= hi)%Z.

(** Machine epsilon of [float], [FLT_EPSILON = 2^-23]. *)
Definition flt_epsilon : Q := Qpower 2 (-23).

(** The value [m * 2 ^ e] of a positive finite number. *)
Definition Qval (m : positive) (e : Z) : Q :=
  (inject_Z (Zpos m) * Qpower 2 e)%Q.

(** The unit in the last place of a normal binary64 number, relative to
    its value, at most: [2 ^ -52]. *)
Definition ulp64 : Q := Qpower 2 (-52).

(** ** The host program *)

Module Host.

Local Open Scope Z_scope.

(** *** Machine integers *)

(** [int] is 32 bits wide; an overflowing signed operation is taken to wrap
    around (two's complement). *)
Definition wrap_int (z : Z) : Z := (z + 2 ^ 31) mod 2 ^ 32 - 2 ^ 31.

(** Conversion to [size_t] and arithmetic in it: modulo [2 ^ 64]. *)
Definition wrap_size_t (z : Z) : Z := z mod 2 ^ 64.

(** [sizeof(float)] *)
Definition sizeof_float : Z := 4.

(** *** Time *)

(** A [time_point] of [clock_type] is a count of clock ticks, and a
    [duration] a difference of two; the clock ticks in nanoseconds. *)
Definition ticks_per_us : Z := 1000.

(** [duration_cast<microseconds>(d).count()]: truncation towards zero. *)
Definition to_us (d : Z) : Z := Z.quot d ticks_per_us.

(** *** [bandwidth] (lines 27-32) *)

Definition bandwidth (n : Z) (t0 t1 : Z) : spec_float :=
  let dt := to_us (t1 - t0) in
  if dt =? 0 then F64.zero
  else
    let n3 := wrap_int (wrap_int (n + n) + n) in
    let bytes := wrap_size_t (wrap_size_t n3 * sizeof_float) in
    F64.div (F64.mul (F64.of_Z bytes) F64.c_1e_9)
            (F64.mul (F64.of_Z dt) F64.c_1e_6).

(** The formula of the specification, [(3 * N * elementSize) / elapsedTime],
    as an exact rational number of gigabytes per second for an elapsed time
    of [dt] microseconds. *)
Definition bandwidth_formula (N dt : Z) : Q :=
  ((inject_Z (3 * N * sizeof_float) * Qpower 10 (-9))
   / (inject_Z dt * Qpower 10 (-6)))%Q.

(** *** The world around the program *)

(** The call sites of the OpenCL API, in program order. *)
Inductive cl_call :=
  | PlatformGet                    (* cl::Platform::get, line 173 *)
  | PlatformName                   (* platform.getInfo, line 179 *)
  | CreateContext                  (* cl::Context, line 183 *)
  | ContextDevices                 (* context.getInfo, line 185 *)
  | DeviceName                     (* device.getInfo, line 187 *)
  | CreateProgram                  (* cl::Program, line 188 *)
  | BuildProgram                   (* program.build, line 191 *)
  | BuildLog (device : nat)        (* program.getBuildInfo, line 194 *)
  | CreateQueue                    (* cl::CommandQueue, line 199 *)
  | Flush (line : Z)               (* queue.flush, lines 75, 84, 87 *)
  | CreateKernel                   (* cl::Kernel, line 76 *)
  | BufferFromHost                 (* cl::Buffer d_a, line 80 *)
  | CreateBuffer (bytes : Z)       (* cl::Buffer d_result, line 81 *)
  | SetArg (index : Z)             (* kernel.setArg, lines 82, 83 *)
  | EnqueueNDRange (global local : Z)   (* line 86 *)
  | CopyOut.                       (* cl::copy, line 89 *)

(** What is inserted into an output stream. *)
Inductive fragment :=
  | Text (s : string)
  | Flt (x : spec_float)     (* a [float] *)
  | Int (z : Z)              (* [err.err()] *)
  | What (c : cl_call).      (* [err.what()]: the name of the failed call *)

(** The exceptions of the program. *)
Inductive exn :=
  | ClError (c : cl_call) (err : Z)       (* cl::Error *)
  | RuntimeError (msg : list fragment).   (* std::runtime_error *)

(** What the program does to the outside, in order. *)
Inductive event :=
  | Call (c : cl_call)                 (* an OpenCL API call *)
  | Cerr (msg : list fragment)         (* insertions into std::cerr *)
  | Clog (msg : list fragment)         (* insertions into std::clog *)
  | Header                             (* print_column_names *)
  | Row (name : string) (us : list Z) (bw : list spec_float).   (* print *)

(** The environment of one run of the program. *)
Record env := Env {
  clock : nat -> Z;              (* the successive values of clock_type::now() *)
  random : nat -> spec_float;    (* the values random_vector<float> draws *)
  cl_status : cl_call -> Z;      (* the status of each OpenCL call; 0 is CL_SUCCESS *)
  platforms : list string;       (* the platforms found, by name *)
  devices : list string;         (* the GPU devices of the context, by name *)
  build_log : nat -> string;     (* the build log of each device *)
  dev_result : nat -> spec_float;   (* the content of the fresh d_result buffer *)
  dev_local : nat -> spec_float;    (* the content of fresh local memory *)
  sched : list nat               (* the order in which the device runs the groups *)
}.

Record world := World {
  reads : nat;             (* clock readings taken so far *)
  drawn : nat;             (* random values drawn so far *)
  trace : list event       (* what happened so far *)
}.

Definition world0 : world := World 0 0 [].

(** Results: a value, a C++ exception, or behaviour that C++ and OpenCL
    leave undefined. *)
Inductive outcome (A : Type) :=
  | Ok (a : A)
  | Throw (e : exn)
  | Undefined.
Arguments Ok {A} a.
Arguments Throw {A} e.
Arguments Undefined {A}.

Definition M (A : Type) : Type := world -> outcome A * world.

Definition ret {A} (a : A) : M A := fun w => (Ok a, w).

Definition bind {A B} (c : M A) (k : A -> M B) : M B :=
  fun w =>
    match c w with
    | (Ok a, w') => k a w'
    | (Throw e, w') => (Throw e, w')
    | (Undefined, w') => (Undefined, w')
    end.

Definition throw {A} (e : exn) : M A := fun w => (Throw e, w).

Definition undefined {A} : M A := fun w => (Undefined, w).

(** [try { c } catch (...) { h }] *)
Definition try_catch {A} (c : M A) (h : exn -> M A) : M A :=
  fun w =>
    match c w with
    | (Throw e, w') => h e w'
    | r => r
    end.

Definition emit (e : event) : M unit :=
  fun w => (Ok tt, World (reads w) (drawn w) (trace w ++ [e])).

Global Instance M_ret : MRet M := @ret.
Global Instance M_bind : MBind M := fun A B k c => bind c k.

Fixpoint for_each {A} (f : A -> M unit) (xs : list A) : M unit :=
  match xs with
  | [] => ret tt
  | x :: xs' => f x ;; for_each f xs'
  end.

Section Program.
Variable E : env.

(** [clock_type::now()] *)
Definition now : M Z :=
  fun w => (Ok (clock E (reads w)),
            World (S (reads w)) (drawn w) (trace w)).

(** An OpenCL call: with [CL_HPP_ENABLE_EXCEPTIONS], a status other than
    [CL_SUCCESS] is thrown as a [cl::Error]. *)
Definition cl (c : cl_call) : M unit :=
  emit (Call c) ;;
  if cl_status E c =? 0 then ret tt else throw (ClError c (cl_status E c)).

(** Modelled from the spec: [random_vector<float>(n)] of the absent
    linear-algebra.hh, "randomVector(size) -> sequence of float": a
    vector of [n] values.  A negative size is left undefined. *)
Definition random_vector (n : Z) : M (list spec_float) :=
  fun w =>
    if n <? 0 then (Undefined, w)
    else (Ok (map (random E) (seq (drawn w) (Z.to_nat n))),
          World (reads w) (drawn w + Z.to_nat n)%nat (trace w)).

(** Modelled from the spec: [reduce(a)] of the absent linear-algebra.hh,
    "reduce(sequence) -> float", the "strict left-to-right serial sum". *)
Definition reduce_host (a : list spec_float) : spec_float :=
  Kernel.sum_list F32.zero F32.add a.

(** [std::abs(expected_result - sum) > 1e3] (line 92): the difference and
    its absolute value are [float]s, the comparison is made in [double]. *)
Definition exceeds_tolerance (expected_result sum : spec_float) : bool :=
  F64.ltb F64.c_1e3 (F64.of_f32 (F32.abs (F32.sub expected_result sum))).

(** [print] (lines 34-48): one row of the report. *)
Definition print (name : string) (dt : list Z) (bw : list spec_float)
    : M unit :=
  emit (Row name (map to_us dt) bw).

(** [print_column_names] (lines 50-60) *)
Definition print_column_names : M unit := emit Header.

(** [opencl.queue.enqueueNDRangeKernel(kernel, cl::NullRange,
    cl::NDRange(n), cl::NDRange(loc_sz))] (line 86) with the kernel
    arguments [d_a] (holding [a]) and [d_result] (of [slots] elements).
    The kernel runs when it is enqueued; the value is the content of
    [d_result] afterwards.  A global size that the local size does not
    divide is not a launch OpenCL 1.2 defines. *)
Definition enqueueNDRangeKernel (n loc_sz : Z) (a : list spec_float)
    (slots : nat) : M (list spec_float) :=
  cl (EnqueueNDRange n loc_sz) ;;
  if negb (n mod loc_sz =? 0) then undefined
  else
    match Kernel.reduce F32.zero F32.add
            (Z.to_nat (n / loc_sz)) (Z.to_nat loc_sz) a
            (map (dev_result E) (seq 0 slots))
            (map (dev_local E) (seq 0 Kernel.BUFFSIZE))
            (sched E) with
    | Some res => ret res
    | None => undefined
    end.

(** What lines 71-91 of [profile_reduce] hand to the validation. *)
Record measurement := Measurement {
  m_t : list Z;                     (* t0, t1, t2, t3, t4 *)
  m_expected : spec_float;          (* expected_result *)
  m_sum : spec_float                (* sum *)
}.

(** [profile_reduce], lines 71-91. *)
Definition profile_reduce_measure (n : Z) : M measurement :=
  let loc_sz := 128 in
  a ← random_vector n;
  let slots := Z.to_nat (Z.quot n loc_sz) in   (* Vector<float> result(n / loc_sz) *)
  cl (Flush 75) ;;
  cl CreateKernel ;;
  t0 ← now;
  let expected_result := reduce_host a in
  t1 ← now;
  cl BufferFromHost ;;
  cl (CreateBuffer (wrap_size_t (sizeof_float * Z.of_nat slots))) ;;
  cl (SetArg 0) ;;
  cl (SetArg 1) ;;
  cl (Flush 84) ;;
  t2 ← now;
  d_result ← enqueueNDRangeKernel n loc_sz a slots;
  cl (Flush 87) ;;
  t3 ← now;
  cl CopyOut ;;
  let result := d_result in
  t4 ← now;
  match result !! 0%nat with        (* float sum = result[0]; *)
  | Some sum => ret (Measurement [t0; t1; t2; t3; t4] expected_result sum)
  | None => undefined
  end.

(** The message of line 94. *)
Definition invalid_value (sum expected_result : spec_float)
    : list fragment :=
  [Text "Invalid value: "; Flt sum; Text ", expected: ";
   Flt expected_result].

(** The durations and the bandwidths that lines 97-99 and 114-116 pass to
    [print], for the [int] argument [b] of [bandwidth]. *)
Definition report (name : string) (t : list Z) (b : Z) : M unit :=
  match t with
  | [t0; t1; t2; t3; t4] =>
      print name
            [t1 - t0; t4 - t1; t2 - t1; t3 - t2; t4 - t3]
            [bandwidth b t0 t1; bandwidth b t2 t3]
  | _ => undefined
  end.

(** [profile_reduce] (lines 70-100) *)
Definition profile_reduce (n : Z) : M unit :=
  m ← profile_reduce_measure n;
  if exceeds_tolerance (m_expected m) (m_sum m) then
    throw (RuntimeError (invalid_value (m_sum m) (m_expected m)))
  else
    report "reduce" (m_t m)
           (wrap_int (wrap_int (wrap_int (n * n) + n) + n)).

(** [profile_scan_inclusive] (lines 102-117).  The vector it scans on the
    host is not used afterwards. *)
Definition profile_scan_inclusive (n : Z) : M unit :=
  a ← random_vector n;
  t0 ← now;
  t1 ← now;
  t2 ← now;
  t3 ← now;
  t4 ← now;
  report "scan-inclusive" [t0; t1; t2; t3; t4]
         (wrap_int (wrap_int (wrap_int (n * n) + wrap_int (n * n))
                    + wrap_int (n * n))).

(** [opencl_main] (lines 119-124) *)
Definition opencl_main : M unit :=
  print_column_names ;;
  profile_reduce (1024 * 1024 * 10) ;;
  profile_scan_inclusive (1024 * 1024 * 10).

(** The handler of lines 192-198: the build log of every device goes to
    [std::cerr], then the exception is thrown again. *)
Definition build_failed (e : exn) : M unit :=
  match e with
  | ClError _ _ =>
      for_each (fun i =>
                  cl (BuildLog i) ;; emit (Cerr [Text (build_log E i)]))
               (seq 0 (length (devices E))) ;;
      throw e
  | _ => throw e
  end.

(** The [try] block of [main] (lines 171-201) and the [return 0] after
    it; the value is the exit code.  In lines 179 and 187 the operands of
    [<<] are evaluated from left to right: the prefix is in [std::clog]
    before [getInfo] is called. *)
Definition main_body : M Z :=
  cl PlatformGet ;;
  match platforms E with
  | [] =>
      emit (Cerr [Text "Unable to find OpenCL platforms
"]) ;;
      ret 1
  | platform :: _ =>
      emit (Clog [Text "Platform name: "]) ;;
      cl PlatformName ;;
      emit (Clog [Text platform; Text "
"]) ;;
      cl CreateContext ;;
      cl ContextDevices ;;
      match devices E with
      | [] => undefined            (* devices[0] of an empty vector *)
      | device :: _ =>
          emit (Clog [Text "Device name: "]) ;;
          cl DeviceName ;;
          emit (Clog [Text device; Text "
"]) ;;
          cl CreateProgram ;;
          try_catch (cl BuildProgram) build_failed ;;
          cl CreateQueue ;;
          opencl_main ;;
          ret 0
      end
  end.

(** What the handlers of lines 202-211 write to [std::cerr]. *)
Definition diagnostic (e : exn) : list event :=
  match e with
  | ClError c err =>
      [Cerr [Text "OpenCL error in "; What c; Text "("; Int err; Text ")
"];
       Cerr [Text "Search cl.h file for error code ("; Int err;
             Text ") to understand what it means:
"];
       Cerr [Text "https://github.com/KhronosGroup/OpenCL-Headers/blob/master/CL/cl.h
"]]
  | RuntimeError msg => [Cerr (msg ++ [Text "
"])]
  end.

(** [main] (lines 169-213) *)
Definition main : M Z :=
  try_catch main_body
    (fun e => for_each emit (diagnostic e) ;; ret 1).

End Program.

(** The launch of the kernel that [profile_reduce n] requests for the
    input [a]: [n / 128] groups of 128 work-items, a [result] buffer of
    [n / 128] slots. *)
Definition kernel_run (E : env) (n : Z) (a : list spec_float)
    : option (list spec_float) :=
  Kernel.reduce F32.zero F32.add (Z.to_nat (n / 128)) (Z.to_nat 128) a
    (map (dev_result E) (seq 0 (Z.to_nat (Z.quot n 128))))
    (map (dev_local E) (seq 0 Kernel.BUFFSIZE))
    (sched E).

(** The OpenCL calls of [profile_reduce n] up to and including the
    dispatch, and those after it. *)
Definition calls_to_dispatch (n : Z) : list cl_call :=
  [Flush 75; CreateKernel; BufferFromHost;
   CreateBuffer (wrap_size_t (sizeof_float * Z.of_nat (Z.to_nat (Z.quot n 128))));
   SetArg 0; SetArg 1; Flush 84; EnqueueNDRange n 128].

Definition calls_after_dispatch : list cl_call := [Flush 87; CopyOut].

(** The successive clock readings of one [profile_reduce] that starts in
    world [w]. *)
Definition readings (E : env) (w : world) : list Z :=
  map (fun i => clock E (reads w + i)%nat) (seq 0 5).

(** The world after lines 71-91. *)
Definition measured (n : Z) (w : world) : world :=
  World (reads w + 5) (drawn w + Z.to_nat n)
        (trace w ++ map Call (calls_to_dispatch n ++ calls_after_dispatch)).

(** The [int] argument that [profile_reduce n] passes to [bandwidth]:
    [n*n+n+n] (line 99). *)
Definition bandwidth_arg (n : Z) : Z :=
  wrap_int (wrap_int (wrap_int (n * n) + n) + n).

(** The row that [profile_reduce n] prints for the clock readings [t]. *)
Definition reduce_row (n : Z) (t : list Z) : event :=
  match t with
  | [t0; t1; t2; t3; t4] =>
      Row "reduce"
          (map to_us [t1 - t0; t4 - t1; t2 - t1; t3 - t2; t4 - t3])
          [bandwidth (bandwidth_arg n) t0 t1; bandwidth (bandwidth_arg n) t2 t3]
  | _ => Header
  end.

(** The row that [profile_scan_inclusive n] prints for the clock readings
    [t]. *)
Definition scan_row (n : Z) (t : list Z) : event :=
  match t with
  | [t0; t1; t2; t3; t4] =>
      let b := wrap_int (wrap_int (wrap_int (n * n) + wrap_int (n * n))
                         + wrap_int (n * n)) in
      Row "scan-inclusive"
          (map to_us [t1 - t0; t4 - t1; t2 - t1; t3 - t2; t4 - t3])
          [bandwidth b t0 t1; bandwidth b t2 t3]
  | _ => Header
  end.

(** What [main] writes before it builds the program, for a platform and a
    device. *)
Definition setup_trace (platform device : string) : list event :=
  [Call PlatformGet;
   Clog [Text "Platform name: "]; Call PlatformName;
   Clog [Text platform; Text "
"];
   Call CreateContext; Call ContextDevices;
   Clog [Text "Device name: "]; Call DeviceName;
   Clog [Text device; Text "
"];
   Call CreateProgram; Call BuildProgram].

(** The build logs that the handler of lines 192-198 writes. *)
Definition build_logs (E : env) : list event :=
  flat_map (fun i => [Call (BuildLog i); Cerr [Text (build_log E i)]])
           (seq 0 (length (devices E))).

(** What a successful [opencl_main] adds to the trace, for the clock
    readings [t] of [profile_reduce] and [t'] of [profile_scan_inclusive]. *)
Definition opencl_main_trace (t t' : list Z) : list event :=
  [Header] ++ map Call (calls_to_dispatch (1024 * 1024 * 10)
                        ++ calls_after_dispatch)
  ++ [reduce_row (1024 * 1024 * 10) t; scan_row (1024 * 1024 * 10) t'].

(** The calls of [main] before the build. *)
Definition setup_calls : list cl_call :=
  [PlatformGet; PlatformName; CreateContext; ContextDevices; DeviceName;
   CreateProgram].

(** A computation that only adds to the trace. *)
Definition grows {A} (c : M A) : Prop :=
  forall w, exists rest, trace (c w).2 = trace w ++ rest.

(** A run that ends with an exception before any kernel was dispatched. *)
Definition rejected_before_dispatch (r : outcome unit * world) : Prop :=
  (exists e, r.1 = Throw e) /\
  forall g l, Call (EnqueueNDRange g l) ∉ trace r.2.

(** Every OpenCL call succeeds. *)
Definition runtime_ok (E : env) : Prop := forall c, cl_status E c = 0.

(** The input size of [opencl_main]. *)
Definition N : Z := 1024 * 1024 * 10.

(** The validation of line 92 lets the kernel result of the run pass. *)
Definition validation_passes (E : env) : Prop :=
  let a := map (random E) (seq 0 (Z.to_nat N)) in
  forall res sum,
    kernel_run E N a = Some res -> res !! 0%nat = Some sum ->
    exceeds_tolerance (reduce_host a) sum = false.

(** What the program wrote to [std::cerr]. *)
Definition cerr_of (t : list event) : list (list fragment) :=
  omap (fun e => match e with Cerr msg => Some msg | _ => None end) t.

Definition cerr (w : world) : list (list fragment) := cerr_of (trace w).

(** The rows the program printed. *)
Definition rows_of (t : list event) : list event :=
  omap (fun e => match e with Row _ _ _ | Header => Some e | _ => None end) t.

Definition rows (w : world) : list event := rows_of (trace w).

End Host.

(** ** Inputs used in the examples *)

(** A group of 128 values: [v0], [v1] in cells 0 and 1, [w0], [w1] in cells
    64 and 65, zeros elsewhere.  The first halving step adds cell 64 to
    cell 0 and cell 65 to cell 1. *)
Definition group4 (v0 v1 w0 w1 : spec_float) : list spec_float :=
  [v0; v1] ++ replicate 62 F32.zero ++ [w0; w1] ++ replicate 62 F32.zero.

(** [2^24, 1, 0, ..., -2^24, 0, ...]: the serial sum loses the 1. *)
Definition cancel_input : list spec_float :=
  group4 (F32.of_Z (2 ^ 24)) (F32.of_Z 1) (F32.of_Z (- 2 ^ 24)) F32.zero.

(** [FLT_MAX, -FLT_MAX, 0, ..., FLT_MAX, -FLT_MAX, 0, ...] and the same
    values with cells 1 and 64 exchanged. *)
Definition overflow_input : list spec_float :=
  group4 F32.max_float (SFopp F32.max_float) F32.max_float (SFopp F32.max_float).

Definition overflow_input_permuted : list spec_float :=
  group4 F32.max_float F32.max_float (SFopp F32.max_float) (SFopp F32.max_float).

(** [2^40, 4096, 0, ..., -2^40, 0, ...] and the same values with cells 1
    and 64 exchanged. *)
Definition absorb_input : list spec_float :=
  group4 (F32.of_Z (2 ^ 40)) (F32.of_Z 4096) (F32.of_Z (- 2 ^ 40)) F32.zero.

Definition absorb_input_permuted : list spec_float :=
  group4 (F32.of_Z (2 ^ 40)) (F32.of_Z (- 2 ^ 40)) (F32.of_Z 4096) F32.zero.

(** Local memory and a [result] buffer filled with NaN. *)
Definition nan_lmem : list spec_float := replicate Kernel.BUFFSIZE S754_nan.

(** The kernel on one group of 128 values. *)
Definition reduce1 (a : list spec_float) : option (list spec_float) :=
  Kernel.reduce F32.zero F32.add 1 128 a [S754_nan] nan_lmem [0%nat].

(** An addition that behaves like the addition of numbers. *)
Definition exact_addition {F : Type} (zero : F) (add : F -> F -> F) : Prop :=
  (forall x y z, add x (add y z) = add (add x y) z) /\
  (forall x y, add x y = add y x) /\
  (forall x, add zero x = x).

(** An environment in which every call succeeds, the clock advances by one
    microsecond per reading, the random values are all 1, fresh device
    memory holds NaN, and the device runs [groups] groups in order. *)
Definition env_ones (groups : nat) : Host.env :=
  Host.Env (fun i => 1000 * Z.of_nat i)%Z (fun _ => F32.of_Z 1) (fun _ => 0%Z)
           ["platform"%string] ["device"%string] (fun _ => "log"%string)
           (fun _ => S754_nan) (fun _ => S754_nan) (seq 0 groups).

(** As [env_ones], with a [result] buffer of zeros at launch and a device
    that runs group 0 to its end before the other groups. *)
Definition env_race : Host.env :=
  Host.Env (fun i => 1000 * Z.of_nat i)%Z (fun _ => F32.of_Z 1) (fun _ => 0%Z)
      ["platform"%string] ["device"%string] (fun _ => "log"%string)
      (fun _ => F32.zero) (fun _ => S754_nan) [].

(** An OpenCL runtime that refuses the launch of 1000 work-items in groups
    of 128 with [CL_INVALID_WORK_GROUP_SIZE]. *)
Definition env_strict : Host.env :=
  Host.Env (fun i => 1000 * Z.of_nat i)%Z (fun _ => F32.of_Z 1)
      (fun c => match c with
                 | Host.EnqueueNDRange 1000 128 => (-54)%Z
                 | _ => 0%Z
                 end)
      ["platform"%string] ["device"%string] (fun _ => "log"%string)
      (fun _ => S754_nan) (fun _ => S754_nan) [].

(** Every call succeeds, the random values are all [+0], and the device
    lets every group publish before the combine. *)
Definition env_zeros : Host.env :=
  Host.Env (fun i => 1000 * Z.of_nat i)%Z (fun _ => F32.zero) (fun _ => 0%Z)
      ["platform"%string] ["device"%string] (fun _ => "log"%string)
      (fun _ => S754_nan) (fun _ => S754_nan)
      (seq 0 (Z.to_nat (Host.N / 128))).

(** No OpenCL platform is installed. *)
Definition env_no_platform : Host.env :=
  Host.Env (fun i => 1000 * Z.of_nat i)%Z (fun _ => F32.zero) (fun _ => 0%Z)
      [] [] (fun _ => "log"%string)
      (fun _ => S754_nan) (fun _ => S754_nan) [].

(** The kernel does not compile ([CL_BUILD_PROGRAM_FAILURE]); the context
    has two devices. *)
Definition env_build_fails : Host.env :=
  Host.Env (fun i => 1000 * Z.of_nat i)%Z (fun _ => F32.zero)
      (fun c => match c with Host.BuildProgram => (-11)%Z | _ => 0%Z end)
      ["platform"%string] ["gpu0"%string; "gpu1"%string]
      (fun i => match i with O => "log of gpu0"%string | _ => "log of gpu1"%string end)
      (fun _ => S754_nan) (fun _ => S754_nan) [].

(** [-2^-20], [2^40], 0 and [-2^40] in cells 0 to 3 and 1000 in cell 65 of
    one group of 128 values, zeros elsewhere.  The serial sum is 1000 (the
    [-2^-20] is lost when [2^40] is added to it); the tree sum of the
    kernel is [-2^-20] (the 1000 of cell 65 is lost in the [2^40] of cell
    1). *)
Definition rounding_input : list spec_float :=
  [S754_finite true 8388608 (-43); F32.of_Z (2 ^ 40); F32.zero;
   F32.of_Z (- 2 ^ 40)]
  ++ replicate 61 F32.zero ++ [F32.of_Z 1000] ++ replicate 62 F32.zero.

(** Every call succeeds and the random values are those of
    [rounding_input]. *)
Definition env_rounding : Host.env :=
  Host.Env (fun i => 1000 * Z.of_nat i)%Z
      (fun i => nth i rounding_input F32.zero) (fun _ => 0%Z)
      ["platform"%string] ["device"%string] (fun _ => "log"%string)
      (fun _ => S754_nan) (fun _ => S754_nan) [0%nat].

(** As [env_ones], with a clock that is set back between the first and the
    second reading: the readings are 5000, 0, 1000, 2000, 3000. *)
Definition env_clock_back : Host.env :=
  Host.Env (fun i => nth i [5000; 0; 1000; 2000; 3000]%Z 0%Z)
      (fun _ => F32.of_Z 1) (fun _ => 0%Z)
      ["platform"%string] ["device"%string] (fun _ => "log"%string)
      (fun _ => S754_nan) (fun _ => S754_nan) (seq 0 8).

(** The name of the platform cannot be queried. *)
Definition env_name_fails : Host.env :=
  Host.Env (fun i => 1000 * Z.of_nat i)%Z (fun _ => F32.zero)
      (fun c => match c with Host.PlatformName => (-30)%Z | _ => 0%Z end)
      ["platform"%string] ["device"%string] (fun _ => "log"%string)
      (fun _ => S754_nan) (fun _ => S754_nan) [].

(** ** Executions without synchronisation between the groups *)

Module Race.

Section Race.
Context {F : Type}.
Variable zero : F.
Variable add : F -> F -> F.

(** What the loop of lines 156-157 can have read from [result]: slot [j]
    yields the partial sum [P j] of group [j] if that group has published,
    and otherwise, for [j >= 1], what the buffer held at launch. *)
Definition observed (P : nat -> F) (res0 : list F) (v : list F) : Prop :=
  forall j x, v !! j = Some x -> x = P j \/ (0 < j /\ res0 !! j = Some x).

(** Invariant of every execution over [l] groups, whatever the schedule.
    A group other than group 0 has either not published, and its slot is
    as at launch, or is finished with its partial sum in its slot.  Group 0
    is before its publication, or inside the loop with the sum of the [j]
    values it has read so far, or finished with the sum of [l] such values
    in slot 0. *)
Definition race_inv (l : nat) (P : nat -> F) (res0 : list F)
    (st : Kernel.gstate F) : Prop :=
  length (Kernel.pcs st) = l /\ length (Kernel.result st) = l /\
  (forall k, 0 < k < l ->
     (Kernel.pcs st !! k = Some Kernel.AtPublish /\
      Kernel.result st !! k = res0 !! k) \/
     (Kernel.pcs st !! k = Some Kernel.Finished /\
      Kernel.result st !! k = Some (P k))) /\
  (Kernel.pcs st !! 0 = Some Kernel.AtPublish \/
   (exists v,
      Kernel.pcs st !! 0
      = Some (Kernel.AtCombine (length v) (Kernel.sum_list zero add v)) /\
      length v <= l /\ observed P res0 v /\
      Kernel.result st !! 0 = Some (P 0)) \/
   (exists v,
      Kernel.pcs st !! 0 = Some Kernel.Finished /\
      length v = l /\ observed P res0 v /\
      Kernel.result st !! 0 = Some (Kernel.sum_list zero add v))).

(** Invariant while no group but group 0 has acted: the other groups
    have not published; group 0 is before its publication with [result]
    as at launch, or inside the loop over [R], the launch content with
    the partial sum [P0] of group 0 in slot 0, or finished with the sum of
    [R] in slot 0. *)
Definition solo_inv (l : nat) (P0 : F) (res0 : list F)
    (st : Kernel.gstate F) : Prop :=
  let R := <[0 := P0]> res0 in
  length (Kernel.pcs st) = l /\
  (forall k, 0 < k < l -> Kernel.pcs st !! k = Some Kernel.AtPublish) /\
  ((Kernel.pcs st !! 0 = Some Kernel.AtPublish /\ Kernel.result st = res0) \/
   (exists j,
      Kernel.pcs st !! 0
      = Some (Kernel.AtCombine j (Kernel.sum_list zero add (take j R))) /\
      Kernel.result st = R) \/
   (Kernel.pcs st !! 0 = Some Kernel.Finished /\
    Kernel.result st = <[0 := Kernel.sum_list zero add R]> R)).

End Race.

End Race.

(** ** Local sizes other than those of the host program *)

Module Fold.

(** The sum of the offsets that the loop of lines 142-147 goes through
    from [offset] on: [offset + offset / 2 + offset / 4 + ...].  Cell 0
    of [buff] receives contributions from cells up to this distance. *)
Fixpoint sum_offsets (fuel offset : nat) : nat :=
  match fuel with
  | 0 => 0
  | S fuel' =>
      if decide (0 < offset) then offset + sum_offsets fuel' (offset / 2)
      else 0
  end.

(** Two contents of [buff] that coincide in the cells below [c]. *)
Definition agree_below {F : Type} (c : nat) (b b' : list F) : Prop :=
  length b = length b' /\ forall i, i < c -> b !! i = b' !! i.

End Fold.

(** ** What a part of the host program does to the outside *)

Module Effects.
Import Host.

(** A computation that adds nothing but OpenCL calls to the trace,
    however it ends. *)
Definition only_calls {A} (c : M A) : Prop :=
  forall w, exists cs, trace (c w).2 = trace w ++ map Call cs.

(** A computation that, when it returns normally, has written nothing to
    [std::cerr]. *)
Definition quiet {A} (c : M A) : Prop :=
  forall w a w', c w = (Ok a, w') -> cerr_of (trace w') = cerr_of (trace w).

(** A computation that never returns normally. *)
Definition never_returns {A} (c : M A) : Prop :=
  forall w a w', c w <> (Ok a, w').

End Effects.

(** The random values are those of [overflow_input], which make the tree
    of the kernel overflow to NaN while the serial sum is 0; every call
    succeeds and the device runs the single group. *)
Definition env_overflow : Host.env :=
  Host.Env (fun i => 1000 * Z.of_nat i)%Z
      (fun i => nth i overflow_input F32.zero) (fun _ => 0%Z)
      ["platform"%string] ["device"%string] (fun _ => "log"%string)
      (fun _ => S754_nan) (fun _ => S754_nan) [0].

(** As [env_ones], with a runtime whose [cl::copy] of line 89 fails with
    [CL_OUT_OF_RESOURCES]. *)
Definition env_copy_fails : Host.env :=
  Host.Env (fun i => 1000 * Z.of_nat i)%Z (fun _ => F32.of_Z 1)
      (fun c => match c with Host.CopyOut => (-5)%Z | _ => 0%Z end)
      ["platform"%string] ["device"%string] (fun _ => "log"%string)
      (fun _ => S754_nan) (fun _ => S754_nan) (seq 0 8).

(** The kernel does not compile and the build log of the second of three
    devices cannot be queried ([CL_INVALID_DEVICE]). *)
Definition env_log_fails : Host.env :=
  Host.Env (fun i => 1000 * Z.of_nat i)%Z (fun _ => F32.zero)
      (fun c => match c with
                 | Host.BuildProgram => (-11)%Z
                 | Host.BuildLog 1 => (-33)%Z
                 | _ => 0%Z
                 end)
      ["platform"%string] ["gpu0"%string; "gpu1"%string; "gpu2"%string]
      (fun i => match i with O => "log of gpu0"%string | _ => "other log"%string end)
      (fun _ => S754_nan) (fun _ => S754_nan) [].

(** ** The text of the report (lines 34-60) *)

Module Text.
Import Host.

(** The characters [' '], ['-'] and ['\n']. *)
Definition space : Ascii.ascii := Ascii.ascii_of_nat 32.
Definition minus : Ascii.ascii := Ascii.ascii_of_nat 45.
Definition newline : string := String (Ascii.ascii_of_nat 10) EmptyString.

(** [n] fill characters (the fill character of [std::cout] is the space). *)
Fixpoint spaces (n : nat) : string :=
  match n with
  | O => EmptyString
  | S n' => String space (spaces n')
  end.

(** [std::cout << std::setw(w) << s]: [s] right-adjusted in a field of at
    least [w] characters; a longer [s] is written in full. *)
Definition setw (w : nat) (s : string) : string :=
  String.append (spaces (w - String.length s)) s.

Definition digit (d : Z) : Ascii.ascii :=
  Ascii.ascii_of_nat (48 + Z.to_nat d).

(** The decimal digits of a non-negative integer in front of [acc], most
    significant first. *)
Fixpoint show_digits (fuel : nat) (z : Z) (acc : string) : string :=
  match fuel with
  | O => acc
  | S fuel' =>
      let acc' := String (digit (z mod 10)%Z) acc in
      if (z / 10 =? 0)%Z then acc' else show_digits fuel' (z / 10)%Z acc'
  end.

(** The insertion of a 64-bit integer into a stream: its decimal digits
    (at most 19), after a minus sign when it is negative. *)
Definition show_Z (z : Z) : string :=
  if (z <? 0)%Z then String minus (show_digits 19 (- z)%Z EmptyString)
  else show_digits 19 z EmptyString.

Section Render.
(** The insertion of a [double] into a stream, which the C++ library
    defines. *)
Variable show_double : spec_float -> string.

(** Lines 38-40 and 43-45: one field of a row. *)
Definition us_field (c : Z) : string :=
  setw 20 (String.append (show_Z c) "us"%string).

Definition bw_field (b : spec_float) : string :=
  setw 20 (String.append (show_double b) "GB/s"%string).

(** [print] (lines 36-47) for the microsecond counts [us] of its
    durations. *)
Definition row_text (name : string) (us : list Z) (bw : list spec_float)
    : string :=
  String.append (setw 19 name)
    (String.append (String.concat EmptyString (map us_field us))
       (String.append (String.concat EmptyString (map bw_field bw)) newline)).

(** [print_column_names] (lines 51-59) *)
Definition header_text : string :=
  String.append (setw 19 "function"%string)
    (String.append
       (String.concat EmptyString
          (map (setw 20)
               ["OpenMP"; "OpenCL total"; "OpenCL copy-in"; "OpenCL kernel";
                "OpenCL copy-out"; "OpenMP bandwidth"; "OpenCL bandwidth"]%string))
       newline).

(** What an event writes to [std::cout]. *)
Definition render (e : event) : string :=
  match e with
  | Header => header_text
  | Row name us bw => row_text name us bw
  | _ => EmptyString
  end.

End Render.

End Text.
(** * Properties of the kernel *)

Module KernelFacts.
Import Kernel.

Section GroupSum.
Context {F : Type}.
Variable zero : F.
Variable add : F -> F -> F.

Local Abbreviation halve := (halve add).
Local Abbreviation tree_sum := (tree_sum zero add).
Local Abbreviation fold_item := (fold_item add).
Local Abbreviation fold_loop := (fold_loop add).
Local Abbreviation group_sum := (group_sum add).

Lemma each_item_app f (xs ys : list nat) (b : list F) :
  each_item f (xs ++ ys) b = each_item f xs b ≫= each_item f ys.
Proof.
  revert b; induction xs as [|x xs IH]; intros b; simpl; [done|].
  destruct (f x b) as [b'|]; simpl; [apply IH|done].
Qed.

Lemma store_Some (mem : list F) i x :
  i < length mem -> store mem i x = Some (<[i:=x]> mem).
Proof. intros H. unfold store. by rewrite decide_True. Qed.

Lemma load_items m k (a lmem : list F) n :
  n <= m -> n <= length lmem -> k * m + m <= length a ->
  each_item (load_item m k a) (seq 0 n) lmem
  = Some (take n (drop (k * m) a) ++ drop n lmem).
Proof.
  intros Hnm Hn Ha. induction n as [|n IH].
  - simpl. by rewrite drop_0.
  - rewrite seq_S, each_item_app, IH by lia. simpl.
    unfold load_item, global_id.
    destruct (lookup_lt_is_Some_2 a (k * m + n)) as [x Hx]; [lia|].
    rewrite Hx. simpl.
    assert (Hlen : length (take n (drop (k * m) a)) = n)
      by (rewrite length_take, length_drop; lia).
    rewrite store_Some by (rewrite length_app, Hlen, length_drop; lia).
    simpl. f_equal.
    rewrite insert_app_r_alt by lia. rewrite Hlen, Nat.sub_diag.
    destruct (lookup_lt_is_Some_2 lmem n) as [y Hy]; [lia|].
    rewrite (drop_S _ _ _ Hy). simpl.
    assert (Hd : drop (k * m) a !! n = Some x)
      by (rewrite lookup_drop; exact Hx).
    rewrite (take_S_r _ _ _ Hd). by rewrite <- app_assoc.
  Qed.

Lemma fold_items offset (buff : list F) n :
  2 * offset <= length buff ->
  each_item (fold_item offset) (seq 0 n) buff
  = Some (zip_with add (take (n `min` offset) buff)
                       (take (n `min` offset) (drop offset buff))
          ++ drop (n `min` offset) buff).
Proof.
  intros Hlen. induction n as [|n IH].
  - simpl. by rewrite drop_0.
  - rewrite seq_S, each_item_app, IH.
    cbn [mbind option_bind each_item Nat.add]. unfold fold_item.
    case_decide as Hn.
    + rewrite (Nat.min_l n offset), (Nat.min_l (S n) offset) by lia.
      set (Z := zip_with add (take n buff) (take n (drop offset buff))).
      assert (HZ : length Z = n).
      { unfold Z. rewrite length_zip_with, !length_take, length_drop. lia. }
      destruct (lookup_lt_is_Some_2 buff n) as [x Hx]; [lia|].
      destruct (lookup_lt_is_Some_2 buff (n + offset)) as [y Hy]; [lia|].
      assert (H1 : (Z ++ drop n buff) !! n = Some x).
      { rewrite lookup_app_r by lia. rewrite HZ, Nat.sub_diag, lookup_drop.
        by rewrite Nat.add_0_r. }
      assert (H2 : (Z ++ drop n buff) !! (n + offset) = Some y).
      { rewrite lookup_app_r by lia. rewrite HZ, lookup_drop.
        rewrite <- Hy. f_equal. lia. }
      rewrite H1, H2. simpl.
      rewrite store_Some by (rewrite length_app, HZ, length_drop; lia).
      simpl. f_equal.
      rewrite insert_app_r_alt by lia. rewrite HZ, Nat.sub_diag.
      rewrite (drop_S _ _ _ Hx). simpl.
      assert (Hd : drop offset buff !! n = Some y).
      { rewrite lookup_drop. rewrite <- Hy. f_equal. lia. }
      rewrite (take_S_r _ _ _ Hx), (take_S_r _ _ _ Hd).
      rewrite zip_with_app by (rewrite !length_take, length_drop; lia).
      simpl. by rewrite <- app_assoc.
    + by rewrite (Nat.min_r n offset), (Nat.min_r (S n) offset) by lia.
Qed.

Lemma fold_step_halve m offset (buff : list F) :
  offset <= m -> 2 * offset <= length buff ->
  each_item (fold_item offset) (seq 0 m) buff = Some (halve offset buff).
Proof.
  intros Hm Hlen. rewrite fold_items by done.
  by rewrite Nat.min_r by lia.
Qed.

Lemma length_halve h (buff : list F) :
  2 * h <= length buff -> length (halve h buff) = length buff.
Proof.
  intros H. unfold halve.
  rewrite length_app, length_zip_with, !length_take, !length_drop. lia.
Qed.

Lemma take_halve h (buff : list F) :
  2 * h <= length buff ->
  take h (halve h buff) = zip_with add (take h buff) (take h (drop h buff)).
Proof.
  intros H. unfold halve. rewrite take_app_length'; [done|].
  rewrite length_zip_with, !length_take, !length_drop. lia.
Qed.

Lemma pow2_half d : 2 ^ S d / 2 = 2 ^ d.
Proof. rewrite Nat.pow_succ_r', Nat.mul_comm. apply Nat.div_mul. lia. Qed.

Lemma pow2_pos d : 0 < 2 ^ d.
Proof. induction d; simpl; lia. Qed.

Lemma lt_pow2 d : d < 2 ^ d.
Proof. induction d; simpl; lia. Qed.

(** The loop terminates within [d] iterations and leaves the tree sum of
    the first [2 ^ d] cells in cell 0. *)
Lemma fold_loop_tree d : forall fuel m (buff : list F),
  d <= fuel -> 2 ^ d <= 2 * m -> 2 ^ d <= length buff ->
  exists buff',
    fold_loop fuel m (2 ^ d / 2) buff = Some buff' /\
    length buff' = length buff /\
    buff' !! 0 = Some (tree_sum d (take (2 ^ d) buff)).
Proof.
  induction d as [|d IH]; intros fuel m buff Hfuel Hm Hlen.
  - exists buff. simpl in *. destruct fuel; simpl.
    + split; [done|split; [done|]].
      destruct buff as [|x buff]; simpl in *; [lia|done].
    + split; [done|split; [done|]].
      destruct buff as [|x buff]; simpl in *; [lia|done].
  - rewrite pow2_half. destruct fuel as [|fuel]; [lia|].
    pose proof (pow2_pos d) as Hpos.
    rewrite Nat.pow_succ_r' in Hm, Hlen.
    cbn [fold_loop]. rewrite decide_True by lia.
    rewrite (fold_step_halve m) by lia. simpl.
    destruct (IH fuel m (halve (2 ^ d) buff)) as (buff' & Hrun & Hl & H0).
    { lia. } { lia. } { rewrite length_halve; lia. }
    exists buff'. split; [exact Hrun|]. split.
    { rewrite Hl. apply length_halve. lia. }
    rewrite H0. f_equal. cbn [tree_sum].
    rewrite take_halve by lia. f_equal. f_equal.
    + rewrite take_take. f_equal. lia.
    + rewrite Nat.add_0_r. by rewrite <- take_drop_commute.
Qed.

(** Work-group [k] publishes the tree sum of its slice, whatever its
    local memory held before. *)
Lemma group_sum_tree d k (a lmem : list F) :
  2 ^ d <= length lmem -> k * 2 ^ d + 2 ^ d <= length a ->
  group_sum (2 ^ d) k a lmem = Some (tree_sum d (slice (2 ^ d) k a)).
Proof.
  intros Hl Ha. unfold group_sum.
  rewrite load_items by lia. cbn [mbind option_bind].
  set (buff1 := take (2 ^ d) (drop (k * 2 ^ d) a) ++ drop (2 ^ d) lmem).
  assert (Hs : length (slice (2 ^ d) k a) = 2 ^ d).
  { unfold slice. rewrite length_take, length_drop. lia. }
  assert (H1 : length buff1 = length lmem).
  { unfold buff1. fold (slice (2 ^ d) k a).
    rewrite length_app, Hs, length_drop. lia. }
  destruct (fold_loop_tree d (2 ^ d) (2 ^ d) buff1) as (buff2 & Hrun & _ & H0).
  { pose proof (lt_pow2 d). lia. } { lia. } { lia. }
  rewrite Hrun. cbn [mbind option_bind]. rewrite H0. f_equal. f_equal.
  unfold buff1. fold (slice (2 ^ d) k a).
  by rewrite take_app_length' by done.
Qed.

End GroupSum.

Section Schedule.
Context {F : Type}.
Variable zero : F.
Variable add : F -> F -> F.
Variables (l m : nat) (a lmem : list F) (P : nat -> F).
Hypothesis Hm : 0 < m.
Hypothesis Hgs : forall k, k < l -> group_sum add m k a lmem = Some (P k).

Local Abbreviation step := (step zero add m a lmem).
Local Abbreviation run := (run zero add m a lmem).
Local Abbreviation frame_inv := (frame_inv l P).
Local Abbreviation remaining := (@remaining F l).
Local Abbreviation sum_list := (sum_list zero add).
Local Abbreviation combine_inv := (combine_inv zero add).

Lemma global_id_0 k : global_id m k 0 = 0 <-> k = 0.
Proof. unfold global_id. nia. Qed.

Lemma run_app s1 s2 (st : gstate F) :
  run (s1 ++ s2) st = run s1 st ≫= run s2.
Proof.
  revert st; induction s1 as [|k s1 IH]; intros st; simpl; [done|].
  destruct (step k st) as [st'|]; simpl; [apply IH|done].
Qed.

(** A step never faults, keeps the invariant, touches the program point
    of its own group only, and brings that group closer to the end. *)
Lemma step_frame k (st : gstate F) :
  frame_inv st ->
  exists st', step k st = Some st' /\ frame_inv st' /\
    (forall k', k' <> k -> pcs st' !! k' = pcs st !! k') /\
    (forall p, pcs st !! k = Some p ->
       exists p', pcs st' !! k = Some p' /\ remaining p' <= pred (remaining p)).
Proof.
  intros Hinv. pose proof Hinv as (Hlp & Hlr & Hc & Hf). unfold Kernel.step.
  destruct (pcs st !! k) as [p|] eqn:Hk.
  2:{ exists st. split; [done|]. split; [exact Hinv|]. split; done. }
  assert (Hkl : k < l) by (rewrite <- Hlp; by eapply lookup_lt_Some).
  destruct p as [|j s|].
  - (* publication *)
    rewrite (Hgs k Hkl). cbn [mbind option_bind].
    rewrite store_Some by lia. cbn [mbind option_bind].
    eexists. split; [reflexivity|]. unfold Kernel.frame_inv. cbn [pcs result].
    split; [|split].
    + split; [by rewrite length_insert|]. split; [by rewrite length_insert|].
      split.
      * intros k' j s Hk'. destruct (decide (k' = k)) as [->|Hne].
        -- rewrite list_lookup_insert_eq in Hk' by lia.
           case_decide as H0; [|done]. apply (proj1 (global_id_0 k)) in H0.
           injection Hk' as <- <-. split; [done|lia].
        -- rewrite list_lookup_insert_ne in Hk' by done. by eapply Hc.
      * intros k' Hk'. destruct (decide (k' = k)) as [->|Hne].
        -- right. rewrite !list_lookup_insert_eq by lia.
           rewrite decide_False by (rewrite global_id_0; lia). done.
        -- rewrite !list_lookup_insert_ne by done. by apply Hf.
    + intros k' Hne. by rewrite list_lookup_insert_ne.
    + intros p Hp. injection Hp as <-.
      rewrite list_lookup_insert_eq by lia. eexists. split; [done|].
      case_decide; simpl; lia.
  - (* combine *)
    destruct (Hc _ _ _ Hk) as [-> Hj]. rewrite Hlp.
    case_decide as Hjl.
    + destruct (lookup_lt_is_Some_2 (result st) j) as [x Hx]; [lia|].
      rewrite Hx. cbn [mbind option_bind].
      eexists. split; [reflexivity|]. unfold Kernel.frame_inv. cbn [pcs result].
      split; [|split].
      * split; [by rewrite length_insert|]. split; [done|]. split.
        -- intros k' j' s' Hk'. destruct (decide (k' = 0)) as [->|Hne].
           ++ rewrite list_lookup_insert_eq in Hk' by lia.
              injection Hk' as <- <-. split; [done|lia].
           ++ rewrite list_lookup_insert_ne in Hk' by done. by eapply Hc.
        -- intros k' Hk'. rewrite list_lookup_insert_ne by lia. by apply Hf.
      * intros k' Hne. by rewrite list_lookup_insert_ne.
      * intros p Hp. injection Hp as <-.
        rewrite list_lookup_insert_eq by lia. eexists. split; [done|].
        simpl. lia.
    + rewrite store_Some by lia. cbn [mbind option_bind].
      eexists. split; [reflexivity|]. unfold Kernel.frame_inv. cbn [pcs result].
      split; [|split].
      * split; [by rewrite length_insert|]. split; [by rewrite length_insert|].
        split.
        -- intros k' j' s' Hk'. destruct (decide (k' = 0)) as [->|Hne].
           ++ by rewrite list_lookup_insert_eq in Hk' by lia.
           ++ rewrite list_lookup_insert_ne in Hk' by done. by eapply Hc.
        -- intros k' Hk'. rewrite !list_lookup_insert_ne by lia. by apply Hf.
      * intros k' Hne. by rewrite list_lookup_insert_ne.
      * intros p Hp. injection Hp as <-.
        rewrite list_lookup_insert_eq by lia. eexists. split; [done|].
        simpl. lia.
  - exists st. split; [done|]. split; [exact Hinv|]. split; [done|].
    intros p Hp. injection Hp as <-. exists Finished. split; [done|simpl; lia].
Qed.

Lemma remaining_0 k p (st : gstate F) :
  frame_inv st -> pcs st !! k = Some p -> remaining p = 0 -> p = Finished.
Proof.
  intros (_ & _ & Hc & _) Hk Hr. destruct p as [|j s|]; simpl in Hr.
  - lia.
  - destruct (Hc _ _ _ Hk). lia.
  - done.
Qed.

(** No schedule makes the kernel fault, and the invariant holds all
    along. *)
Lemma run_frame sched : forall st : gstate F,
  frame_inv st ->
  exists st', run sched st = Some st' /\ frame_inv st' /\
    (forall k, pcs st !! k = Some Finished -> pcs st' !! k = Some Finished).
Proof.
  induction sched as [|k sched IH]; intros st Hinv; simpl.
  - by exists st.
  - destruct (step_frame k st Hinv) as (st1 & Hs & Hinv1 & Hoth & Hown).
    rewrite Hs. cbn [mbind option_bind].
    destruct (IH st1 Hinv1) as (st' & Hr & Hinv' & Hfin).
    exists st'. split; [done|]. split; [done|].
    intros k' Hk'. apply Hfin. destruct (decide (k' = k)) as [->|Hne].
    + destruct (Hown _ Hk') as (p' & Hp' & Hle). simpl in Hle.
      rewrite Hp'. f_equal. eapply remaining_0; [exact Hinv1|exact Hp'|lia].
    + by rewrite Hoth.
Qed.

Lemma run_replicate n k : forall (st : gstate F) p,
  frame_inv st -> pcs st !! k = Some p ->
  exists st' p', run (replicate n k) st = Some st' /\ frame_inv st' /\
    pcs st' !! k = Some p' /\ remaining p' <= remaining p - n /\
    (forall k', k' <> k -> pcs st' !! k' = pcs st !! k').
Proof.
  induction n as [|n IH]; intros st p Hinv Hk; simpl.
  - exists st, p. split; [done|]. split; [done|]. split; [done|].
    split; [lia|done].
  - destruct (step_frame k st Hinv) as (st1 & Hs & Hinv1 & Hoth & Hown).
    rewrite Hs. cbn [mbind option_bind].
    destruct (Hown _ Hk) as (p1 & Hp1 & Hle1).
    destruct (IH st1 p1 Hinv1 Hp1) as (st' & p' & Hr & Hinv' & Hp' & Hle & Ho).
    exists st', p'. split; [done|]. split; [done|]. split; [done|].
    split; [lia|].
    intros k' Hne. rewrite Ho by done. by apply Hoth.
Qed.

Lemma run_finish ks : forall st : gstate F,
  frame_inv st -> (forall k, k ∈ ks -> k < l) ->
  exists st',
    run (concat (map (fun k => replicate (l + 2) k) ks)) st = Some st' /\
    frame_inv st' /\
    (forall k, k ∈ ks \/ pcs st !! k = Some Finished ->
               pcs st' !! k = Some Finished).
Proof.
  induction ks as [|k ks IH]; intros st Hinv Hks; simpl.
  - exists st. split; [done|]. split; [done|].
    intros k [Hk|Hk]; [by apply elem_of_nil in Hk|done].
  - rewrite run_app.
    assert (Hkl : k < l) by (apply Hks; left).
    destruct (lookup_lt_is_Some_2 (pcs st) k) as [p Hp].
    { destruct Hinv as (-> & _). done. }
    destruct (run_replicate (l + 2) k st p Hinv Hp)
      as (st1 & p1 & Hr1 & Hinv1 & Hp1 & Hle & Ho).
    rewrite Hr1. cbn [mbind option_bind].
    assert (p1 = Finished) as ->.
    { eapply remaining_0; [exact Hinv1|exact Hp1|].
      destruct p; simpl in *; lia. }
    destruct (IH st1 Hinv1) as (st' & Hr & Hinv' & Hfin).
    { intros k' Hk'. apply Hks. by right. }
    exists st'. split; [done|]. split; [done|].
    intros k' Hk'. apply Hfin.
    destruct (decide (k' = k)) as [->|Hne]; [by right|].
    destruct Hk' as [Hk'|Hk'].
    + apply elem_of_cons in Hk' as [?|?]; [done|by left].
    + right. by rewrite Ho.
Qed.

Lemma frame_inv_init (res0 : list F) :
  length res0 = l -> frame_inv (GState res0 (replicate l AtPublish)).
Proof.
  intros Hres. unfold Kernel.frame_inv. cbn [pcs result].
  split; [by rewrite length_replicate|]. split; [done|]. split.
  - intros k j s Hk. apply lookup_replicate in Hk as [? _]. done.
  - intros k Hk. left. apply lookup_replicate. split; [done|lia].
Qed.

(** Whatever the schedule, the kernel ends without a fault, and slot [k]
    of [result] holds the partial sum of group [k] for every [k >= 1]. *)
Lemma reduce_frame (sched : list nat) (res0 : list F) :
  length res0 = l ->
  exists res, reduce zero add l m a res0 lmem sched = Some res /\
    length res = l /\
    forall k, 0 < k < l -> res !! k = Some (P k).
Proof.
  intros Hres. unfold reduce. rewrite run_app.
  destruct (run_frame sched _ (frame_inv_init res0 Hres))
    as (st1 & Hr1 & Hinv1 & _).
  rewrite Hr1. cbn [mbind option_bind].
  destruct (run_finish (seq 0 l) st1 Hinv1) as (st2 & Hr2 & Hinv2 & Hfin).
  { intros k Hk. apply elem_of_seq in Hk. lia. }
  unfold finish_all. rewrite Hr2. cbn [mbind option_bind].
  exists (result st2). split; [done|].
  destruct Hinv2 as (Hlp & Hlr & Hc & Hf). split; [done|].
  intros k Hk. destruct (Hf k Hk) as [Hp|[_ Hp]]; [|done].
  rewrite Hfin in Hp; [done|]. left. apply elem_of_seq. lia.
Qed.

(** Publications of distinct groups, in any order. *)
Lemma run_publish pubs : forall st : gstate F,
  NoDup pubs ->
  (forall k, k ∈ pubs -> k < l /\ pcs st !! k = Some AtPublish) ->
  length (pcs st) = l -> length (result st) = l ->
  exists st', run pubs st = Some st' /\
    length (pcs st') = l /\ length (result st') = l /\
    (forall k, k ∈ pubs ->
       result st' !! k = Some (P k) /\
       pcs st' !! k = Some (if decide (k = 0) then AtCombine 0 zero
                            else Finished)) /\
    (forall k, k ∉ pubs ->
       result st' !! k = result st !! k /\ pcs st' !! k = pcs st !! k).
Proof.
  induction pubs as [|k pubs IH]; intros st Hnd Hin Hlp Hlr; simpl.
  - exists st. split; [done|]. split; [done|]. split; [done|].
    split; [|done]. intros k Hk. by apply elem_of_nil in Hk.
  - apply list.NoDup_cons in Hnd as [Hk Hnd].
    destruct (Hin k) as [Hkl Hpk]; [left|].
    unfold Kernel.step. rewrite Hpk, (Hgs k Hkl). cbn [mbind option_bind].
    rewrite store_Some by lia. cbn [mbind option_bind].
    set (st1 := GState _ _).
    destruct (IH st1 Hnd) as (st' & Hr & Hlp' & Hlr' & Hpub & Hrest).
    { intros k' Hk'. destruct (Hin k') as [? ?]; [by right|].
      split; [done|]. unfold st1; cbn [pcs].
      rewrite list_lookup_insert_ne; [done|]. by intros ->. }
    { unfold st1; cbn [pcs]. by rewrite length_insert. }
    { unfold st1; cbn [result]. by rewrite length_insert. }
    exists st'. split; [done|]. split; [done|]. split; [done|]. split.
    + intros k' Hk'. apply elem_of_cons in Hk' as [->|Hk']; [|by apply Hpub].
      destruct (Hrest k Hk) as [-> ->]. unfold st1; cbn [pcs result].
      rewrite !list_lookup_insert_eq by lia. split; [done|]. f_equal.
      destruct (decide (k = 0)) as [->|Hne].
      * by rewrite decide_True by (by apply global_id_0).
      * by rewrite decide_False by (by rewrite global_id_0).
    + intros k' Hk'. apply not_elem_of_cons in Hk' as [Hne Hk'].
      destruct (Hrest k' Hk') as [-> ->]. unfold st1; cbn [pcs result].
      by rewrite !list_lookup_insert_ne by done.
Qed.

Lemma sum_list_snoc (xs : list F) x :
  sum_list (xs ++ [x]) = add (sum_list xs) x.
Proof. unfold Kernel.sum_list. by rewrite fold_left_app. Qed.

(** Once every group has published, the other groups are finished and
    the single work-item walks over the published values. *)
Lemma step_combine (R : list F) k (st st' : gstate F) :
  length (pcs st) = length R -> 0 < length R ->
  combine_inv R st -> step k st = Some st' ->
  combine_inv R st' /\ length (pcs st') = length R.
Proof.
  intros Hlp HR [Hoth Hzero] Hstep. unfold Kernel.step in Hstep.
  destruct (decide (k = 0)) as [->|Hk0].
  - destruct Hzero as [(j & Hp & Hres)|[Hp Hres]]; rewrite Hp in Hstep.
    + rewrite Hlp, Hres in Hstep. case_decide as Hj.
      * destruct (lookup_lt_is_Some_2 R j) as [x Hx]; [lia|].
        rewrite Hx in Hstep. cbn [mbind option_bind] in Hstep.
        injection Hstep as <-. unfold Kernel.combine_inv. cbn [pcs result].
        split; [|by rewrite length_insert]. split.
        -- intros k Hk. rewrite list_lookup_insert_ne by lia. by apply Hoth.
        -- left. exists (S j). split; [|done].
           rewrite list_lookup_insert_eq by lia.
           by rewrite (take_S_r _ _ _ Hx), sum_list_snoc.
      * rewrite store_Some in Hstep by lia.
        cbn [mbind option_bind] in Hstep. injection Hstep as <-.
        unfold Kernel.combine_inv. cbn [pcs result].
        split; [|by rewrite length_insert]. split.
        -- intros k Hk. rewrite list_lookup_insert_ne by lia. by apply Hoth.
        -- right. split; [by rewrite list_lookup_insert_eq by lia|].
           by rewrite take_ge by lia.
    + injection Hstep as <-. split; [|done]. split; [done|]. by right.
  - destruct (decide (k < length R)) as [Hk|Hk].
    + rewrite Hoth in Hstep by lia. injection Hstep as <-.
      split; [|done]. by split.
    + rewrite lookup_ge_None_2 in Hstep by lia. injection Hstep as <-.
      split; [|done]. by split.
Qed.

Lemma run_combine (R : list F) sched : forall st st' : gstate F,
  length (pcs st) = length R -> 0 < length R ->
  combine_inv R st -> run sched st = Some st' -> combine_inv R st'.
Proof.
  induction sched as [|k sched IH]; intros st st' Hlp HR Hinv Hrun;
    simpl in Hrun.
  - by injection Hrun as <-.
  - destruct (step k st) as [st1|] eqn:Hs; [|done].
    cbn [mbind option_bind] in Hrun.
    destruct (step_combine R k st st1 Hlp HR Hinv Hs) as [Hinv1 Hlp1].
    by eapply IH.
Qed.

(** When the publications of all groups come first, the kernel leaves in
    slot 0 the left-to-right sum, from 0, of the partial sums. *)
Lemma reduce_synchronised (sched : list nat) (res0 : list F) :
  0 < l -> length res0 = l -> barrier_synchronised l sched ->
  reduce zero add l m a res0 lmem sched
  = Some (<[0 := sum_list (map P (seq 0 l))]> (map P (seq 0 l))).
Proof.
  intros Hl Hres (pubs & rest & -> & Hperm).
  set (R := map P (seq 0 l)).
  assert (HlR : length R = l) by (unfold R; by rewrite length_map, length_seq).
  destruct (reduce_frame ((pubs ++ rest)) res0 Hres) as (res & Hred & _).
  rewrite Hred. unfold reduce in Hred.
  rewrite <- app_assoc, run_app in Hred.
  destruct (run_publish pubs (GState res0 (replicate l AtPublish)))
    as (st1 & Hr1 & Hlp1 & Hlr1 & Hpub & _).
  { rewrite Hperm. apply NoDup_seq. }
  { intros k Hk. rewrite Hperm in Hk. apply elem_of_seq in Hk.
    split; [lia|]. cbn [pcs]. apply lookup_replicate. split; [done|lia]. }
  { cbn [pcs]. by rewrite length_replicate. }
  { done. }
  rewrite Hr1 in Hred. cbn [mbind option_bind] in Hred.
  destruct (run (rest ++ finish_all l) st1) as [st2|] eqn:Hr2; [|done].
  cbn [mbind option_bind] in Hred. injection Hred as <-.
  assert (Hin : forall k, k < l -> k ∈ pubs).
  { intros k Hk. rewrite Hperm. apply elem_of_seq. lia. }
  assert (Hinv1 : combine_inv R st1).
  { split.
    - intros k Hk. destruct (Hpub k) as [_ Hp]; [apply Hin; lia|].
      rewrite Hp. by rewrite decide_False by lia.
    - left. exists 0. destruct (Hpub 0) as [_ Hp]; [by apply Hin|].
      split; [done|].
      apply list_eq_same_length with l; [done..|].
      intros i x y Hi Hx Hy. destruct (Hpub i) as [Hpi _]; [by apply Hin|].
      unfold R in Hy. rewrite list_lookup_fmap, lookup_seq_lt in Hy by done.
      simpl in Hy. congruence. }
  pose proof (run_combine R _ st1 st2 ltac:(lia) ltac:(lia) Hinv1 Hr2)
    as [_ Hz].
  (* group 0 is finished at the end *)
  assert (Hfin : pcs st2 !! 0 = Some Finished).
  { rewrite run_app in Hr2.
    destruct (run_frame (pubs) _ (frame_inv_init res0 Hres))
      as (st1' & Hr1' & Hf1 & _).
    rewrite Hr1 in Hr1'. injection Hr1' as <-.
    destruct (run_frame rest st1 Hf1) as (st3 & Hr3 & Hf3 & _).
    rewrite Hr3 in Hr2. cbn [mbind option_bind] in Hr2.
    destruct (run_finish (seq 0 l) st3 Hf3) as (st4 & Hr4 & _ & Hall).
    { intros k Hk. apply elem_of_seq in Hk. lia. }
    unfold finish_all in Hr2. rewrite Hr4 in Hr2. injection Hr2 as <-.
    apply Hall. left. apply elem_of_seq. lia. }
  destruct Hz as [(j & Hp & _)|[_ Hz]]; [congruence|].
  by rewrite Hz.
Qed.

End Schedule.

(** *** Exact arithmetic: an associative and commutative addition *)

Section Exact.
Context {F : Type}.
Variable zero : F.
Variable add : F -> F -> F.
Hypothesis add_assoc : forall x y z, add x (add y z) = add (add x y) z.
Hypothesis add_comm : forall x y, add x y = add y x.
Hypothesis add_0_l : forall x, add zero x = x.

Local Abbreviation sum_list := (sum_list zero add).
Local Abbreviation tree_sum := (tree_sum zero add).

Lemma fold_left_add_acc (xs : list F) : forall acc,
  fold_left add xs acc = add acc (sum_list xs).
Proof.
  unfold Kernel.sum_list.
  induction xs as [|x xs IH]; intros acc; simpl.
  - by rewrite add_comm, add_0_l.
  - rewrite IH, (IH (add zero x)), add_0_l. by rewrite add_assoc.
Qed.

Lemma sum_list_cons x (xs : list F) :
  sum_list (x :: xs) = add x (sum_list xs).
Proof.
  unfold Kernel.sum_list at 1. simpl. by rewrite fold_left_add_acc, add_0_l.
Qed.

Lemma sum_list_nil : sum_list [] = zero.
Proof. done. Qed.

Lemma sum_list_app (xs ys : list F) :
  sum_list (xs ++ ys) = add (sum_list xs) (sum_list ys).
Proof.
  induction xs as [|x xs IH]; cbn [app].
  - by rewrite sum_list_nil, add_0_l.
  - by rewrite !sum_list_cons, IH, add_assoc.
Qed.

Lemma sum_list_perm (xs ys : list F) :
  Permutation xs ys -> sum_list xs = sum_list ys.
Proof.
  induction 1 as [|x xs ys _ IH|x y xs|xs ys zs _ IH1 _ IH2].
  - done.
  - by rewrite !sum_list_cons, IH.
  - rewrite !sum_list_cons, !add_assoc. by rewrite (add_comm y x).
  - by rewrite IH1.
Qed.

Lemma sum_list_zip (xs : list F) : forall ys,
  length xs = length ys ->
  sum_list (zip_with add xs ys) = add (sum_list xs) (sum_list ys).
Proof.
  induction xs as [|x xs IH]; intros [|y ys] Hlen; simpl in Hlen; try lia.
  - cbn [zip_with]. by rewrite sum_list_nil, add_0_l.
  - cbn [zip_with]. rewrite !sum_list_cons, IH by lia.
    rewrite !add_assoc. f_equal.
    rewrite <- !add_assoc. f_equal. apply add_comm.
Qed.

(** The balanced tree adds up its [2 ^ d] leaves. *)
Lemma tree_sum_exact d : forall xs : list F,
  length xs = 2 ^ d -> tree_sum d xs = sum_list xs.
Proof.
  induction d as [|d IH]; intros xs Hlen.
  - destruct xs as [|x [|y xs]]; simpl in Hlen; try lia.
    cbn [Kernel.tree_sum head default].
    by rewrite sum_list_cons, sum_list_nil, add_comm, add_0_l.
  - rewrite Nat.pow_succ_r' in Hlen. cbn [Kernel.tree_sum].
    rewrite IH.
    + rewrite sum_list_zip by (rewrite length_take, length_drop; lia).
      by rewrite <- sum_list_app, take_drop.
    + rewrite length_zip_with, length_take, length_drop. lia.
Qed.

(** Slicing the input into [l] groups and adding the group sums from the
    left gives the sum of the whole input. *)
Lemma sum_partials d l : forall a : list F,
  length a = l * 2 ^ d -> sum_list (partials zero add d l a) = sum_list a.
Proof.
  unfold partials. induction l as [|l IH] using nat_ind; intros a Hlen.
  - simpl in *. apply nil_length_inv in Hlen. by subst.
  - rewrite seq_S, map_app, sum_list_app. cbn [map Nat.add].
    rewrite sum_list_cons, sum_list_nil, (add_comm _ zero), add_0_l.
    transitivity (sum_list (take (l * 2 ^ d) a ++ drop (l * 2 ^ d) a));
      [|by rewrite take_drop].
    rewrite sum_list_app.
    f_equal.
    + rewrite <- (IH (take (l * 2 ^ d) a)) by (rewrite length_take; lia).
      f_equal. apply map_ext_in. intros k Hk. apply in_seq in Hk.
      f_equal. unfold slice.
      rewrite !take_drop_commute, take_take.
      rewrite Nat.min_l; [done|]. nia.
    + rewrite tree_sum_exact.
      * unfold slice. f_equal. apply take_ge. rewrite length_drop. lia.
      * unfold slice. rewrite length_take, length_drop. lia.
Qed.

End Exact.

(** *** Groups of 128 work-items *)

Section Groups128.
Context {F : Type}.
Variable zero : F.
Variable add : F -> F -> F.

(** The kernel on [l] groups of 128 work-items never faults, and under a
    schedule in which all publications come first it ends with the
    partial sums in [result], slot 0 replaced by their sum. *)
Lemma reduce_128_synchronised l (a res0 lmem : list F) sched :
  0 < l -> length a = l * 128 -> length res0 = l ->
  length lmem = BUFFSIZE -> barrier_synchronised l sched ->
  reduce zero add l 128 a res0 lmem sched
  = Some (<[0 := sum_list zero add (partials zero add 7 l a)]>
            (partials zero add 7 l a)).
Proof.
  intros Hl Ha Hres Hlm Hs.
  apply (reduce_synchronised zero add l 128 a lmem
           (fun k => tree_sum zero add 7 (slice 128 k a)));
    try done; [lia|].
  intros k Hk.
  apply (group_sum_tree zero add 7 k a lmem).
  - rewrite Hlm. unfold BUFFSIZE. simpl. lia.
  - rewrite Ha. change (2 ^ 7) with 128. nia.
Qed.

Lemma reduce_128_frame l (a res0 lmem : list F) sched :
  length a = l * 128 -> length res0 = l ->
  length lmem = BUFFSIZE ->
  exists res, reduce zero add l 128 a res0 lmem sched = Some res /\
    length res = l /\
    forall k, 0 < k < l ->
      res !! k = Some (tree_sum zero add 7 (slice 128 k a)).
Proof.
  intros Ha Hres Hlm.
  apply (reduce_frame zero add l 128 a lmem
           (fun k => tree_sum zero add 7 (slice 128 k a)));
    try done; [lia|].
  intros k Hk.
  apply (group_sum_tree zero add 7 k a lmem).
  - rewrite Hlm. unfold BUFFSIZE. simpl. lia.
  - rewrite Ha. change (2 ^ 7) with 128. nia.
Qed.

Lemma length_partials d l (a : list F) :
  length (partials zero add d l a) = l.
Proof. unfold partials. by rewrite length_map, length_seq. Qed.

End Groups128.

(** *** An input of zeros *)

Section Zeros.
Context {F : Type}.
Variable zero : F.
Variable add : F -> F -> F.
Hypothesis add_0_0 : add zero zero = zero.

Local Abbreviation all_zero := (Forall (fun x : F => x = zero)).

Lemma zip_with_zeros (xs : list F) : forall ys,
  all_zero xs -> all_zero ys -> all_zero (zip_with add xs ys).
Proof.
  induction xs as [|x xs IH]; intros [|y ys] Hx Hy; cbn [zip_with];
    try constructor.
  - apply list.Forall_cons_1 in Hx as [-> _]. apply list.Forall_cons_1 in Hy as [-> _].
    exact add_0_0.
  - apply list.Forall_cons_1 in Hx as [_ Hx]. apply list.Forall_cons_1 in Hy as [_ Hy].
    by apply IH.
Qed.

Lemma tree_sum_zeros d : forall xs : list F,
  all_zero xs -> tree_sum zero add d xs = zero.
Proof.
  induction d as [|d IH]; intros xs Hxs; cbn [Kernel.tree_sum].
  - destruct xs as [|x xs]; [done|]. by apply list.Forall_cons_1 in Hxs as [-> _].
  - apply IH. apply zip_with_zeros; [by apply Forall_take|by apply Forall_drop].
Qed.

Lemma sum_list_zeros (xs : list F) :
  all_zero xs -> sum_list zero add xs = zero.
Proof.
  unfold Kernel.sum_list. induction xs as [|x xs IH]; intros Hxs; [done|].
  apply list.Forall_cons_1 in Hxs as [-> Hxs]. cbn [fold_left].
  rewrite add_0_0. by apply IH.
Qed.

Lemma all_zero_map {A} (f : A -> F) (xs : list A) :
  (forall x, f x = zero) -> all_zero (map f xs).
Proof.
  intros Hf. induction xs as [|x xs IH]; cbn [map]; constructor; auto.
Qed.

Lemma partials_zeros d l (a : list F) :
  all_zero a -> all_zero (partials zero add d l a).
Proof.
  intros Ha. unfold partials. apply all_zero_map. intros k.
  apply tree_sum_zeros. unfold slice. by apply Forall_take, Forall_drop.
Qed.

End Zeros.

End KernelFacts.

(** ** Facts about executions under an arbitrary schedule *)

Module RaceFacts.
Import Kernel Race.

Section Schedule.
Context {F : Type}.
Variable zero : F.
Variable add : F -> F -> F.
Variables (l m : nat) (a lmem res0 : list F) (P : nat -> F).
Hypothesis Hl : 0 < l.
Hypothesis Hm : 0 < m.
Hypothesis Hgs : forall k, k < l -> group_sum add m k a lmem = Some (P k).

Local Abbreviation step := (step zero add m a lmem).
Local Abbreviation run := (run zero add m a lmem).
Local Abbreviation sum_list := (sum_list zero add).
Local Abbreviation race_inv := (race_inv zero add l P res0).
Local Abbreviation observed := (observed P res0).

Lemma observed_nil : observed [].
Proof. intros j x Hj. by rewrite lookup_nil in Hj. Qed.

Lemma observed_snoc v x :
  observed v -> x = P (length v) \/ (0 < length v /\ res0 !! length v = Some x) ->
  observed (v ++ [x]).
Proof.
  intros Hv Hx j y Hj. apply lookup_app_Some in Hj as [Hj|[Hge Hj]].
  - by apply Hv.
  - apply list_lookup_singleton_Some in Hj as [Hj ->].
    by replace j with (length v) by lia.
Qed.

Lemma race_inv_init :
  length res0 = l -> race_inv (GState res0 (replicate l AtPublish)).
Proof.
  intros Hres. unfold Race.race_inv. cbn [pcs result].
  split; [by rewrite length_replicate|]. split; [done|]. split.
  - intros k Hk. left. split; [|done]. apply lookup_replicate. split; [done|lia].
  - left. apply lookup_replicate. split; [done|lia].
Qed.

(** A step of any group keeps the invariant. *)
Lemma step_race k (st st' : gstate F) :
  race_inv st -> step k st = Some st' -> race_inv st'.
Proof.
  intros (Hlp & Hlr & Hoth & Hzero) Hstep. unfold Kernel.step in Hstep.
  destruct (decide (k = 0)) as [->|Hk0].
  - destruct Hzero as [Hp|[(v & Hp & Hv & Hobs & Hr0)|(v & Hp & Hv & Hobs & Hr0)]];
      rewrite Hp in Hstep.
    + (* group 0 publishes and enters the loop *)
      rewrite (Hgs 0 Hl) in Hstep. cbn [mbind option_bind] in Hstep.
      rewrite KernelFacts.store_Some in Hstep by lia.
      cbn [mbind option_bind] in Hstep.
      rewrite decide_True in Hstep by (unfold global_id; lia).
      injection Hstep as <-.
      unfold Race.race_inv. cbn [pcs result].
      split; [by rewrite length_insert|]. split; [by rewrite length_insert|].
      split.
      * intros k Hk. rewrite !list_lookup_insert_ne by lia. by apply Hoth.
      * right; left. exists []. rewrite !list_lookup_insert_eq by lia.
        split; [done|]. split; [simpl; lia|]. split; [apply observed_nil|done].
    + (* one iteration of the loop, or its exit *)
      rewrite Hlp in Hstep. case_decide as Hj.
      * destruct (result st !! length v) as [x|] eqn:Hx; [|done].
        cbn [mbind option_bind] in Hstep. injection Hstep as <-.
        unfold Race.race_inv. cbn [pcs result].
        split; [by rewrite length_insert|]. split; [done|]. split.
        -- intros k Hk. rewrite list_lookup_insert_ne by lia. by apply Hoth.
        -- right; left. exists (v ++ [x]).
           rewrite list_lookup_insert_eq by lia.
           rewrite length_app, KernelFacts.sum_list_snoc. simpl.
           replace (length v + 1) with (S (length v)) by lia.
           split; [done|]. split; [lia|]. split; [|done].
           apply observed_snoc; [done|].
           destruct (decide (length v = 0)) as [H0|H0].
           ++ left. rewrite H0 in Hx |- *. congruence.
           ++ destruct (Hoth (length v)) as [[_ Hr]|[_ Hr]]; [lia| |].
              ** right. split; [lia|]. congruence.
              ** left. congruence.
      * rewrite KernelFacts.store_Some in Hstep by lia.
        cbn [mbind option_bind] in Hstep. injection Hstep as <-.
        unfold Race.race_inv. cbn [pcs result].
        split; [by rewrite length_insert|]. split; [by rewrite length_insert|].
        split.
        -- intros k Hk. rewrite !list_lookup_insert_ne by lia. by apply Hoth.
        -- right; right. exists v. rewrite !list_lookup_insert_eq by lia.
           split; [done|]. split; [lia|]. by split.
    + injection Hstep as <-. unfold Race.race_inv.
      split; [done|]. split; [done|]. split; [done|]. right; right. by exists v.
  - destruct (decide (k < l)) as [Hk|Hk].
    + destruct (Hoth k) as [[Hp Hr]|[Hp Hr]]; [lia| |]; rewrite Hp in Hstep.
      * (* a group other than group 0 publishes and is finished *)
        rewrite (Hgs k Hk) in Hstep. cbn [mbind option_bind] in Hstep.
        rewrite KernelFacts.store_Some in Hstep by lia.
        cbn [mbind option_bind] in Hstep.
        rewrite decide_False in Hstep by (unfold global_id; nia).
        injection Hstep as <-.
        unfold Race.race_inv. cbn [pcs result].
        split; [by rewrite length_insert|]. split; [by rewrite length_insert|].
        split.
        -- intros k' Hk'. destruct (decide (k' = k)) as [->|Hne].
           ++ right. by rewrite !list_lookup_insert_eq by lia.
           ++ rewrite !list_lookup_insert_ne by done. by apply Hoth.
        -- rewrite !list_lookup_insert_ne by done. exact Hzero.
      * injection Hstep as <-. by unfold Race.race_inv.
    + rewrite lookup_ge_None_2 in Hstep by lia. injection Hstep as <-.
      by unfold Race.race_inv.
Qed.

Lemma run_race sched : forall st st' : gstate F,
  race_inv st -> run sched st = Some st' -> race_inv st'.
Proof.
  induction sched as [|k sched IH]; intros st st' Hinv Hrun; simpl in Hrun.
  - by injection Hrun as <-.
  - destruct (step k st) as [st1|] eqn:Hs; [|done].
    cbn [mbind option_bind] in Hrun.
    eapply IH; [|exact Hrun]. by eapply step_race.
Qed.

(** Whatever the schedule, the kernel ends with the sum of [l] observed
    values in slot 0. *)
Lemma reduce_observed (sched : list nat) :
  length res0 = l ->
  exists res v,
    reduce zero add l m a res0 lmem sched = Some res /\
    length res = l /\ length v = l /\ observed v /\
    res !! 0 = Some (sum_list v).
Proof.
  intros Hres.
  destruct (KernelFacts.reduce_frame zero add l m a lmem P Hm Hgs sched res0 Hres)
    as (res & Hred & Hlen & _).
  exists res. pose proof Hred as Hred'. unfold reduce in Hred'.
  destruct (run (sched ++ finish_all l) (GState res0 (replicate l AtPublish)))
    as [st|] eqn:Hrun; [|done].
  cbn [mbind option_bind] in Hred'. injection Hred' as <-.
  pose proof (run_race _ _ _ (race_inv_init Hres) Hrun) as (_ & _ & _ & Hzero).
  assert (Hfin : pcs st !! 0 = Some Finished).
  { rewrite KernelFacts.run_app in Hrun.
    destruct (KernelFacts.run_frame zero add l m a lmem P Hm Hgs sched _
                (KernelFacts.frame_inv_init l m P Hm res0 Hres))
      as (st1 & Hr1 & Hf1 & _).
    rewrite Hr1 in Hrun. cbn [mbind option_bind] in Hrun.
    destruct (KernelFacts.run_finish zero add l m a lmem P Hm Hgs (seq 0 l) st1 Hf1)
      as (st2 & Hr2 & _ & Hall).
    { intros k Hk. apply elem_of_seq in Hk. lia. }
    unfold finish_all in Hrun. rewrite Hr2 in Hrun. injection Hrun as <-.
    apply Hall. left. apply elem_of_seq. lia. }
  destruct Hzero as [Hp|[(v & Hp & _)|(v & _ & Hv & Hobs & Hr0)]];
    [congruence..|].
  exists v. done.
Qed.

End Schedule.

End RaceFacts.

(** ** Group 0 running to its end before the other groups *)

Module InOrderFacts.
Import Kernel Race.

Lemma finish_all_cons n :
  0 < n ->
  finish_all n
  = replicate (n + 2) 0
    ++ concat (map (fun k => replicate (n + 2) k) (seq 1 (n - 1))).
Proof.
  intros Hn. unfold finish_all. destruct n as [|n]; [lia|].
  cbn [seq map concat]. by rewrite Nat.sub_1_r.
Qed.

Section InOrder.
Context {F : Type}.
Variable zero : F.
Variable add : F -> F -> F.
Variables (l m : nat) (a lmem res0 : list F) (P : nat -> F).
Hypothesis Hl : 0 < l.
Hypothesis Hm : 0 < m.
Hypothesis Hres : length res0 = l.
Hypothesis Hgs : forall k, k < l -> group_sum add m k a lmem = Some (P k).

Local Abbreviation step := (step zero add m a lmem).
Local Abbreviation run := (run zero add m a lmem).
Local Abbreviation sum_list := (sum_list zero add).
Local Abbreviation solo_inv := (solo_inv zero add l (P 0) res0).
Local Abbreviation frame_inv := (frame_inv l P).

Lemma solo_inv_init : solo_inv (GState res0 (replicate l AtPublish)).
Proof.
  unfold Race.solo_inv. cbn [pcs result].
  split; [by rewrite length_replicate|]. split.
  - intros k Hk. apply lookup_replicate. split; [done|lia].
  - left. split; [|done]. apply lookup_replicate. split; [done|lia].
Qed.

(** A step of group 0 while the others wait. *)
Lemma step_solo (st st' : gstate F) :
  solo_inv st -> step 0 st = Some st' -> solo_inv st'.
Proof.
  intros (Hlp & Hoth & Hzero) Hstep. unfold Kernel.step in Hstep.
  destruct Hzero as [[Hp Hr]|[(j & Hp & Hr)|[Hp Hr]]]; rewrite Hp in Hstep.
  - rewrite (Hgs 0 Hl), Hr in Hstep. cbn [mbind option_bind] in Hstep.
    rewrite KernelFacts.store_Some in Hstep by lia.
    cbn [mbind option_bind] in Hstep.
    rewrite decide_True in Hstep by (unfold global_id; lia).
    injection Hstep as <-. unfold Race.solo_inv. cbn [pcs result].
    split; [by rewrite length_insert|]. split.
    + intros k Hk. rewrite list_lookup_insert_ne by lia. by apply Hoth.
    + right; left. exists 0. by rewrite list_lookup_insert_eq by lia.
  - rewrite Hlp, Hr in Hstep. case_decide as Hj.
    + destruct (lookup_lt_is_Some_2 (<[0:=P 0]> res0) j) as [x Hx].
      { rewrite length_insert. lia. }
      rewrite Hx in Hstep. cbn [mbind option_bind] in Hstep.
      injection Hstep as <-. unfold Race.solo_inv. cbn [pcs result].
      split; [by rewrite length_insert|]. split.
      * intros k Hk. rewrite list_lookup_insert_ne by lia. by apply Hoth.
      * right; left. exists (S j). split; [|done].
        rewrite list_lookup_insert_eq by lia.
        by rewrite (take_S_r _ _ _ Hx), KernelFacts.sum_list_snoc.
    + rewrite KernelFacts.store_Some in Hstep
        by (rewrite length_insert; lia).
      cbn [mbind option_bind] in Hstep. injection Hstep as <-.
      unfold Race.solo_inv. cbn [pcs result].
      split; [by rewrite length_insert|]. split.
      * intros k Hk. rewrite list_lookup_insert_ne by lia. by apply Hoth.
      * right; right. split; [by rewrite list_lookup_insert_eq by lia|].
        rewrite take_ge by (rewrite length_insert; lia). done.
  - injection Hstep as <-. unfold Race.solo_inv.
    split; [done|]. split; [done|]. by right; right.
Qed.

Lemma run_solo n : forall st st' : gstate F,
  solo_inv st -> run (replicate n 0) st = Some st' -> solo_inv st'.
Proof.
  induction n as [|n IH]; intros st st' Hinv Hrun; simpl in Hrun.
  - by injection Hrun as <-.
  - destruct (step 0 st) as [st1|] eqn:Hs; [|done].
    cbn [mbind option_bind] in Hrun.
    eapply IH; [|exact Hrun]. by eapply step_solo.
Qed.

(** Once group 0 is finished, no step changes slot 0. *)
Lemma step_slot0 k (st st' : gstate F) :
  frame_inv st -> pcs st !! 0 = Some Finished -> step k st = Some st' ->
  pcs st' !! 0 = Some Finished /\ result st' !! 0 = result st !! 0.
Proof.
  intros (Hlp & Hlr & Hc & Hf) H0 Hstep. unfold Kernel.step in Hstep.
  destruct (pcs st !! k) as [p|] eqn:Hk.
  2:{ by injection Hstep as <-. }
  assert (Hk0 : p = Finished \/ k <> 0).
  { destruct (decide (k = 0)) as [->|?]; [left; congruence|by right]. }
  destruct p as [|j s|].
  - destruct Hk0 as [?|Hk0]; [done|].
    destruct (group_sum add m k a lmem); [|done].
    cbn [mbind option_bind] in Hstep.
    destruct (store (result st) k f) as [r|] eqn:Hst; [|done].
    cbn [mbind option_bind] in Hstep. injection Hstep as <-. cbn [pcs result].
    unfold store in Hst. case_decide; [|done]. injection Hst as <-.
    by rewrite !list_lookup_insert_ne by done.
  - destruct (Hc _ _ _ Hk) as [-> _]. congruence.
  - by injection Hstep as <-.
Qed.

Lemma run_slot0 sched : forall st st' : gstate F,
  frame_inv st -> pcs st !! 0 = Some Finished -> run sched st = Some st' ->
  result st' !! 0 = result st !! 0.
Proof.
  induction sched as [|k sched IH]; intros st st' Hinv H0 Hrun;
    simpl in Hrun.
  - by injection Hrun as <-.
  - destruct (KernelFacts.step_frame zero add l m a lmem P Hm Hgs k st Hinv)
      as (st1 & Hs & Hinv1 & _).
    rewrite Hs in Hrun. cbn [mbind option_bind] in Hrun.
    destruct (step_slot0 k st st1 Hinv H0 Hs) as [H0' Hr].
    rewrite <- Hr. by eapply IH.
Qed.

(** When group 0 runs to its end before any other group acts, slot 0
    ends as the sum of the partial sum of group 0 and of what the other
    slots held at launch. *)
Lemma reduce_group0_first n :
  exists res,
    reduce zero add l m a res0 lmem (replicate n 0) = Some res /\
    length res = l /\
    res !! 0 = Some (sum_list (<[0 := P 0]> res0)) /\
    forall k, 0 < k < l -> res !! k = Some (P k).
Proof.
  destruct (KernelFacts.reduce_frame zero add l m a lmem P Hm Hgs
              (replicate n 0) res0 Hres) as (res & Hred & Hlen & Hfr).
  exists res. split; [done|]. split; [done|]. split; [|done].
  unfold reduce in Hred.
  rewrite (finish_all_cons l Hl) in Hred.
  rewrite app_assoc, <- replicate_add, KernelFacts.run_app in Hred.
  set (st0 := GState res0 (replicate l AtPublish)) in *.
  destruct (KernelFacts.run_replicate zero add l m a lmem P Hm Hgs
              (n + (l + 2)) 0 st0 AtPublish
              (KernelFacts.frame_inv_init l m P Hm res0 Hres))
    as (st1 & p1 & Hr1 & Hinv1 & Hp1 & Hle & _).
  { unfold st0. cbn [pcs]. apply lookup_replicate. split; [done|lia]. }
  rewrite Hr1 in Hred. cbn [mbind option_bind] in Hred.
  assert (p1 = Finished) as ->.
  { eapply KernelFacts.remaining_0; [exact Hm|exact Hinv1|exact Hp1|].
    cbn [remaining] in Hle. lia. }
  pose proof (run_solo _ _ _ solo_inv_init Hr1) as (_ & _ & Hzero).
  destruct Hzero as [[Hp _]|[(j & Hp & _)|[_ Hr]]]; [congruence..|].
  destruct (run _ st1) as [st2|] eqn:Hr2; [|done].
  cbn [mbind option_bind] in Hred. injection Hred as <-.
  rewrite (run_slot0 _ _ _ Hinv1 Hp1 Hr2), Hr.
  rewrite list_lookup_insert_eq by (rewrite length_insert; lia). done.
Qed.

End InOrder.

End InOrderFacts.

(** ** Facts about the load and the halving loop for any local size *)

Module FoldFacts.
Import Kernel Fold.

Section Bounds.
Context {F : Type}.
Variable zero : F.
Variable add : F -> F -> F.

Local Abbreviation halve := (halve add).
Local Abbreviation fold_item := (fold_item add).
Local Abbreviation fold_loop := (fold_loop add).
Local Abbreviation group_sum := (group_sum add).
Local Abbreviation step := (step zero add).
Local Abbreviation run := (run zero add).

Lemma store_length (mem mem' : list F) i x :
  store mem i x = Some mem' -> length mem' = length mem.
Proof.
  unfold store. case_decide; [|done]. intros [= <-]. by rewrite length_insert.
Qed.

Lemma load_item_length m k (a buff buff' : list F) t :
  load_item m k a t buff = Some buff' -> length buff' = length buff.
Proof.
  unfold load_item. destruct (a !! global_id m k t); [|done].
  cbn [mbind option_bind]. apply store_length.
Qed.

Lemma load_items_length m k (a : list F) ts : forall buff buff',
  each_item (load_item m k a) ts buff = Some buff' ->
  length buff' = length buff.
Proof.
  induction ts as [|t ts IH]; intros buff buff' H; simpl in H.
  - by injection H as <-.
  - destruct (load_item m k a t buff) as [b1|] eqn:H1; [|done].
    cbn [mbind option_bind] in H. rewrite (IH _ _ H).
    by eapply load_item_length.
Qed.

(** With more work-items than [buff] has cells, the load of line 138
    writes outside [buff]. *)
Lemma load_overflow m k (a lmem : list F) n :
  length lmem < n -> each_item (load_item m k a) (seq 0 n) lmem = None.
Proof.
  intros Hlt.
  replace n with (length lmem + S (n - length lmem - 1)) by lia.
  rewrite seq_app, KernelFacts.each_item_app.
  destruct (each_item _ (seq 0 (length lmem)) lmem) as [b1|] eqn:H1; [|done].
  cbn [mbind option_bind]. apply load_items_length in H1.
  cbn [seq each_item].
  destruct (load_item m k a (0 + length lmem) b1) as [b2|] eqn:H2; [|done].
  unfold load_item in H2. destruct (a !! _); [|done].
  cbn [mbind option_bind] in H2. unfold store in H2.
  rewrite decide_False in H2 by lia. done.
Qed.

Lemma group_sum_overflow m k (a lmem : list F) :
  length lmem < m -> group_sum m k a lmem = None.
Proof. intros Hlt. unfold Kernel.group_sum. by rewrite load_overflow. Qed.

(** Before any publication, a step of a group makes the kernel fault as
    soon as the group's load overflows. *)
Lemma run_overflow l m (a lmem res0 : list F) sched :
  length lmem < m ->
  let st0 := GState res0 (replicate l AtPublish) in
  run m a lmem sched st0 = None \/ run m a lmem sched st0 = Some st0.
Proof.
  intros Hlt st0. induction sched as [|k sched IH]; simpl; [by right|].
  unfold Kernel.step. destruct (pcs st0 !! k) as [p|] eqn:Hk.
  - apply lookup_replicate in Hk as [-> _].
    rewrite group_sum_overflow by done. by left.
  - exact IH.
Qed.

Lemma reduce_overflow l m (a lmem res0 : list F) sched :
  0 < l -> length lmem < m ->
  reduce zero add l m a res0 lmem sched = None.
Proof.
  intros Hl Hlt. unfold reduce. rewrite KernelFacts.run_app.
  destruct (run_overflow l m a lmem res0 sched Hlt) as [->| ->]; [done|].
  cbn [mbind option_bind].
  destruct l as [|l]; [lia|].
  unfold finish_all. cbn [seq map concat replicate Nat.add app Kernel.run].
  unfold Kernel.step. cbn [pcs replicate lookup list_lookup].
  by rewrite group_sum_overflow.
Qed.

(** *** Cells that the halving loop never reads *)

Lemma lookup_halve_lt h (buff : list F) i :
  2 * h <= length buff -> i < h ->
  halve h buff !! i
  = (x ← buff !! i; y ← buff !! (i + h); Some (add x y)).
Proof.
  intros Hlen Hi. unfold Kernel.halve.
  rewrite lookup_app_l.
  2:{ rewrite length_zip_with, !length_take, length_drop. lia. }
  rewrite lookup_zip_with, !lookup_take_lt, lookup_drop by done.
  by rewrite (Nat.add_comm h i).
Qed.

Lemma lookup_halve_ge h (buff : list F) i :
  2 * h <= length buff -> h <= i -> halve h buff !! i = buff !! i.
Proof.
  intros Hlen Hi. unfold Kernel.halve.
  rewrite lookup_app_r.
  2:{ rewrite length_zip_with, !length_take, length_drop. lia. }
  rewrite length_zip_with, !length_take, length_drop, lookup_drop.
  f_equal. lia.
Qed.

Lemma halve_agree h c (b b' : list F) :
  2 * h <= length b -> agree_below c b b' ->
  agree_below (c - h) (halve h b) (halve h b').
Proof.
  intros Hlen [Hl Hag]. split.
  - rewrite !KernelFacts.length_halve by lia. done.
  - intros i Hi. destruct (decide (i < h)).
    + rewrite !lookup_halve_lt by lia.
      by rewrite (Hag i), (Hag (i + h)) by lia.
    + rewrite !lookup_halve_ge by lia. apply Hag. lia.
Qed.

(** When the offsets from [offset] on do not reach cell [c], the loop
    leaves the same value in cell 0 whatever the cells from [c] on hold. *)
Lemma fold_loop_agree fuel m : forall offset c (b b' : list F),
  agree_below c b b' -> sum_offsets fuel offset < c ->
  offset <= m -> 2 * offset <= length b ->
  match fold_loop fuel m offset b, fold_loop fuel m offset b' with
  | Some r, Some r' => r !! 0 = r' !! 0
  | None, None => True
  | _, _ => False
  end.
Proof.
  induction fuel as [|fuel IH]; intros offset c b b' Hag Hc Hm Hlen.
  - cbn [Kernel.fold_loop]. cbn [sum_offsets] in Hc.
    case_decide; [done|]. apply Hag. lia.
  - cbn [Kernel.fold_loop]. cbn [sum_offsets] in Hc. case_decide as Ho.
    + pose proof Hag as [Hl _].
      rewrite !(KernelFacts.fold_step_halve add m) by lia.
      cbn [mbind option_bind].
      apply (IH (offset / 2) (c - offset)).
      * by apply halve_agree.
      * lia.
      * pose proof (Nat.Div0.div_le_upper_bound offset 2 offset). lia.
      * rewrite KernelFacts.length_halve by lia.
        pose proof (Nat.Div0.mul_div_le offset 2). lia.
    + apply Hag. lia.
Qed.

Lemma sum_offsets_le fuel : forall offset,
  sum_offsets fuel offset <= 2 * offset - 1.
Proof.
  induction fuel as [|fuel IH]; intros offset; cbn [sum_offsets]; [lia|].
  case_decide; [|lia]. specialize (IH (offset / 2)).
  pose proof (Nat.Div0.mul_div_le offset 2). lia.
Qed.

(** The offsets add up to less than [2 * offset - 1] unless [offset] is a
    power of two. *)
Lemma sum_offsets_lt fuel : forall offset,
  0 < offset -> (forall d, offset <> 2 ^ d) ->
  sum_offsets fuel offset + 2 <= 2 * offset.
Proof.
  induction fuel as [|fuel IH]; intros offset Hpos Hnp; cbn [sum_offsets]; [lia|].
  rewrite decide_True by done.
  pose proof (Nat.div_mod_eq offset 2) as Hdm.
  pose proof (Nat.mod_upper_bound offset 2 ltac:(lia)) as Hmod.
  destruct (decide (offset `mod` 2 = 0)) as [Heven|Hodd].
  - assert (Hh : 0 < offset / 2) by lia.
    specialize (IH (offset / 2) Hh). 
    assert (Hnp' : forall d, offset / 2 <> 2 ^ d).
    { intros d Hd. apply (Hnp (S d)). rewrite Nat.pow_succ_r'. lia. }
    specialize (IH Hnp'). lia.
  - assert (offset <> 1) by (intros ->; by apply (Hnp 0)).
    pose proof (sum_offsets_le fuel (offset / 2)). lia.
Qed.

(** For a local size that is not a power of two, the value a group
    publishes does not depend on the last element of its slice. *)
Lemma group_sum_last m k (a a' lmem : list F) :
  0 < m -> (forall d, m <> 2 ^ d) -> m <= length lmem ->
  k * m + m <= length a -> length a' = length a ->
  (forall t, t < m - 1 -> a !! (k * m + t) = a' !! (k * m + t)) ->
  group_sum m k a lmem = group_sum m k a' lmem.
Proof.
  intros Hm Hnp Hlm Ha Hla Hag. unfold Kernel.group_sum.
  rewrite !KernelFacts.load_items by lia. cbn [mbind option_bind].
  set (b := take m (drop (k * m) a) ++ drop m lmem).
  set (b' := take m (drop (k * m) a') ++ drop m lmem).
  assert (Hb : agree_below (m - 1) b b').
  { split.
    - unfold b, b'. rewrite !length_app, !length_take, !length_drop. lia.
    - intros i Hi. unfold b, b'.
      rewrite !lookup_app_l by (rewrite length_take, length_drop; lia).
      rewrite !lookup_take_lt, !lookup_drop by lia. by apply Hag. }
  assert (Hlb : length b = length lmem).
  { unfold b. rewrite length_app, length_take, !length_drop. lia. }
  pose proof (Nat.Div0.mul_div_le m 2) as Hdiv.
  assert (Hs : sum_offsets m (m / 2) < m - 1).
  { pose proof (Nat.div_mod_eq m 2) as Hdm.
    pose proof (Nat.mod_upper_bound m 2 ltac:(lia)) as Hmod.
    assert (m <> 1) by (intros ->; by apply (Hnp 0)).
    destruct (decide (m `mod` 2 = 0)) as [Heven|Hodd].
    - assert (Hnp' : forall d, m / 2 <> 2 ^ d).
      { intros d Hd. apply (Hnp (S d)). rewrite Nat.pow_succ_r'. lia. }
      pose proof (sum_offsets_lt m (m / 2) ltac:(lia) Hnp'). lia.
    - pose proof (sum_offsets_le m (m / 2)). lia. }
  pose proof (fold_loop_agree m m (m / 2) (m - 1) b b' Hb Hs ltac:(lia) ltac:(lia))
    as Hfold.
  destruct (fold_loop m m (m / 2) b), (fold_loop m m (m / 2) b');
    cbn [mbind option_bind]; done.
Qed.

(** Two inputs for which every group publishes the same value give the
    same execution. *)
Lemma run_ext l m (a a' lmem : list F) sched :
  (forall k, k < l -> group_sum m k a lmem = group_sum m k a' lmem) ->
  forall st, length (pcs st) = l ->
    run m a lmem sched st = run m a' lmem sched st.
Proof.
  intros Hgs. induction sched as [|k sched IH]; intros st Hlp; [done|].
  cbn [Kernel.run].
  assert (Hstep : step m a lmem k st = step m a' lmem k st).
  { unfold Kernel.step. destruct (pcs st !! k) as [p|] eqn:Hk; [|done].
    destruct p; [|done..]. rewrite Hgs; [done|].
    rewrite <- Hlp. by eapply lookup_lt_Some. }
  rewrite <- Hstep. destruct (step m a lmem k st) as [st1|] eqn:Hs; [|done].
  cbn [mbind option_bind]. apply IH.
  unfold Kernel.step in Hs. destruct (pcs st !! k) as [p|] eqn:Hk.
  2:{ by injection Hs as <-. }
  destruct p as [|j s|].
  - destruct (group_sum m k a lmem); [|done]. cbn [mbind option_bind] in Hs.
    destruct (store (result st) k f); [|done]. cbn [mbind option_bind] in Hs.
    injection Hs as <-. cbn [pcs]. by rewrite length_insert.
  - case_decide.
    + destruct (result st !! j); [|done]. cbn [mbind option_bind] in Hs.
      injection Hs as <-. cbn [pcs]. by rewrite length_insert.
    + destruct (store (result st) 0 s); [|done]. cbn [mbind option_bind] in Hs.
      injection Hs as <-. cbn [pcs]. by rewrite length_insert.
  - by injection Hs as <-.
Qed.

End Bounds.

End FoldFacts.

(** * Properties of the floating-point operations *)

Module FloatFacts.

Local Open Scope Z_scope.

Lemma digits2_size p : digits2_pos p = Pos.size p.
Proof. induction p as [p IH|p IH|]; simpl; by rewrite ?IH. Qed.

Lemma Zdigits2_log2 m : 0 < m -> Zdigits2 m = Z.log2 m + 1.
Proof.
  destruct m as [|p|p]; try lia. intros _. simpl. rewrite digits2_size.
  destruct p; simpl; lia.
Qed.

Lemma Zdigits2_0 : Zdigits2 0 = 0.
Proof. done. Qed.

Lemma Zdigits2_nonneg m : 0 <= Zdigits2 m.
Proof. destruct m; simpl; lia. Qed.

Lemma Zdigits2_pos m : 0 < m -> 0 < Zdigits2 m.
Proof. destruct m; simpl; lia. Qed.

(** [m < 2 ^ k] bounds the number of digits by [k]. *)
Lemma Zdigits2_lt_pow2 m k : 0 <= m -> 0 <= k -> m < 2 ^ k -> Zdigits2 m <= k.
Proof.
  intros Hm Hk Hlt. destruct (Z.eq_dec m 0) as [->|Hne]; [done|].
  rewrite Zdigits2_log2 by lia.
  assert (Z.log2 m < k) by (apply Z.log2_lt_pow2; lia). lia.
Qed.

Lemma Zdigits2_le_pow2 m k :
  0 <= m -> 0 <= k -> m <= 2 ^ k -> Zdigits2 m <= k + 1.
Proof.
  intros Hm Hk Hle. apply Zdigits2_lt_pow2; [lia..|].
  rewrite Z.pow_add_r, Z.pow_1_r by lia. pose proof (Z.pow_pos_nonneg 2 k). lia.
Qed.

Lemma Zdigits2_ge_pow2 m k : 0 <= k -> 2 ^ k <= m -> k + 1 <= Zdigits2 m.
Proof.
  intros Hk Hle. pose proof (Z.pow_pos_nonneg 2 k).
  rewrite Zdigits2_log2 by lia.
  assert (k <= Z.log2 m) by (apply Z.log2_le_pow2; lia). lia.
Qed.

Lemma Zdigits2_lt m : 0 <= m -> m < 2 ^ Zdigits2 m.
Proof.
  intros Hm. destruct (Z.eq_dec m 0) as [->|Hne]; [done|].
  rewrite Zdigits2_log2 by lia. apply Z.log2_spec. lia.
Qed.

Lemma Zdigits2_ge m : 0 < m -> 2 ^ (Zdigits2 m - 1) <= m.
Proof.
  intros Hm. rewrite Zdigits2_log2 by lia.
  replace (Z.log2 m + 1 - 1) with (Z.log2 m) by lia.
  apply Z.log2_spec. lia.
Qed.

(** Digits of a quotient by a power of two. *)
Lemma Zdigits2_div_pow2 m n :
  0 <= m -> 0 <= n -> Zdigits2 (m / 2 ^ n) = Z.max 0 (Zdigits2 m - n).
Proof.
  intros Hm Hn. destruct (Z.eq_dec m 0) as [->|Hne].
  { rewrite Z.div_0_l by (pose proof (Z.pow_pos_nonneg 2 n); lia).
    simpl. lia. }
  rewrite <- Z.shiftr_div_pow2 by lia.
  destruct (Z.le_gt_cases (Zdigits2 m) n) as [Hle|Hgt].
  - rewrite Z.max_l by lia.
    rewrite Z.shiftr_eq_0; [done|lia|].
    rewrite Zdigits2_log2 in Hle by lia. lia.
  - rewrite Z.max_r by lia.
    rewrite (Zdigits2_log2 m) in Hgt |- * by lia.
    assert (0 < Z.shiftr m n).
    { rewrite Z.shiftr_div_pow2 by lia.
      apply Z.div_str_pos. split; [apply Z.pow_pos_nonneg; lia|].
      apply Z.log2_le_pow2; lia. }
    rewrite Zdigits2_log2 by lia. rewrite Z.log2_shiftr by lia. lia.
Qed.

Lemma shr_1_m mrs : 0 <= shr_m mrs -> shr_m (shr_1 mrs) = shr_m mrs / 2.
Proof.
  destruct mrs as [m r s]. simpl. intros Hm.
  destruct m as [|[p|p|]|p]; cbn [shr_m]; try lia.
  - done.
  - rewrite Pos2Z.inj_xI. symmetry.
    rewrite Z.mul_comm, Z.div_add_l by lia. rewrite Z.div_small; lia.
  - rewrite Pos2Z.inj_xO. symmetry. rewrite Z.mul_comm. apply Z.div_mul. lia.
  - done.
Qed.

Lemma shr_1_nonneg mrs : 0 <= shr_m mrs -> 0 <= shr_m (shr_1 mrs).
Proof. intros H. rewrite shr_1_m by done. apply Z.div_pos; lia. Qed.

Lemma iter_pos_shr_1 p : forall mrs,
  0 <= shr_m mrs ->
  shr_m (SpecFloat.iter_pos shr_1 p mrs) = shr_m mrs / 2 ^ Zpos p.
Proof.
  induction p as [p IH|p IH|]; intros mrs Hm; cbn [SpecFloat.iter_pos].
  - assert (H1 : 0 <= shr_m (shr_1 mrs)) by by apply shr_1_nonneg.
    assert (H2 : 0 <= shr_m (SpecFloat.iter_pos shr_1 p (shr_1 mrs))).
    { rewrite IH by done. apply Z.div_pos; [done|]. apply Z.pow_pos_nonneg; lia. }
    rewrite IH, IH, shr_1_m by done.
    rewrite !Z.div_div by (try apply Z.pow_pos_nonneg; lia).
    f_equal. rewrite Pos2Z.inj_xI.
    rewrite <- Z.pow_add_r, <- (Z.pow_1_r 2) at 1 by lia.
    rewrite <- Z.pow_add_r by lia. f_equal. lia.
  - assert (H2 : 0 <= shr_m (SpecFloat.iter_pos shr_1 p mrs)).
    { rewrite IH by done. apply Z.div_pos; [done|]. apply Z.pow_pos_nonneg; lia. }
    rewrite IH, IH by done.
    rewrite !Z.div_div by (try apply Z.pow_pos_nonneg; lia).
    f_equal. rewrite Pos2Z.inj_xO.
    rewrite <- Z.pow_add_r by lia. f_equal. lia.
  - rewrite shr_1_m by done. done.
Qed.

Lemma shr_m_of_loc m l : shr_m (shr_record_of_loc m l) = m.
Proof. by destruct l as [|[]]. Qed.

Lemma round_nearest_even_bounds m l :
  m <= round_nearest_even m l <= m + 1.
Proof.
  destruct l as [|[]]; simpl; try lia. destruct (Z.even m); lia.
Qed.

Lemma round_nearest_even_exact m : round_nearest_even m loc_Exact = m.
Proof. done. Qed.

(** *** Rounding to a format *)

Section Round.
Variables prec emax : Z.
Hypothesis Hprec : 0 < prec.
Hypothesis Hemax : 2 <= emax.

Local Abbreviation emin := (emin prec emax).
Local Abbreviation fexp := (fexp prec emax).

Lemma fexp_le x B : x <= B -> B <= emax -> fexp x <= emax - prec.
Proof. unfold SpecFloat.fexp, SpecFloat.emin. lia. Qed.

Lemma shr_fexp_spec m e l :
  0 <= m ->
  exists mrs,
    shr_fexp prec emax m e l
    = (mrs, e + Z.max 0 (fexp (Zdigits2 m + e) - e)) /\
    shr_m mrs = m / 2 ^ Z.max 0 (fexp (Zdigits2 m + e) - e) /\
    (fexp (Zdigits2 m + e) - e <= 0 -> mrs = shr_record_of_loc m l).
Proof.
  intros Hm. unfold shr_fexp, shr.
  destruct (fexp (Zdigits2 m + e) - e) as [|p|p] eqn:Hn.
  - eexists. split; [by rewrite Z.add_0_r|]. split; [|done].
    rewrite shr_m_of_loc. simpl. by rewrite Z.div_1_r.
  - eexists. split; [by rewrite Z.max_r by lia|]. split; [|lia].
    rewrite iter_pos_shr_1 by (by rewrite shr_m_of_loc).
    rewrite shr_m_of_loc. by rewrite Z.max_r by lia.
  - eexists. split; [by rewrite Z.max_l, Z.add_0_r by lia|]. split; [|done].
    rewrite shr_m_of_loc, Z.max_l by lia. simpl. by rewrite Z.div_1_r.
Qed.

(** The two shifts and the rounding of [binary_round_aux], spelled out. *)
Lemma binary_round_aux_spec sx mx ex lx :
  0 <= mx ->
  exists m1,
    let n1 := Z.max 0 (fexp (Zdigits2 mx + ex) - ex) in
    let n2 := Z.max 0 (fexp (Zdigits2 m1 + (ex + n1)) - (ex + n1)) in
    mx / 2 ^ n1 <= m1 <= mx / 2 ^ n1 + 1 /\
    binary_round_aux prec emax sx mx ex lx
    = match m1 / 2 ^ n2 with
      | Z0 => S754_zero sx
      | Zpos m =>
          if ex + n1 + n2 <=? emax - prec
          then S754_finite sx m (ex + n1 + n2) else S754_infinity sx
      | Zneg _ => S754_nan
      end.
Proof.
  intros Hm. unfold binary_round_aux.
  destruct (shr_fexp_spec mx ex lx Hm) as (mrs1 & -> & Hq & _).
  set (n1 := Z.max 0 (fexp (Zdigits2 mx + ex) - ex)) in *.
  set (m1 := round_nearest_even (shr_m mrs1) (loc_of_shr_record mrs1)).
  assert (Hm1 : mx / 2 ^ n1 <= m1 <= mx / 2 ^ n1 + 1).
  { unfold m1. rewrite <- Hq. apply round_nearest_even_bounds. }
  assert (0 <= m1).
  { assert (0 <= mx / 2 ^ n1); [|lia].
    apply Z.div_pos; [done|]. apply Z.pow_pos_nonneg; lia. }
  destruct (shr_fexp_spec m1 (ex + n1) loc_Exact) as (mrs2 & -> & Hq2 & _);
    [done|].
  exists m1. cbn zeta. split; [done|]. by rewrite Hq2.
Qed.

(** No overflow: below [2 ^ B] with [B < emax], the result is a zero or a
    finite number of the same sign, below [2 ^ (B + 1)]. *)
Lemma binary_round_aux_upper sx mx ex lx B :
  0 <= mx -> Zdigits2 mx + ex <= B -> emin <= B -> B < emax ->
  ex <= emax - prec ->
  binary_round_aux prec emax sx mx ex lx = S754_zero sx \/
  exists m e, binary_round_aux prec emax sx mx ex lx = S754_finite sx m e /\
              Zdigits2 (Zpos m) + e <= B + 1.
Proof.
  intros Hm HG HB Hov Hex.
  destruct (binary_round_aux_spec sx mx ex lx Hm) as (m1 & Hm1 & ->).
  set (n1 := Z.max 0 (fexp (Zdigits2 mx + ex) - ex)) in *.
  set (n2 := Z.max 0 (fexp (Zdigits2 m1 + (ex + n1)) - (ex + n1))) in *.
  pose proof (Zdigits2_nonneg mx) as Hd.
  assert (Hn1 : 0 <= n1) by (unfold n1; lia).
  assert (Hn2 : 0 <= n2) by (unfold n2; lia).
  assert (Hq : 0 <= mx / 2 ^ n1).
  { apply Z.div_pos; [done|]. apply Z.pow_pos_nonneg; lia. }
  assert (Hdq := Zdigits2_div_pow2 mx n1 Hm Hn1).
  assert (Hqlt := Zdigits2_lt (mx / 2 ^ n1) Hq).
  assert (Hd1 : Zdigits2 m1 <= Zdigits2 (mx / 2 ^ n1) + 1).
  { apply Zdigits2_le_pow2; [lia|apply Zdigits2_nonneg|lia]. }
  assert (Hmag : Zdigits2 m1 + (ex + n1) <= B + 1).
  { unfold n1 in *. unfold SpecFloat.fexp in *. lia. }
  destruct (m1 / 2 ^ n2) as [|m|m] eqn:Hm2.
  - by left.
  - right. assert (He : ex + n1 + n2 <= emax - prec).
    { unfold n2, n1 in *. unfold SpecFloat.fexp, SpecFloat.emin in *. lia. }
    rewrite (proj2 (Z.leb_le _ _) He). eexists _, _. split; [done|].
    rewrite <- Hm2, Zdigits2_div_pow2 by lia.
    assert (0 < Zdigits2 (m1 / 2 ^ n2)) by (rewrite Hm2; done).
    rewrite Zdigits2_div_pow2 in * by lia. lia.
  - exfalso. assert (0 <= m1 / 2 ^ n2); [|lia].
    apply Z.div_pos; [lia|]. apply Z.pow_pos_nonneg; lia.
Qed.

(** In the range of the normal numbers the result of rounding a positive
    mantissa is a finite non-zero number within one binade. *)
Lemma binary_round_aux_normal sx mx ex lx B :
  0 < mx -> emin <= Zdigits2 mx + ex - prec -> Zdigits2 mx + ex <= B ->
  B < emax -> ex <= emax - prec ->
  exists m e, binary_round_aux prec emax sx mx ex lx = S754_finite sx m e /\
              Zdigits2 mx + ex <= Zdigits2 (Zpos m) + e <= B + 1.
Proof.
  intros Hm Hnorm HG Hov Hex.
  assert (HB : emin <= B) by lia.
  destruct (binary_round_aux_spec sx mx ex lx) as (m1 & Hm1 & Heq); [lia|].
  set (n1 := Z.max 0 (fexp (Zdigits2 mx + ex) - ex)) in *.
  set (n2 := Z.max 0 (fexp (Zdigits2 m1 + (ex + n1)) - (ex + n1))) in *.
  pose proof (Zdigits2_pos mx Hm) as Hd.
  assert (Hn1 : 0 <= n1) by (unfold n1; lia).
  assert (Hn2 : 0 <= n2) by (unfold n2; lia).
  assert (Hn1d : n1 < Zdigits2 mx) by (unfold n1, SpecFloat.fexp in *; lia).
  assert (Hdq := Zdigits2_div_pow2 mx n1 ltac:(lia) Hn1).
  assert (Hq0 : 0 <= mx / 2 ^ n1).
  { apply Z.div_pos; [lia|]. apply Z.pow_pos_nonneg; lia. }
  assert (Hd1 : Zdigits2 (mx / 2 ^ n1) <= Zdigits2 m1).
  { apply Zdigits2_lt_pow2; [lia|apply Zdigits2_nonneg|].
    pose proof (Zdigits2_lt m1 ltac:(lia)). lia. }
  assert (Hn2d : n2 < Zdigits2 m1).
  { unfold n2, n1, SpecFloat.fexp in *. lia. }
  assert (Hdm2 := Zdigits2_div_pow2 m1 n2 ltac:(lia) Hn2).
  destruct (binary_round_aux_upper sx mx ex lx B) as [Hz|(m & e & Hf & Hub)];
    try lia.
  - exfalso. rewrite Heq in Hz.
    destruct (m1 / 2 ^ n2) eqn:Hm2; simpl in Hdm2; try lia.
    + destruct (_ <=? _); done.
    + done.
  - exists m, e. split; [done|]. split; [|done].
    rewrite Heq in Hf.
    destruct (m1 / 2 ^ n2) as [|m'|m'] eqn:Hm2; try done.
    destruct (_ <=? _); [|done]. injection Hf as <- <-.
    rewrite Hdm2. unfold n1 in *. lia.
Qed.

Lemma digits2_iter_xO d : forall m,
  Zpos (digits2_pos (Pos.iter xO m d)) = Zpos (digits2_pos m) + Zpos d.
Proof.
  induction d as [|d IH] using Pos.peano_ind; intros m.
  - simpl. lia.
  - rewrite Pos.iter_succ. simpl. rewrite Pos2Z.inj_succ, IH. lia.
Qed.

Lemma shl_align_spec mx ex ex' :
  exists mz ez, shl_align mx ex ex' = (mz, ez) /\
    mag mz ez = mag mx ex /\ ez = Z.min ex ex'.
Proof.
  unfold shl_align, mag. destruct (ex' - ex) as [|d|d] eqn:Hd.
  - eexists _, _. split; [done|]. lia.
  - eexists _, _. split; [done|]. lia.
  - eexists _, _. split; [done|]. simpl Zdigits2.
    rewrite digits2_iter_xO. lia.
Qed.

Lemma binary_round_normal sx mx ex B :
  emin <= mag mx ex - prec -> mag mx ex <= B -> B < emax ->
  exists m e, binary_round prec emax sx mx ex = S754_finite sx m e /\
              mag mx ex <= mag m e <= B + 1.
Proof.
  intros Hnorm HG Hov. unfold binary_round.
  destruct (shl_align_spec mx ex (fexp (Zpos (digits2_pos mx) + ex)))
    as (mz & ez & -> & Hmag & Hez).
  unfold mag in *. rewrite <- Hmag.
  apply binary_round_aux_normal; try lia.
  assert (fexp (Zdigits2 (Zpos mx) + ex) <= emax - prec)
    by (apply (fexp_le _ B); lia).
  simpl Zdigits2 in *. lia.
Qed.

Lemma Zdigits2_mul a b :
  0 < a -> 0 < b ->
  Zdigits2 a + Zdigits2 b - 1 <= Zdigits2 (a * b) <= Zdigits2 a + Zdigits2 b.
Proof.
  intros Ha Hb.
  pose proof (Zdigits2_pos a Ha). pose proof (Zdigits2_pos b Hb).
  pose proof (Zdigits2_lt a ltac:(lia)). pose proof (Zdigits2_lt b ltac:(lia)).
  pose proof (Zdigits2_ge a Ha). pose proof (Zdigits2_ge b Hb).
  split.
  - replace (Zdigits2 a + Zdigits2 b - 1)
      with ((Zdigits2 a - 1) + (Zdigits2 b - 1) + 1) by lia.
    apply Zdigits2_ge_pow2; [lia|].
    rewrite Z.pow_add_r by lia. nia.
  - apply Zdigits2_lt_pow2; [nia|lia|].
    rewrite Z.pow_add_r by lia. nia.
Qed.

(** The product of two positive finite numbers, away from overflow and
    underflow. *)
Lemma mul_pos_finite lx hx ly hy x y :
  pos_finite lx hx x -> pos_finite ly hy y ->
  emin <= lx + ly - 1 - prec -> hx + hy < emax ->
  hx + hy - 2 <= emax - prec ->
  pos_finite (lx + ly - 1) (hx + hy + 1) (SFmul prec emax x y).
Proof.
  intros (mx & ex & -> & Hx) (my & ey & -> & Hy) Hnorm Hov Hex.
  unfold mag in *. cbn [SFmul xorb].
  pose proof (Zdigits2_mul (Zpos mx) (Zpos my) ltac:(lia) ltac:(lia)) as Hd.
  pose proof (Zdigits2_pos (Zpos mx) ltac:(lia)).
  pose proof (Zdigits2_pos (Zpos my) ltac:(lia)).
  rewrite <- Pos2Z.inj_mul in Hd.
  destruct (binary_round_aux_normal false (Zpos (mx * my)) (ex + ey)
              loc_Exact (hx + hy)) as (m & e & -> & Hm); try lia.
  exists m, e. split; [done|]. unfold mag. lia.
Qed.

Lemma mul_nonneg_below hx ly hy x y :
  nonneg_below hx x -> pos_finite ly hy y ->
  emin <= hx + hy -> hx + hy < emax -> hx + hy - 2 <= emax - prec ->
  nonneg_below (hx + hy + 1) (SFmul prec emax x y).
Proof.
  intros [->|(mx & ex & -> & Hx)] (my & ey & -> & Hy) Hmin Hov Hex.
  { by left. }
  unfold mag in *. cbn [SFmul xorb].
  pose proof (Zdigits2_mul (Zpos mx) (Zpos my) ltac:(lia) ltac:(lia)) as Hd.
  pose proof (Zdigits2_pos (Zpos mx) ltac:(lia)).
  pose proof (Zdigits2_pos (Zpos my) ltac:(lia)).
  rewrite <- Pos2Z.inj_mul in Hd.
  destruct (binary_round_aux_upper false (Zpos (mx * my)) (ex + ey)
              loc_Exact (hx + hy)) as [->|(m & e & -> & Hm)]; try lia.
  - by left.
  - right. exists m, e. split; [done|]. unfold mag. lia.
Qed.

(** The quotient of a non-negative finite number by a positive finite
    one, away from overflow: no infinity, no NaN, no negative sign. *)
Lemma div_nonneg_below hx ly hy x y :
  nonneg_below hx x -> pos_finite ly hy y ->
  emin <= hx - ly + 1 -> hx - ly + 1 < emax ->
  nonneg_below (hx - ly + 2) (SFdiv prec emax x y).
Proof.
  intros [->|(mx & ex & -> & Hx)] (my & ey & -> & Hy) Hmin Hov.
  { by left. }
  unfold mag in *. cbn [SFdiv xorb]. unfold SFdiv_core_binary.
  set (e' := Z.min (fexp (Zdigits2 (Zpos mx) + ex - (Zdigits2 (Zpos my) + ey)))
                   (ex - ey)).
  set (s := ex - ey - e').
  assert (Hs : 0 <= s) by (unfold s, e'; lia).
  set (m' := match s with Z0 => Zpos mx | Zpos _ => Z.shiftl (Zpos mx) s
             | Zneg _ => 0 end).
  assert (Hm' : m' = Zpos mx * 2 ^ s).
  { unfold m'. destruct s as [|p|p] eqn:Hsp; [lia| |lia].
    by rewrite Z.shiftl_mul_pow2 by lia. }
  pose proof (Z_div_mod m' (Zpos my) ltac:(lia)) as Hdm.
  destruct (Z.div_eucl m' (Zpos my)) as [q r]. destruct Hdm as [Hqr Hr].
  pose proof (Z.pow_pos_nonneg 2 s ltac:(lia) Hs) as H2s.
  assert (Hq0 : 0 <= q) by nia.
  pose proof (Zdigits2_pos (Zpos mx) ltac:(lia)) as Hdx.
  pose proof (Zdigits2_pos (Zpos my) ltac:(lia)) as Hdy.
  pose proof (Zdigits2_lt (Zpos mx) ltac:(lia)) as Hxlt.
  pose proof (Zdigits2_ge (Zpos my) ltac:(lia)) as Hyge.
  set (dx := Zdigits2 (Zpos mx)) in *. set (dy := Zdigits2 (Zpos my)) in *.
  assert (Hdq : Zdigits2 q <= Z.max 0 (dx + s - dy + 1)).
  { destruct (Z.eq_dec q 0) as [->|Hq]; [simpl; lia|].
    assert (Hlt : q * 2 ^ (dy - 1) < 2 ^ (dx + s)).
    { rewrite Z.pow_add_r by lia.
      pose proof (Z.pow_pos_nonneg 2 (dy - 1) ltac:(lia) ltac:(lia)). nia. }
    assert (Hge : dy - 1 < dx + s).
    { apply (Z.pow_lt_mono_r_iff 2); [lia|lia|].
      pose proof (Z.pow_pos_nonneg 2 (dy - 1) ltac:(lia) ltac:(lia)). nia. }
    rewrite Z.max_r by lia. apply Zdigits2_lt_pow2; [lia|lia|].
    replace (dx + s) with ((dx + s - dy + 1) + (dy - 1)) in Hlt by lia.
    rewrite Z.pow_add_r in Hlt by lia.
    pose proof (Z.pow_pos_nonneg 2 (dy - 1) ltac:(lia) ltac:(lia)). nia. }
  assert (He' : e' <= emax - prec).
  { assert (fexp (dx + ex - (dy + ey)) <= emax - prec)
      by (apply (fexp_le _ (hx - ly + 1)); lia).
    unfold e'. lia. }
  destruct (binary_round_aux_upper false q e' (new_location (Zpos my) r)
              (hx - ly + 1)) as [->|(m & e & -> & Hm)]; try lia.
  - unfold s, e', SpecFloat.fexp in *. lia.
  - by left.
  - right. exists m, e. split; [done|]. unfold mag. lia.
Qed.

End Round.

(** *** binary64 *)

Lemma F64_of_Z_pos z B :
  0 < z -> z < 2 ^ B -> 0 <= B -> B < 1024 ->
  pos_finite 1 (B + 1) (F64.of_Z z).
Proof.
  intros Hz HB HB0 HB1. destruct z as [|p|p]; try lia.
  unfold F64.of_Z, binary_normalize.
  pose proof (Zdigits2_pos (Zpos p) ltac:(lia)) as Hd.
  pose proof (Zdigits2_lt_pow2 (Zpos p) B ltac:(lia) HB0 HB) as Hd'.
  destruct (binary_round_normal F64.prec F64.emax ltac:(done) ltac:(done)
              false p 0 B) as (m & e & -> & Hm).
  - unfold mag, SpecFloat.emin, F64.prec, F64.emax. lia.
  - unfold mag. lia.
  - unfold F64.emax. lia.
  - exists m, e. split; [done|]. unfold mag in *. lia.
Qed.

Lemma F64_of_Z_nonneg z B :
  0 <= z -> z < 2 ^ B -> 0 <= B -> B < 1024 ->
  nonneg_below (B + 1) (F64.of_Z z).
Proof.
  intros Hz HB HB0 HB1. destruct (Z.eq_dec z 0) as [->|Hne]; [by left|].
  destruct (F64_of_Z_pos z B) as (m & e & -> & Hm); try lia.
  right. exists m, e. split; [done|lia].
Qed.

Lemma c_1e_9_finite : pos_finite (-29) (-29) F64.c_1e_9.
Proof. eexists _, _. split; [reflexivity|]. by vm_compute. Qed.

Lemma c_1e_6_finite : pos_finite (-19) (-19) F64.c_1e_6.
Proof. eexists _, _. split; [reflexivity|]. by vm_compute. Qed.

Lemma nonneg_below_finite hi x : nonneg_below hi x -> nonneg_finite x.
Proof. by intros [->|(m & e & -> & _)]. Qed.

End FloatFacts.

(** ** Positive quotients *)

Module FloatMoreFacts.

Local Open Scope Z_scope.

Section Round.
Variables prec emax : Z.
Hypothesis Hprec : 0 < prec.
Hypothesis Hemax : 2 <= emax.

Local Abbreviation emin := (emin prec emax).
Local Abbreviation fexp := (fexp prec emax).

(** The quotient of two positive finite numbers, away from overflow and
    underflow, is a positive finite number: its binade is at least the
    difference of the binades of the operands. *)
Lemma div_pos_finite lx hx ly hy x y :
  pos_finite lx hx x -> pos_finite ly hy y ->
  emin <= lx - hy - prec -> hx - ly + 1 < emax ->
  pos_finite (lx - hy) (hx - ly + 2) (SFdiv prec emax x y).
Proof.
  intros (mx & ex & -> & Hx) (my & ey & -> & Hy) Hmin Hov.
  unfold mag in *. cbn [SFdiv xorb]. unfold SFdiv_core_binary.
  set (e' := Z.min (fexp (Zdigits2 (Zpos mx) + ex - (Zdigits2 (Zpos my) + ey)))
                   (ex - ey)).
  set (s := ex - ey - e').
  assert (Hs : 0 <= s) by (unfold s, e'; lia).
  set (m' := match s with Z0 => Zpos mx | Zpos _ => Z.shiftl (Zpos mx) s
             | Zneg _ => 0 end).
  assert (Hm' : m' = Zpos mx * 2 ^ s).
  { unfold m'. destruct s as [|p|p] eqn:Hsp; [lia| |lia].
    by rewrite Z.shiftl_mul_pow2 by lia. }
  pose proof (Z_div_mod m' (Zpos my) ltac:(lia)) as Hdm.
  destruct (Z.div_eucl m' (Zpos my)) as [q r]. destruct Hdm as [Hqr Hr].
  pose proof (Z.pow_pos_nonneg 2 s ltac:(lia) Hs) as H2s.
  assert (Hq0 : 0 <= q) by nia.
  pose proof (FloatFacts.Zdigits2_pos (Zpos mx) ltac:(lia)) as Hdx.
  pose proof (FloatFacts.Zdigits2_pos (Zpos my) ltac:(lia)) as Hdy.
  pose proof (FloatFacts.Zdigits2_lt (Zpos mx) ltac:(lia)) as Hxlt.
  pose proof (FloatFacts.Zdigits2_ge (Zpos mx) ltac:(lia)) as Hxge.
  pose proof (FloatFacts.Zdigits2_lt (Zpos my) ltac:(lia)) as Hylt.
  pose proof (FloatFacts.Zdigits2_ge (Zpos my) ltac:(lia)) as Hyge.
  set (dx := Zdigits2 (Zpos mx)) in *. set (dy := Zdigits2 (Zpos my)) in *.
  assert (Hfe : fexp (dx + ex - (dy + ey)) = dx + ex - (dy + ey) - prec).
  { unfold SpecFloat.fexp. lia. }
  assert (Hs' : prec - dx + dy <= s) by (unfold s, e'; lia).
  assert (Hqge : 2 ^ (dx + s - dy - 1) <= q).
  { assert (Hlt : 2 ^ (dx + s - dy - 1) * 2 ^ dy <= Zpos mx * 2 ^ s).
    { rewrite <- Z.pow_add_r by lia.
      replace (dx + s - dy - 1 + dy) with ((dx - 1) + s) by lia.
      rewrite Z.pow_add_r by lia. nia. }
    pose proof (Z.pow_pos_nonneg 2 (dx + s - dy - 1) ltac:(lia) ltac:(lia)).
    nia. }
  assert (Hq : 0 < q).
  { pose proof (Z.pow_pos_nonneg 2 (dx + s - dy - 1) ltac:(lia) ltac:(lia)).
    lia. }
  assert (Hdq' : dx + s - dy <= Zdigits2 q).
  { pose proof (FloatFacts.Zdigits2_ge_pow2 q (dx + s - dy - 1) ltac:(lia) Hqge).
    lia. }
  assert (Hdq : Zdigits2 q <= dx + s - dy + 1).
  { apply FloatFacts.Zdigits2_lt_pow2; [lia|lia|].
    assert (Hlt : q * 2 ^ (dy - 1) < 2 ^ (dx + s)).
    { rewrite Z.pow_add_r by lia.
      pose proof (Z.pow_pos_nonneg 2 (dy - 1) ltac:(lia) ltac:(lia)). nia. }
    replace (dx + s) with ((dx + s - dy + 1) + (dy - 1)) in Hlt by lia.
    rewrite Z.pow_add_r in Hlt by lia.
    pose proof (Z.pow_pos_nonneg 2 (dy - 1) ltac:(lia) ltac:(lia)). nia. }
  assert (He' : e' <= emax - prec).
  { assert (fexp (dx + ex - (dy + ey)) <= emax - prec)
      by (apply (FloatFacts.fexp_le prec emax Hemax _ (hx - ly + 1)); lia).
    unfold e'. lia. }
  assert (Hse : s + e' = ex - ey) by (unfold s; lia).
  destruct (FloatFacts.binary_round_aux_normal prec emax Hprec Hemax false q e'
              (new_location (Zpos my) r) (hx - ly + 1))
    as (m & e & -> & Hm); try lia.
  exists m, e. split; [done|]. unfold mag. lia.
Qed.

End Round.

(** [n+n+n] in [int]: zero only for [n = 0]. *)
Lemma wrap_int_triple n :
  - 2 ^ 31 <= n < 2 ^ 31 ->
  Host.wrap_int (Host.wrap_int (n + n) + n) = 0 -> n = 0.
Proof.
  unfold Host.wrap_int. intros Hn H.
  Z.to_euclidean_division_equations. lia.
Qed.

(** The byte count of [bandwidth] is positive unless [n+n+n] is zero. *)
Lemma bytes_pos n3 :
  - 2 ^ 31 <= n3 < 2 ^ 31 -> n3 <> 0 ->
  0 < Host.wrap_size_t (Host.wrap_size_t n3 * Host.sizeof_float) < 2 ^ 64.
Proof.
  unfold Host.wrap_size_t, Host.sizeof_float. intros Hn Hne.
  Z.to_euclidean_division_equations. lia.
Qed.

Lemma wrap_int_range z : - 2 ^ 31 <= Host.wrap_int z < 2 ^ 31.
Proof. unfold Host.wrap_int. Z.to_euclidean_division_equations. lia. Qed.

End FloatMoreFacts.

(** ** NaN and the comparison of line 92 *)

Module ToleranceFacts.

(** A NaN on either side makes the comparison of line 92 false, and so
    does the difference of two infinities of the same sign. *)
Lemma exceeds_tolerance_nan_l x : Host.exceeds_tolerance S754_nan x = false.
Proof. by destruct x. Qed.

Lemma exceeds_tolerance_nan_r x : Host.exceeds_tolerance x S754_nan = false.
Proof. by destruct x. Qed.

Lemma exceeds_tolerance_inf s :
  Host.exceeds_tolerance (S754_infinity s) (S754_infinity s) = false.
Proof. by destruct s. Qed.

End ToleranceFacts.

(** ** Conversions that do not round *)

Module ExactFacts.

Local Open Scope Z_scope.

Section Round.
Variables prec emax : Z.

Local Abbreviation emin := (emin prec emax).
Local Abbreviation fexp := (fexp prec emax).

(** A mantissa of exactly [prec] digits is not rounded. *)
Lemma binary_round_aux_exact sx mz ez :
  Zdigits2 (Zpos mz) = prec -> emin <= ez -> ez <= emax - prec ->
  binary_round_aux prec emax sx (Zpos mz) ez loc_Exact = S754_finite sx mz ez.
Proof.
  intros Hd Hmin Hmax. unfold binary_round_aux.
  assert (Hf : fexp (Zdigits2 (Zpos mz) + ez) - ez = 0)
    by (unfold SpecFloat.fexp; lia).
  unfold shr_fexp at 1. rewrite Hf.
  cbn [shr shr_record_of_loc shr_m loc_of_shr_record round_nearest_even].
  unfold shr_fexp. rewrite Hf. cbn [shr shr_record_of_loc shr_m].
  destruct (Z.leb_spec ez (emax - prec)); [done|lia].
Qed.

Lemma shl_align_exact mx ex ex' :
  ex' <= ex ->
  exists mz, shl_align mx ex ex' = (mz, ex') /\
             Zpos mz = Zpos mx * 2 ^ (ex - ex').
Proof.
  intros Hle. unfold shl_align. destruct (ex' - ex) as [|d|d] eqn:Hd.
  - exists mx. assert (ex' = ex) as -> by lia.
    split; [done|]. rewrite Z.sub_diag. lia.
  - lia.
  - exists (shift_pos d mx). split; [done|].
    rewrite shift_pos_correct, Z.pow_pos_fold.
    replace (ex - ex') with (Zpos d) by lia. lia.
Qed.

(** The conversion of a number of at most [prec] digits, in the normal
    range: the value is kept and the mantissa gets exactly [prec]
    digits. *)
Lemma binary_round_exact sx mx ex :
  Zdigits2 (Zpos mx) <= prec -> emin <= mag mx ex - prec ->
  mag mx ex <= emax ->
  exists mz,
    binary_round prec emax sx mx ex = S754_finite sx mz (mag mx ex - prec) /\
    Zpos mz = Zpos mx * 2 ^ (prec - Zdigits2 (Zpos mx)) /\
    Zdigits2 (Zpos mz) = prec.
Proof.
  intros Hd Hmin Hmax. unfold binary_round, mag in *.
  change (Zpos (digits2_pos mx)) with (Zdigits2 (Zpos mx)).
  assert (Hf : fexp (Zdigits2 (Zpos mx) + ex) = Zdigits2 (Zpos mx) + ex - prec)
    by (unfold SpecFloat.fexp; lia).
  rewrite Hf.
  destruct (shl_align_exact mx ex (Zdigits2 (Zpos mx) + ex - prec) ltac:(lia))
    as (mz & Heq & Hmz).
  destruct (FloatFacts.shl_align_spec mx ex (Zdigits2 (Zpos mx) + ex - prec))
    as (mz' & ez' & Heq' & Hmag & _).
  rewrite Heq in Heq'. injection Heq' as <- <-. rewrite Heq.
  unfold mag in Hmag.
  change (Zpos (digits2_pos mx)) with (Zdigits2 (Zpos mx)) in Hmag.
  exists mz. split; [|split].
  - apply binary_round_aux_exact; lia.
  - rewrite Hmz. f_equal. f_equal. lia.
  - lia.
Qed.

End Round.

(** The comparison of line 92 for a finite difference [m * 2 ^ e] of two
    [float]s: it holds exactly when the difference exceeds 1000.  Both
    sides are written as multiples of [2 ^ -149], the smallest positive
    [float]. *)
Lemma ltb_1e3_of_f32 m e :
  Zpos m < 2 ^ 24 -> -149 <= e <= 104 ->
  F64.ltb F64.c_1e3 (F64.of_f32 (S754_finite false m e)) = true
  <-> 1000 * 2 ^ 149 < Zpos m * 2 ^ (e + 149).
Proof.
  intros Hm He. unfold F64.of_f32.
  pose proof (FloatFacts.Zdigits2_pos (Zpos m) ltac:(lia)) as Hd1.
  pose proof (FloatFacts.Zdigits2_lt_pow2 (Zpos m) 24 ltac:(lia) ltac:(lia) Hm)
    as Hd24.
  pose proof (FloatFacts.Zdigits2_lt (Zpos m) ltac:(lia)) as Hlt.
  pose proof (FloatFacts.Zdigits2_ge (Zpos m) ltac:(lia)) as Hge.
  destruct (binary_round_exact F64.prec F64.emax false m e)
    as (mz & -> & Hmz & Hdz).
  { unfold F64.prec. lia. }
  { unfold mag, SpecFloat.emin, F64.prec, F64.emax. lia. }
  { unfold mag, F64.emax. lia. }
  unfold mag, F64.prec in *. set (dm := Zdigits2 (Zpos m)) in *.
  unfold F64.ltb, SFltb, F64.c_1e3. cbn [SFcompare].
  assert (Hp : 0 < 2 ^ (e + 149)) by (apply Z.pow_pos_nonneg; lia).
  destruct (Z.compare_spec (-43) (dm + e - 53)) as [Heq|Hlt'|Hgt].
  - (* the same binade as 1000 *)
    rewrite Pos.compare_cont_spec. unfold Pos.switch_Eq.
    change (Pos.compare ?a ?b) with (Z.compare (Zpos a) (Zpos b)).
    assert (Hx : Zpos m * 2 ^ (e + 149) = Zpos mz * 2 ^ 106).
    { rewrite Hmz. replace (e + 149) with ((53 - dm) + 106) by lia.
      rewrite Z.pow_add_r by lia. lia. }
    rewrite Hx.
    change (1000 * 2 ^ 149) with (8796093022208000 * 2 ^ 106).
    destruct (Z.compare_spec 8796093022208000 (Zpos mz)); split; try done; lia.
  - (* a higher binade *)
    split; [intros _|done].
    assert (2 ^ 159 <= 2 ^ (dm - 1) * 2 ^ (e + 149)).
    { rewrite <- Z.pow_add_r by lia. apply Z.pow_le_mono_r; lia. }
    assert (1000 * 2 ^ 149 < 2 ^ 159) by done. nia.
  - (* a lower binade *)
    split; [done|intros H].
    assert (2 ^ dm * 2 ^ (e + 149) <= 2 ^ 158).
    { rewrite <- Z.pow_add_r by lia. apply Z.pow_le_mono_r; lia. }
    assert (2 ^ 158 < 1000 * 2 ^ 149) by done. nia.
Qed.

End ExactFacts.

(** ** The error of one rounding *)

Module RoundingFacts.

Local Open Scope Z_scope.

Section Round.
Variables prec emax : Z.
Hypothesis Hprec : 0 < prec.
Hypothesis Hemax : 2 <= emax.

Local Abbreviation emin := (emin prec emax).
Local Abbreviation fexp := (fexp prec emax).

(** Rounding a mantissa [mx] of at least [prec] digits, in the range of
    the normal numbers and away from overflow.  With the exponent of the
    result [g] above [ex], the rounded mantissa [m * 2 ^ g] and the
    numbers from [mx] to [mx + 1] lie in one interval [[A, A + W]] whose
    width is at most [A / 2 ^ (prec - 1)]. *)
Lemma binary_round_aux_value sx mx ex lx :
  0 < mx -> prec <= Zdigits2 mx -> emin <= Zdigits2 mx + ex - prec ->
  Zdigits2 mx + ex < emax ->
  exists m g A W,
    binary_round_aux prec emax sx mx ex lx = S754_finite sx m (ex + g) /\
    0 <= g /\ 0 < W /\ W * 2 ^ (prec - 1) <= A /\
    A <= mx < A + W /\ A <= Zpos m * 2 ^ g <= A + W.
Proof.
  intros Hm Hdig Hnorm Hov.
  destruct (FloatFacts.binary_round_aux_spec prec emax sx mx ex lx)
    as (m1 & Hm1 & ->); [lia|].
  set (d := Zdigits2 mx) in *.
  assert (Hn1 : Z.max 0 (fexp (d + ex) - ex) = d - prec)
    by (unfold SpecFloat.fexp; lia).
  rewrite Hn1 in *. set (n1 := d - prec) in *.
  assert (Hn1' : 0 <= n1) by (unfold n1; lia).
  pose proof (Z.pow_pos_nonneg 2 n1 ltac:(lia) Hn1') as H2n1.
  set (F := mx / 2 ^ n1) in *.
  assert (HdF : Zdigits2 F = prec).
  { unfold F. rewrite FloatFacts.Zdigits2_div_pow2 by lia. unfold n1. lia. }
  assert (HF0 : 0 < F).
  { destruct (Z.eq_dec F 0) as [HF|HF].
    - rewrite HF in HdF. simpl in HdF. lia.
    - assert (0 <= F) by (apply Z.div_pos; lia). lia. }
  pose proof (FloatFacts.Zdigits2_ge F HF0) as HFge.
  pose proof (FloatFacts.Zdigits2_lt F ltac:(lia)) as HFlt.
  rewrite HdF in HFge, HFlt.
  assert (HFmx : F * 2 ^ n1 <= mx < (F + 1) * 2 ^ n1).
  { unfold F. pose proof (Z.mul_div_le mx (2 ^ n1) H2n1).
    pose proof (Z.mul_succ_div_gt mx (2 ^ n1) H2n1). lia. }
  pose proof (Z.pow_pos_nonneg 2 (prec - 1) ltac:(lia) ltac:(lia)) as H2p.
  assert (H2prec : 2 ^ prec = 2 * 2 ^ (prec - 1)).
  { replace prec with (Z.succ (prec - 1)) at 1 by lia.
    apply Z.pow_succ_r. lia. }
  assert (Hd1lo : prec <= Zdigits2 m1).
  { pose proof (FloatFacts.Zdigits2_ge_pow2 m1 (prec - 1) ltac:(lia)
                  ltac:(lia)). lia. }
  assert (Hd1hi : Zdigits2 m1 <= prec + 1).
  { apply FloatFacts.Zdigits2_le_pow2; lia. }
  assert (Hn2 : Z.max 0 (fexp (Zdigits2 m1 + (ex + n1)) - (ex + n1))
                = Zdigits2 m1 - prec).
  { unfold SpecFloat.fexp, n1. lia. }
  rewrite Hn2.
  destruct (Z.eq_dec (Zdigits2 m1) prec) as [Heq|Hne].
  - (* no carry *)
    rewrite Heq, Z.sub_diag, Z.pow_0_r, Z.div_1_r.
    destruct m1 as [|m|m]; try lia.
    rewrite (proj2 (Z.leb_le _ _)) by (unfold n1; lia).
    exists m, n1, (F * 2 ^ n1), (2 ^ n1).
    split; [by rewrite Z.add_0_r|]. split; [done|]. split; [done|].
    split; [nia|]. split; nia.
  - (* the rounding carried into the next binade *)
    assert (Hd1 : Zdigits2 m1 = prec + 1) by lia.
    pose proof (FloatFacts.Zdigits2_ge m1 ltac:(lia)) as Hm1ge.
    rewrite Hd1 in Hm1ge. replace (prec + 1 - 1) with prec in Hm1ge by lia.
    assert (Hm1eq : m1 = 2 * 2 ^ (prec - 1)) by lia.
    rewrite Hd1. replace (prec + 1 - prec) with 1 by lia.
    rewrite Z.pow_1_r, Hm1eq, Z.mul_comm, Z.div_mul by lia.
    destruct (2 ^ (prec - 1)) as [|m|m] eqn:Hp; try lia.
    rewrite (proj2 (Z.leb_le _ _)) by (unfold n1; lia).
    exists m, (n1 + 1), (F * 2 ^ n1), (2 ^ n1).
    split; [by rewrite Z.add_assoc|]. split; [lia|]. split; [done|].
    split; [nia|]. split; [nia|].
    rewrite Z.pow_add_r, Z.pow_1_r by lia. nia.
Qed.

End Round.

End RoundingFacts.


(** ** Rounding errors as rational numbers *)

Module ValueFacts.

Local Open Scope Z_scope.

Lemma Qpower_2_pos e : (0 < Qpower 2 e)%Q.
Proof. by apply Qpower_0_lt. Qed.

Lemma Qpower_2_add a b : (Qpower 2 (a + b) == Qpower 2 a * Qpower 2 b)%Q.
Proof. by apply Qpower_plus. Qed.

Lemma inject_pow2 g : 0 <= g -> (inject_Z (2 ^ g) == Qpower 2 g)%Q.
Proof. intros Hg. by rewrite Zpower_Qpower. Qed.

Lemma Qval_pos m e : (0 < Qval m e)%Q.
Proof.
  unfold Qval. apply Qmult_lt_0_compat; [|apply Qpower_2_pos].
  by rewrite <- (Zlt_Qlt 0).
Qed.

(** The value of a mantissa shifted to a higher exponent. *)
Lemma Qval_shift m ex g :
  0 <= g ->
  (Qval m (ex + g) == inject_Z (Zpos m * 2 ^ g) * Qpower 2 ex)%Q.
Proof.
  intros Hg. unfold Qval.
  rewrite Qpower_2_add, inject_Z_mult, inject_pow2 by done. ring.
Qed.

Section Round.
Variables prec emax : Z.
Hypothesis Hprec : 0 < prec.
Hypothesis Hemax : 2 <= emax.

Local Abbreviation emin := (emin prec emax).

(** The relative error of one rounding is at most [1 / 2 ^ (prec - 1)]:
    when [x * 2 ^ ex], with [x] between [mx] and [mx + 1], is rounded. *)
Lemma binary_round_aux_error sx mx ex lx (x : Q) :
  0 < mx -> prec <= Zdigits2 mx -> emin <= Zdigits2 mx + ex - prec ->
  Zdigits2 mx + ex < emax ->
  (inject_Z mx <= x <= inject_Z (mx + 1))%Q ->
  exists m e,
    binary_round_aux prec emax sx mx ex lx = S754_finite sx m e /\
    Zdigits2 mx + ex <= mag m e <= Zdigits2 mx + ex + 1 /\
    let u := (/ inject_Z (2 ^ (prec - 1)))%Q in
    (x * Qpower 2 ex * (1 - u) <= Qval m e <= x * Qpower 2 ex * (1 + u))%Q.
Proof.
  intros Hm Hdig Hnorm Hov [Hx1 Hx2].
  destruct (RoundingFacts.binary_round_aux_value prec emax Hprec Hemax sx mx ex lx
              Hm Hdig Hnorm Hov)
    as (m & g & A & W & Heq & Hg & HW & HWA & [HA1 HA2] & [HY1 HY2]).
  exists m, (ex + g). split; [done|]. split.
  { destruct (FloatFacts.binary_round_aux_normal prec emax Hprec Hemax sx mx ex
                lx (Zdigits2 mx + ex) Hm Hnorm ltac:(lia) Hov ltac:(lia))
      as (m' & e' & Heq' & Hmag).
    rewrite Heq in Heq'. injection Heq' as <- <-. exact Hmag. }
  cbn zeta.
  rewrite Qval_shift by done.
  set (y := inject_Z (Zpos m * 2 ^ g)).
  set (p := inject_Z (2 ^ (prec - 1))).
  assert (Hp : (0 < p)%Q).
  { unfold p. rewrite <- (Zlt_Qlt 0). apply Z.pow_pos_nonneg; lia. }
  assert (Hw : (inject_Z W * p <= inject_Z A)%Q).
  { unfold p. rewrite <- inject_Z_mult, <- Zle_Qle. done. }
  assert (Ha : (inject_Z A <= x <= inject_Z A + inject_Z W)%Q).
  { split.
    - apply Qle_trans with (inject_Z mx); [|done]. by rewrite <- Zle_Qle.
    - apply Qle_trans with (inject_Z (mx + 1)); [done|].
      rewrite <- inject_Z_plus, <- Zle_Qle. lia. }
  assert (Hy : (inject_Z A <= y <= inject_Z A + inject_Z W)%Q).
  { unfold y. rewrite <- inject_Z_plus, <- !Zle_Qle. done. }
  assert (Hwx : (inject_Z W <= x * / p)%Q).
  { apply Qle_shift_div_l; [done|]. lra. }
  pose proof (Qpower_2_pos ex) as HT.
  set (v := (x * / p)%Q) in *.
  split.
  - setoid_replace (x * Qpower 2 ex * (1 - / p))%Q
      with ((x - v) * Qpower 2 ex)%Q using relation Qeq
      by (unfold v; ring).
    apply Qmult_le_compat_r; lra.
  - setoid_replace (x * Qpower 2 ex * (1 + / p))%Q
      with ((x + v) * Qpower 2 ex)%Q using relation Qeq
      by (unfold v; ring).
    apply Qmult_le_compat_r; lra.
Qed.

(** The value of a product of two numbers. *)
Lemma Qval_mul mx ex my ey :
  (Qval mx ex * Qval my ey == inject_Z (Zpos (mx * my)) * Qpower 2 (ex + ey))%Q.
Proof.
  unfold Qval. rewrite Pos2Z.inj_mul, inject_Z_mult, Qpower_2_add. ring.
Qed.

(** A product in the normal range: the binade and the relative error of the
    correctly rounded result. *)
Lemma mul_error mx ex my ey :
  prec <= Zdigits2 (Zpos (mx * my)) ->
  emin <= Zdigits2 (Zpos (mx * my)) + (ex + ey) - prec ->
  Zdigits2 (Zpos (mx * my)) + (ex + ey) < emax ->
  exists m e,
    SFmul prec emax (S754_finite false mx ex) (S754_finite false my ey)
      = S754_finite false m e /\
    Zdigits2 (Zpos (mx * my)) + (ex + ey) <= mag m e
      <= Zdigits2 (Zpos (mx * my)) + (ex + ey) + 1 /\
    let u := (/ inject_Z (2 ^ (prec - 1)))%Q in
    (Qval mx ex * Qval my ey * (1 - u) <= Qval m e
       <= Qval mx ex * Qval my ey * (1 + u))%Q.
Proof.
  intros Hdig Hnorm Hov. cbn [SFmul xorb].
  destruct (binary_round_aux_error false
              (Zpos (mx * my)) (ex + ey) loc_Exact (inject_Z (Zpos (mx * my))))
    as (m & e & Heq & Hmag & Hlo & Hhi); try done.
  { split; rewrite <- Zle_Qle; lia. }
  exists m, e. split; [done|]. split; [done|]. cbn zeta.
  rewrite Qval_mul. done.
Qed.

(** A quotient in the normal range: the relative error of the correctly
    rounded result, stated without a division. *)
Lemma div_error mx ex my ey :
  emin <= mag mx ex - mag my ey - prec ->
  mag mx ex - mag my ey + 1 < emax ->
  exists m e,
    SFdiv prec emax (S754_finite false mx ex) (S754_finite false my ey)
      = S754_finite false m e /\
    let u := (/ inject_Z (2 ^ (prec - 1)))%Q in
    (Qval mx ex * (1 - u) <= Qval m e * Qval my ey
       <= Qval mx ex * (1 + u))%Q.
Proof.
  intros Hmin Hov.
  unfold mag in *. cbn [SFdiv xorb]. unfold SFdiv_core_binary.
  set (e' := Z.min (fexp prec emax (Zdigits2 (Zpos mx) + ex - (Zdigits2 (Zpos my) + ey)))
                   (ex - ey)).
  set (s := ex - ey - e').
  assert (Hs : 0 <= s) by (unfold s, e'; lia).
  set (m' := match s with Z0 => Zpos mx | Zpos _ => Z.shiftl (Zpos mx) s
             | Zneg _ => 0 end).
  assert (Hm' : m' = Zpos mx * 2 ^ s).
  { unfold m'. destruct s as [|p|p] eqn:Hsp; [lia| |lia].
    by rewrite Z.shiftl_mul_pow2 by lia. }
  pose proof (Z_div_mod m' (Zpos my) ltac:(lia)) as Hdm.
  destruct (Z.div_eucl m' (Zpos my)) as [q r]. destruct Hdm as [Hqr Hr].
  pose proof (Z.pow_pos_nonneg 2 s ltac:(lia) Hs) as H2s.
  assert (Hq0 : 0 <= q) by nia.
  pose proof (FloatFacts.Zdigits2_pos (Zpos mx) ltac:(lia)) as Hdx.
  pose proof (FloatFacts.Zdigits2_pos (Zpos my) ltac:(lia)) as Hdy.
  pose proof (FloatFacts.Zdigits2_lt (Zpos mx) ltac:(lia)) as Hxlt.
  pose proof (FloatFacts.Zdigits2_ge (Zpos mx) ltac:(lia)) as Hxge.
  pose proof (FloatFacts.Zdigits2_lt (Zpos my) ltac:(lia)) as Hylt.
  pose proof (FloatFacts.Zdigits2_ge (Zpos my) ltac:(lia)) as Hyge.
  set (dx := Zdigits2 (Zpos mx)) in *. set (dy := Zdigits2 (Zpos my)) in *.
  assert (Hfe : fexp prec emax (dx + ex - (dy + ey)) = dx + ex - (dy + ey) - prec).
  { unfold SpecFloat.fexp, SpecFloat.emin in *. lia. }
  assert (Hs' : prec - dx + dy <= s) by (unfold s, e'; lia).
  assert (Hqge : 2 ^ (dx + s - dy - 1) <= q).
  { assert (Hlt : 2 ^ (dx + s - dy - 1) * 2 ^ dy <= Zpos mx * 2 ^ s).
    { rewrite <- Z.pow_add_r by lia.
      replace (dx + s - dy - 1 + dy) with ((dx - 1) + s) by lia.
      rewrite Z.pow_add_r by lia. nia. }
    pose proof (Z.pow_pos_nonneg 2 (dx + s - dy - 1) ltac:(lia) ltac:(lia)).
    nia. }
  assert (Hq : 0 < q).
  { pose proof (Z.pow_pos_nonneg 2 (dx + s - dy - 1) ltac:(lia) ltac:(lia)).
    lia. }
  assert (Hdq' : dx + s - dy <= Zdigits2 q).
  { pose proof (FloatFacts.Zdigits2_ge_pow2 q (dx + s - dy - 1) ltac:(lia) Hqge).
    lia. }
  assert (Hdq : Zdigits2 q <= dx + s - dy + 1).
  { apply FloatFacts.Zdigits2_lt_pow2; [lia|lia|].
    assert (Hlt : q * 2 ^ (dy - 1) < 2 ^ (dx + s)).
    { rewrite Z.pow_add_r by lia.
      pose proof (Z.pow_pos_nonneg 2 (dy - 1) ltac:(lia) ltac:(lia)). nia. }
    replace (dx + s) with ((dx + s - dy + 1) + (dy - 1)) in Hlt by lia.
    rewrite Z.pow_add_r in Hlt by lia.
    pose proof (Z.pow_pos_nonneg 2 (dy - 1) ltac:(lia) ltac:(lia)). nia. }
  assert (Hse : s + e' = ex - ey) by (unfold s; lia).
  assert (Hy0 : (0 < inject_Z (Zpos my))%Q) by by rewrite <- (Zlt_Qlt 0).
  set (x := (inject_Z m' / inject_Z (Zpos my))%Q).
  destruct (binary_round_aux_error false q e'
              (new_location (Zpos my) r) x)
    as (m & e & -> & _ & Hlo & Hhi); try lia.
  { split.
    - apply Qle_shift_div_l; [done|].
      rewrite <- inject_Z_mult, <- Zle_Qle. nia.
    - apply Qle_shift_div_r; [done|].
      rewrite <- inject_Z_mult, <- Zle_Qle. nia. }
  exists m, e. split; [done|]. cbn zeta.
  assert (Hkey : (x * Qpower 2 e' * Qval my ey == Qval mx ex)%Q).
  { unfold x, Qval. rewrite Hm', inject_Z_mult, inject_pow2 by done.
    assert (Hp : (Qpower 2 ex == Qpower 2 s * Qpower 2 e' * Qpower 2 ey)%Q).
    { rewrite <- !Qpower_2_add. by replace (s + e' + ey) with ex by lia. }
    rewrite Hp. field. lra. }
  pose proof (Qval_pos my ey) as Hvy.
  rewrite <- Hkey. split.
  - setoid_replace (x * Qpower 2 e' * Qval my ey *
                    (1 - / inject_Z (2 ^ (prec - 1))))%Q
      with (x * Qpower 2 e' * (1 - / inject_Z (2 ^ (prec - 1))) *
            Qval my ey)%Q using relation Qeq by ring.
    apply Qmult_le_compat_r; [done|lra].
  - setoid_replace (x * Qpower 2 e' * Qval my ey *
                    (1 + / inject_Z (2 ^ (prec - 1))))%Q
      with (x * Qpower 2 e' * (1 + / inject_Z (2 ^ (prec - 1))) *
            Qval my ey)%Q using relation Qeq by ring.
    apply Qmult_le_compat_r; [done|lra].
Qed.

End Round.

(** Bounds of a factor carry over to a positive multiple. *)
Lemma scale_bounds (v k c lo hi : Q) :
  (0 < v)%Q -> (k * lo <= c <= k * hi)%Q ->
  (v * k * lo <= v * c <= v * k * hi)%Q.
Proof.
  intros Hv [H1 H2]. split.
  - setoid_replace (v * k * lo)%Q with (v * (k * lo))%Q using relation Qeq by ring.
    by apply Qmult_le_l.
  - setoid_replace (v * k * hi)%Q with (v * (k * hi))%Q using relation Qeq by ring.
    by apply Qmult_le_l.
Qed.

(** Five roundings, each of relative error at most [2 ^ -52], in the
    quotient of two products: the relative error is at most [2 ^ -49]. *)
Lemma quotient_error (vb k9 c9 a vd k6 c6 b r : Q) :
  (0 < vb)%Q -> (0 < vd)%Q -> (0 < k9)%Q -> (0 < k6)%Q -> (0 < r)%Q ->
  (k9 * (1 - ulp64) <= c9 <= k9 * (1 + ulp64))%Q ->
  (vb * c9 * (1 - ulp64) <= a <= vb * c9 * (1 + ulp64))%Q ->
  (k6 * (1 - ulp64) <= c6 <= k6 * (1 + ulp64))%Q ->
  (vd * c6 * (1 - ulp64) <= b <= vd * c6 * (1 + ulp64))%Q ->
  (a * (1 - ulp64) <= r * b <= a * (1 + ulp64))%Q ->
  (Qabs (r - (vb * k9) / (vd * k6)) <= (vb * k9) / (vd * k6) * Qpower 2 (-49))%Q.
Proof.
  change ulp64 with (1 # 4503599627370496)%Q.
  change (Qpower 2 (-49)) with (1 # 562949953421312)%Q.
  intros Hvb Hvd Hk9 Hk6 Hr H9 Ha H6 Hb Hq.
  pose proof (scale_bounds vb k9 c9 _ _ Hvb H9) as [HN1 HN2].
  pose proof (scale_bounds vd k6 c6 _ _ Hvd H6) as [HD1 HD2].
  set (N := (vb * k9)%Q) in *. set (D := (vd * k6)%Q) in *.
  assert (HN : (0 < N)%Q) by (apply Qmult_lt_0_compat; done).
  assert (HD : (0 < D)%Q) by (apply Qmult_lt_0_compat; done).
  set (X := (vb * c9)%Q) in *. set (Y := (vd * c6)%Q) in *.
  assert (HbD : (D * ((1 - (1 # 4503599627370496)) * (1 - (1 # 4503599627370496))) <= b
                 <= D * ((1 + (1 # 4503599627370496)) * (1 + (1 # 4503599627370496))))%Q) by lra.
  pose proof (scale_bounds r D b _ _ Hr HbD) as [HR1 HR2].
  set (T := (r * D)%Q) in *. set (Z := (r * b)%Q) in *.
  assert (HT : (N * (1 - (1 # 562949953421312)) <= T <= N * (1 + (1 # 562949953421312)))%Q) by lra.
  set (V := (N / D)%Q).
  assert (HV : (N == V * D)%Q) by (unfold V; field; lra).
  apply Qabs_Qle_condition. split.
  - apply (Qmult_le_r _ _ D HD). fold T in HT |- *.
    setoid_replace ((r - V) * D)%Q with (T - V * D)%Q using relation Qeq
      by (unfold T; ring).
    rewrite <- HV. lra.
  - apply (Qmult_le_r _ _ D HD).
    setoid_replace ((r - V) * D)%Q with (T - V * D)%Q using relation Qeq
      by (unfold T; ring).
    setoid_replace (V * (1 # 562949953421312) * D)%Q
      with ((V * D) * (1 # 562949953421312))%Q using relation Qeq by ring.
    rewrite <- HV. lra.
Qed.

(** The conversion of a positive integer below [2 ^ 53] to [double] is
    exact. *)
Lemma of_Z_value z :
  0 < z < 2 ^ 53 ->
  exists m e,
    F64.of_Z z = S754_finite false m e /\
    Zdigits2 (Zpos m) = 53 /\ 1 <= mag m e <= 53 /\
    (Qval m e == inject_Z z)%Q.
Proof.
  intros [Hz Hlt]. destruct z as [|p|p]; try lia.
  pose proof (FloatFacts.Zdigits2_lt_pow2 (Zpos p) 53 ltac:(lia) ltac:(lia) Hlt)
    as Hd.
  pose proof (FloatFacts.Zdigits2_pos (Zpos p) ltac:(lia)) as Hd0.
  destruct (ExactFacts.binary_round_exact 53 1024 false p 0) as (mz & Heq & Hmz & Hdz);
    [done|unfold mag, SpecFloat.emin; lia|unfold mag; lia|].
  exists mz, (mag p 0 - 53). split; [exact Heq|]. split; [done|].
  unfold mag in *. rewrite Hdz. split; [lia|].
  unfold Qval. rewrite Hmz, inject_Z_mult, inject_pow2 by lia.
  rewrite <- Qmult_assoc, <- Qpower_2_add.
  replace (53 - Zdigits2 (Zpos p) + (Zdigits2 (Zpos p) + 0 - 53)) with 0 by lia.
  change (Qpower 2 0) with 1%Q. ring.
Qed.

(** The literals [1e-9] and [1e-6] as doubles. *)
Lemma c_1e_9_value :
  exists m,
    F64.c_1e_9 = S754_finite false m (-82) /\ Zdigits2 (Zpos m) = 53 /\
    (Qpower 10 (-9) * (1 - ulp64) <= Qval m (-82)
       <= Qpower 10 (-9) * (1 + ulp64))%Q.
Proof.
  eexists. split; [reflexivity|]. split; [reflexivity|].
  split; vm_compute; discriminate.
Qed.

Lemma c_1e_6_value :
  exists m,
    F64.c_1e_6 = S754_finite false m (-72) /\ Zdigits2 (Zpos m) = 53 /\
    (Qpower 10 (-6) * (1 - ulp64) <= Qval m (-72)
       <= Qpower 10 (-6) * (1 + ulp64))%Q.
Proof.
  eexists. split; [reflexivity|]. split; [reflexivity|].
  split; vm_compute; discriminate.
Qed.

(** The product of an exactly converted integer below [2 ^ 53] with a
    [double] constant. *)
Lemma scaled_value z mc ec :
  0 < z < 2 ^ 53 -> Zdigits2 (Zpos mc) = 53 -> -200 <= ec <= 0 ->
  exists m e,
    F64.mul (F64.of_Z z) (S754_finite false mc ec) = S754_finite false m e /\
    1 + (53 + ec) - 1 <= mag m e <= 53 + (53 + ec) + 1 /\
    (inject_Z z * Qval mc ec * (1 - ulp64) <= Qval m e
       <= inject_Z z * Qval mc ec * (1 + ulp64))%Q.
Proof.
  intros Hz Hdc Hec.
  destruct (of_Z_value z Hz) as (mz & ez & -> & Hdz & Hmz & Hvz).
  unfold mag in Hmz.
  pose proof (FloatFacts.Zdigits2_mul 1024 ltac:(lia) (Zpos mz) (Zpos mc)
                ltac:(lia) ltac:(lia)) as Hdm.
  rewrite <- Pos2Z.inj_mul in Hdm.
  destruct (mul_error 53 1024 ltac:(lia) ltac:(lia) mz ez mc ec)
    as (m & e & Heq & Hmag & Hval); try (unfold SpecFloat.emin; lia).
  exists m, e. split; [exact Heq|]. split; [lia|].
  cbn zeta in Hval. rewrite Hvz in Hval. exact Hval.
Qed.

End ValueFacts.

(** ** Numbers of a format, and the test of line 92 on values *)

Module ValidFacts.

Local Open Scope Z_scope.

Lemma Zdigits2_mono a b : 0 <= a <= b -> Zdigits2 a <= Zdigits2 b.
Proof.
  intros [Ha Hab]. destruct (Z.eq_dec a 0) as [->|Hne].
  - rewrite FloatFacts.Zdigits2_0. apply FloatFacts.Zdigits2_nonneg.
  - rewrite !FloatFacts.Zdigits2_log2 by lia.
    pose proof (Z.log2_le_mono a b Hab). lia.
Qed.

Section Round.
Variables prec emax : Z.
Hypothesis Hprec : 0 < prec.

Local Abbreviation valid := (valid_binary prec emax).

(** Whatever is rounded, the result is a number of the format. *)
Lemma binary_round_valid sx mx ex :
  valid (binary_round prec emax sx mx ex) = true.
Proof.
  unfold binary_round.
  change (Zpos (digits2_pos mx)) with (Zdigits2 (Zpos mx)).
  destruct (FloatFacts.shl_align_spec mx ex
              (fexp prec emax (Zdigits2 (Zpos mx) + ex)))
    as (mz & ez & -> & Hmag & Hez).
  unfold mag in Hmag.
  destruct (FloatFacts.binary_round_aux_spec prec emax sx (Zpos mz) ez
              loc_Exact ltac:(lia)) as (m1 & Hm1 & ->).
  cbn zeta in *.
  set (n1 := Z.max 0 (fexp prec emax (Zdigits2 (Zpos mz) + ez) - ez)) in *.
  set (n2 := Z.max 0 (fexp prec emax (Zdigits2 m1 + (ez + n1)) - (ez + n1))).
  assert (H0 : 0 <= Zpos mz / 2 ^ n1) by (apply Z.div_pos; lia).
  pose proof (Zdigits2_mono _ _ (conj H0 (proj1 Hm1))) as Hd1.
  rewrite FloatFacts.Zdigits2_div_pow2 in Hd1 by lia.
  destruct (m1 / 2 ^ n2) as [|m|m] eqn:Hq; [done| |done].
  destruct (Z.leb_spec (ez + n1 + n2) (emax - prec)) as [Hle|Hgt]; [|done].
  cbn [valid_binary]. unfold bounded, canonical_mantissa.
  change (Zpos (digits2_pos m)) with (Zdigits2 (Zpos m)).
  rewrite <- Hq, FloatFacts.Zdigits2_div_pow2 by lia.
  pose proof (FloatFacts.Zdigits2_pos (Zpos m) ltac:(lia)) as Hdm.
  rewrite <- Hq, FloatFacts.Zdigits2_div_pow2 in Hdm by lia.
  apply andb_true_intro. split; [|by apply Z.leb_le].
  apply Z.eqb_eq. unfold n1, n2, SpecFloat.fexp, SpecFloat.emin in *. lia.
Qed.

Lemma binary_normalize_valid m e sz :
  valid (binary_normalize prec emax m e sz) = true.
Proof. destruct m; [done|apply binary_round_valid..]. Qed.

(** The difference of two numbers of the format is one. *)
Lemma SFsub_valid x y :
  valid x = true -> valid y = true -> valid (SFsub prec emax x y) = true.
Proof.
  intros Hx Hy.
  destruct x as [sx|sx| |sx mx ex], y as [sy|sy| |sy my ey];
    try done; try (by destruct sx, sy).
  cbn [SFsub]. apply binary_normalize_valid.
Qed.

(** The mantissa and the exponent of a number of the format. *)
Lemma valid_bounds s m e :
  valid (S754_finite s m e) = true ->
  Zpos m < 2 ^ prec /\ SpecFloat.emin prec emax <= e <= emax - prec.
Proof.
  cbn [valid_binary]. unfold bounded, canonical_mantissa.
  change (Zpos (digits2_pos m)) with (Zdigits2 (Zpos m)).
  intros [Hc He%Z.leb_le]%andb_prop. apply Z.eqb_eq in Hc.
  pose proof (FloatFacts.Zdigits2_lt (Zpos m) ltac:(lia)) as Hlt.
  pose proof (FloatFacts.Zdigits2_pos (Zpos m) ltac:(lia)) as Hd.
  assert (Hdp : Zdigits2 (Zpos m) <= prec)
    by (unfold SpecFloat.fexp in Hc; lia).
  pose proof (Z.pow_le_mono_r 2 _ _ ltac:(lia) Hdp).
  unfold SpecFloat.fexp in Hc. lia.
Qed.

End Round.

(** The absolute value of a finite number. *)
Lemma Qabs_value (s : bool) m e :
  (Qabs (inject_Z (if s then Zneg m else Zpos m) * Qpower 2 e) == Qval m e)%Q.
Proof.
  rewrite Qabs_Qmult. unfold Qval.
  rewrite (Qabs_pos (Qpower 2 e))
    by (apply Qlt_le_weak, ValueFacts.Qpower_2_pos).
  by destruct s.
Qed.

(** The test of line 92 on [float]s: it is made on the rounded difference
    [d] of the two values, and holds when [d] is infinite or a number whose
    absolute value is more than 1000. *)
Lemma exceeds_tolerance_value e s :
  valid_binary F32.prec F32.emax e = true ->
  valid_binary F32.prec F32.emax s = true ->
  Host.exceeds_tolerance e s = true <->
  ((exists sg, F32.sub e s = S754_infinity sg) \/
   exists q, SF2Q (F32.sub e s) = Some q /\ (1000 < Qabs q)%Q).
Proof.
  intros He Hs.
  pose proof (SFsub_valid F32.prec F32.emax ltac:(done) e s He Hs) as Hd.
  unfold Host.exceeds_tolerance. fold (F32.sub e s) in Hd.
  destruct (F32.sub e s) as [sg|sg| |sg m ex] eqn:Hsub.
  - split; [done|]. intros [[? [=]]|(q & [= <-] & Hq)]. by vm_compute in Hq.
  - split; [intros _; left; by eexists|done].
  - split; [done|]. by intros [[? [=]]|(q & [=] & _)].
  - apply valid_bounds in Hd as [Hm Hex]; [|done].
    unfold SpecFloat.emin, F32.prec, F32.emax in Hm, Hex.
    cbn [F32.abs SFabs].
    rewrite (ExactFacts.ltb_1e3_of_f32 m ex Hm ltac:(lia)).
    assert (Hval : (Qval m ex
                    == inject_Z (Zpos m * 2 ^ (ex + 149)) * Qpower 2 (-149))%Q).
    { rewrite <- ValueFacts.Qval_shift by lia.
      by replace (-149 + (ex + 149)) with ex by lia. }
    assert (H1000 : (1000 == inject_Z (1000 * 2 ^ 149) * Qpower 2 (-149))%Q)
      by (unfold Qeq; vm_compute; reflexivity).
    assert (Hiff : 1000 * 2 ^ 149 < Zpos m * 2 ^ (ex + 149)
                   <-> (1000 < Qval m ex)%Q).
    { rewrite Hval, H1000.
      rewrite (Qmult_lt_r _ _ _ (ValueFacts.Qpower_2_pos (-149))).
      by rewrite <- Zlt_Qlt. }
    rewrite Hiff. split.
    + intros Hlt. right. eexists. split; [reflexivity|].
      by rewrite Qabs_value.
    + intros [[? [=]]|(q & [= <-] & Hq)]. by rewrite Qabs_value in Hq.
Qed.

End ValidFacts.

(** * Properties of the host program *)

Module HostFacts.
Import Host.

Local Open Scope Z_scope.

Lemma bind_Ok {A B} (c : M A) (k : A -> M B) w b w' :
  (c ≫= k) w = (Ok b, w') ->
  exists a w1, c w = (Ok a, w1) /\ k a w1 = (Ok b, w').
Proof.
  unfold mbind, M_bind, bind. destruct (c w) as [[a|e0|] w1]; try done.
  intros H. by exists a, w1.
Qed.

Lemma bind_Throw {A B} (c : M A) (k : A -> M B) w e w' :
  (c ≫= k) w = (Throw e, w') ->
  c w = (Throw e, w') \/
  exists a w1, c w = (Ok a, w1) /\ k a w1 = (Throw e, w').
Proof.
  unfold mbind, M_bind, bind. destruct (c w) as [[a|e0|] w1]; try done.
  - intros H. right. by exists a, w1.
  - intros [= -> ->]. by left.
Qed.

Lemma bind_run {A B} (c : M A) (k : A -> M B) w a w1 :
  c w = (Ok a, w1) -> (c ≫= k) w = k a w1.
Proof. unfold mbind, M_bind, bind. by intros ->. Qed.

Lemma cl_ok E c w :
  cl_status E c = 0 ->
  cl E c w = (Ok tt, World (reads w) (drawn w) (trace w ++ [Call c])).
Proof.
  intros H. unfold cl, mbind, M_bind, bind, emit. cbn. by rewrite H.
Qed.

Lemma cl_fail E c w :
  cl_status E c <> 0 ->
  cl E c w = (Throw (ClError c (cl_status E c)),
              World (reads w) (drawn w) (trace w ++ [Call c])).
Proof.
  intros H. unfold cl, mbind, M_bind, bind, emit. cbn.
  by rewrite (proj2 (Z.eqb_neq _ _) H).
Qed.

Lemma cl_inv E c w r w' :
  cl E c w = (r, w') ->
  w' = World (reads w) (drawn w) (trace w ++ [Call c]) /\
  (r = Ok tt /\ cl_status E c = 0 \/
   r = Throw (ClError c (cl_status E c)) /\ cl_status E c <> 0).
Proof.
  destruct (Z.eq_dec (cl_status E c) 0) as [H|H].
  - rewrite cl_ok by done. intros [= <- <-]. split; [done|by left].
  - rewrite cl_fail by done. intros [= <- <-]. split; [done|by right].
Qed.

Lemma cl_Ok_inv E c w u w' :
  cl E c w = (Ok u, w') ->
  cl_status E c = 0 /\
  w' = World (reads w) (drawn w) (trace w ++ [Call c]).
Proof.
  intros H. apply cl_inv in H as [-> [[_ H]|[H _]]]; [done|discriminate].
Qed.

Lemma now_run E w :
  now E w = (Ok (clock E (reads w)), World (S (reads w)) (drawn w) (trace w)).
Proof. done. Qed.

Lemma random_vector_run E n w :
  0 <= n ->
  random_vector E n w
  = (Ok (map (random E) (seq (drawn w) (Z.to_nat n))),
     World (reads w) (drawn w + Z.to_nat n) (trace w)).
Proof.
  intros H. unfold random_vector. by rewrite (proj2 (Z.ltb_ge _ _) H).
Qed.

Lemma random_vector_inv E n w a w' :
  random_vector E n w = (Ok a, w') ->
  0 <= n /\ a = map (random E) (seq (drawn w) (Z.to_nat n)) /\
  w' = World (reads w) (drawn w + Z.to_nat n) (trace w).
Proof.
  unfold random_vector. destruct (n <? 0) eqn:Hn; [done|].
  apply Z.ltb_ge in Hn. by intros [= <- <-].
Qed.

Lemma enqueue_run E n a res w :
  cl_status E (EnqueueNDRange n 128) = 0 -> n mod 128 = 0 ->
  kernel_run E n a = Some res ->
  enqueueNDRangeKernel E n 128 a (Z.to_nat (Z.quot n 128)) w
  = (Ok res, World (reads w) (drawn w)
                   (trace w ++ [Call (EnqueueNDRange n 128)])).
Proof.
  intros Hs Hn Hk. unfold enqueueNDRangeKernel.
  rewrite (bind_run _ _ _ _ _ (cl_ok E _ w Hs)).
  rewrite (proj2 (Z.eqb_eq _ _) Hn). cbn [negb].
  unfold kernel_run in Hk. by rewrite Hk.
Qed.

Lemma enqueue_inv E n a res w w' :
  enqueueNDRangeKernel E n 128 a (Z.to_nat (Z.quot n 128)) w = (Ok res, w') ->
  cl_status E (EnqueueNDRange n 128) = 0 /\ n mod 128 = 0 /\
  kernel_run E n a = Some res /\
  w' = World (reads w) (drawn w) (trace w ++ [Call (EnqueueNDRange n 128)]).
Proof.
  unfold enqueueNDRangeKernel. intros H.
  apply bind_Ok in H as (u & w1 & Hc & H).
  apply cl_Ok_inv in Hc as [Hs ->].
  destruct (n mod 128 =? 0) eqn:Hn; [|done]. apply Z.eqb_eq in Hn.
  cbn [negb] in H. unfold kernel_run.
  destruct (Kernel.reduce _ _ _ _ _ _ _ _) as [r|]; [|done].
  by injection H as <- <-.
Qed.

(** What a completed measurement (lines 71-91) has done. *)
Lemma measure_inv E n w m w1 :
  profile_reduce_measure E n w = (Ok m, w1) ->
  let a := map (random E) (seq (drawn w) (Z.to_nat n)) in
  0 <= n /\ n mod 128 = 0 /\
  (forall c, c ∈ calls_to_dispatch n ++ calls_after_dispatch ->
             cl_status E c = 0) /\
  m_t m = readings E w /\
  m_expected m = reduce_host a /\
  (exists res, kernel_run E n a = Some res /\ res !! 0%nat = Some (m_sum m)) /\
  w1 = measured n w.
Proof.
  intros H. unfold profile_reduce_measure in H.
  apply bind_Ok in H as (a & wa & Ha & H).
  apply random_vector_inv in Ha as (Hn & -> & ->). cbn [reads drawn trace] in H.
  apply bind_Ok in H as (? & ? & Hc1 & H). apply cl_Ok_inv in Hc1 as [Hs1 ->]. cbn [reads drawn trace] in H.
  apply bind_Ok in H as (? & ? & Hc2 & H). apply cl_Ok_inv in Hc2 as [Hs2 ->]. cbn [reads drawn trace] in H.
  apply bind_Ok in H as (t0 & ? & Ht0 & H). rewrite now_run in Ht0.
  injection Ht0 as <- <-. cbn [reads drawn trace] in H.
  apply bind_Ok in H as (t1 & ? & Ht1 & H). rewrite now_run in Ht1.
  injection Ht1 as <- <-. cbn [reads drawn trace] in H.
  apply bind_Ok in H as (? & ? & Hc3 & H). apply cl_Ok_inv in Hc3 as [Hs3 ->]. cbn [reads drawn trace] in H.
  apply bind_Ok in H as (? & ? & Hc4 & H). apply cl_Ok_inv in Hc4 as [Hs4 ->]. cbn [reads drawn trace] in H.
  apply bind_Ok in H as (? & ? & Hc5 & H). apply cl_Ok_inv in Hc5 as [Hs5 ->]. cbn [reads drawn trace] in H.
  apply bind_Ok in H as (? & ? & Hc6 & H). apply cl_Ok_inv in Hc6 as [Hs6 ->]. cbn [reads drawn trace] in H.
  apply bind_Ok in H as (? & ? & Hc7 & H). apply cl_Ok_inv in Hc7 as [Hs7 ->]. cbn [reads drawn trace] in H.
  apply bind_Ok in H as (t2 & ? & Ht2 & H). rewrite now_run in Ht2.
  injection Ht2 as <- <-. cbn [reads drawn trace] in H.
  apply bind_Ok in H as (res & ? & Hk & H).
  apply enqueue_inv in Hk as (Hs8 & Hmod & Hk & ->). cbn [reads drawn trace] in H.
  apply bind_Ok in H as (? & ? & Hc9 & H). apply cl_Ok_inv in Hc9 as [Hs9 ->]. cbn [reads drawn trace] in H.
  apply bind_Ok in H as (t3 & ? & Ht3 & H). rewrite now_run in Ht3.
  injection Ht3 as <- <-. cbn [reads drawn trace] in H.
  apply bind_Ok in H as (? & ? & Hc10 & H). apply cl_Ok_inv in Hc10 as [Hs10 ->]. cbn [reads drawn trace] in H.
  apply bind_Ok in H as (t4 & ? & Ht4 & H). rewrite now_run in Ht4.
  injection Ht4 as <- <-. cbn [reads drawn trace] in H.
  cbn [reads drawn trace] in *.
  destruct (res !! 0%nat) as [sum|] eqn:Hsum; [|done].
  injection H as <- <-. cbn [m_t m_expected m_sum].
  split; [done|]. split; [done|]. split.
  { intros c Hc. unfold calls_to_dispatch, calls_after_dispatch in Hc.
    cbn [app] in Hc. repeat (apply elem_of_cons in Hc as [->|Hc]; [done|]).
    by apply elem_of_nil in Hc. }
  split.
  { unfold readings. cbn [map seq].
    by rewrite !Nat.add_0_r, ?Nat.add_1_r, ?Nat.add_succ_r, ?Nat.add_0_r. }
  split; [done|]. split; [by exists res|].
  unfold measured. f_equal; [lia|].
  unfold calls_to_dispatch, calls_after_dispatch. cbn [map app].
  by rewrite <- !app_assoc.
Qed.

(** Lines 71-91 when nothing goes wrong. *)
Lemma measure_run E n w res sum :
  0 <= n -> n mod 128 = 0 ->
  (forall c, c ∈ calls_to_dispatch n ++ calls_after_dispatch ->
             cl_status E c = 0) ->
  let a := map (random E) (seq (drawn w) (Z.to_nat n)) in
  kernel_run E n a = Some res -> res !! 0%nat = Some sum ->
  profile_reduce_measure E n w
  = (Ok (Measurement (readings E w) (reduce_host a) sum), measured n w).
Proof.
  intros Hn Hmod Hcl a Hk Hsum. unfold profile_reduce_measure.
  assert (Hc : forall i c, (calls_to_dispatch n ++ calls_after_dispatch) !! i
                           = Some c -> cl_status E c = 0).
  { intros i c Hi. apply Hcl. by eapply list_elem_of_lookup_2. }
  rewrite (bind_run _ _ _ _ _ (random_vector_run E n w Hn)). cbn [reads drawn trace].
  rewrite (bind_run _ _ _ _ _ (cl_ok E _ _ (Hc 0%nat _ eq_refl))). cbn [reads drawn trace].
  rewrite (bind_run _ _ _ _ _ (cl_ok E _ _ (Hc 1%nat _ eq_refl))). cbn [reads drawn trace].
  rewrite (bind_run _ _ _ _ _ (now_run E _)). cbn [reads drawn trace].
  rewrite (bind_run _ _ _ _ _ (now_run E _)). cbn [reads drawn trace].
  rewrite (bind_run _ _ _ _ _ (cl_ok E _ _ (Hc 2%nat _ eq_refl))). cbn [reads drawn trace].
  rewrite (bind_run _ _ _ _ _ (cl_ok E _ _ (Hc 3%nat _ eq_refl))). cbn [reads drawn trace].
  rewrite (bind_run _ _ _ _ _ (cl_ok E _ _ (Hc 4%nat _ eq_refl))). cbn [reads drawn trace].
  rewrite (bind_run _ _ _ _ _ (cl_ok E _ _ (Hc 5%nat _ eq_refl))). cbn [reads drawn trace].
  rewrite (bind_run _ _ _ _ _ (cl_ok E _ _ (Hc 6%nat _ eq_refl))). cbn [reads drawn trace].
  rewrite (bind_run _ _ _ _ _ (now_run E _)). cbn [reads drawn trace].
  rewrite (bind_run _ _ _ _ _
             (enqueue_run E n _ res _ (Hc 7%nat _ eq_refl) Hmod Hk)). cbn [reads drawn trace].
  rewrite (bind_run _ _ _ _ _ (cl_ok E _ _ (Hc 8%nat _ eq_refl))). cbn [reads drawn trace].
  rewrite (bind_run _ _ _ _ _ (now_run E _)). cbn [reads drawn trace].
  rewrite (bind_run _ _ _ _ _ (cl_ok E _ _ (Hc 9%nat _ eq_refl))). cbn [reads drawn trace].
  rewrite (bind_run _ _ _ _ _ (now_run E _)). cbn [reads drawn trace].
  rewrite Hsum. cbn [reads drawn trace]. unfold ret. f_equal.
  - unfold readings. cbn [map seq].
    by rewrite !Nat.add_0_r, ?Nat.add_1_r, ?Nat.add_succ_r, ?Nat.add_0_r.
  - unfold measured. f_equal; [lia|].
    unfold calls_to_dispatch, calls_after_dispatch. cbn [map app].
    by rewrite <- !app_assoc.
Qed.

Lemma readings_length E w : length (readings E w) = 5%nat.
Proof. done. Qed.

Lemma report_run name (t0 t1 t2 t3 t4 b : Z) w :
  report name [t0; t1; t2; t3; t4] b w
  = (Ok tt, World (reads w) (drawn w)
              (trace w ++ [Row name
                             (map to_us [t1 - t0; t4 - t1; t2 - t1; t3 - t2; t4 - t3])
                             [bandwidth b t0 t1; bandwidth b t2 t3]])).
Proof. done. Qed.

Lemma report_reduce_run E n w w0 :
  report "reduce" (readings E w0) (bandwidth_arg n) w
  = (Ok tt, World (reads w) (drawn w)
              (trace w ++ [reduce_row n (readings E w0)])).
Proof. done. Qed.

(** A completed [profile_reduce]: the measurement succeeded, the
    validation passed, and the row was printed last. *)
Lemma profile_reduce_Ok_inv E n w w2 :
  profile_reduce E n w = (Ok tt, w2) ->
  exists m,
    profile_reduce_measure E n w = (Ok m, measured n w) /\
    m_t m = readings E w /\
    exceeds_tolerance (m_expected m) (m_sum m) = false /\
    w2 = World (reads w + 5) (drawn w + Z.to_nat n)
               (trace (measured n w) ++ [reduce_row n (readings E w)]).
Proof.
  intros H. unfold profile_reduce in H.
  apply bind_Ok in H as (m & w1 & Hm & H).
  pose proof (measure_inv E n w m w1 Hm) as (_ & _ & _ & Ht & _ & _ & ->).
  exists m. split; [done|]. split; [done|].
  destruct (exceeds_tolerance _ _); [done|]. split; [done|].
  rewrite Ht in H. fold (bandwidth_arg n) in H.
  rewrite report_reduce_run in H. by injection H as <-.
Qed.

Lemma profile_reduce_pass E n w m w1 :
  profile_reduce_measure E n w = (Ok m, w1) ->
  exceeds_tolerance (m_expected m) (m_sum m) = false ->
  profile_reduce E n w
  = (Ok tt, World (reads w1) (drawn w1)
              (trace w1 ++ [reduce_row n (readings E w)])).
Proof.
  intros Hm Hex. unfold profile_reduce.
  rewrite (bind_run _ _ _ _ _ Hm), Hex.
  pose proof (measure_inv E n w m w1 Hm) as (_ & _ & _ & Ht & _ & _ & _).
  rewrite Ht. fold (bandwidth_arg n). by rewrite report_reduce_run.
Qed.

Lemma profile_reduce_fail E n w m w1 :
  profile_reduce_measure E n w = (Ok m, w1) ->
  exceeds_tolerance (m_expected m) (m_sum m) = true ->
  profile_reduce E n w
  = (Throw (RuntimeError (invalid_value (m_sum m) (m_expected m))), w1).
Proof.
  intros Hm Hex. unfold profile_reduce.
  by rewrite (bind_run _ _ _ _ _ Hm), Hex.
Qed.

Lemma cl_Throw_inv E c w e w' :
  cl E c w = (Throw e, w') -> exists c' err, e = ClError c' err.
Proof.
  intros H. apply cl_inv in H as [_ [[? _]|[[= ->] _]]]; [done|eauto].
Qed.

(** The measurement throws nothing but [cl::Error]. *)
Lemma measure_Throw_inv E n w e w' :
  profile_reduce_measure E n w = (Throw e, w') ->
  exists c err, e = ClError c err.
Proof.
  unfold profile_reduce_measure. intros H.
  apply bind_Throw in H as [H|(a & ? & _ & H)].
  { unfold random_vector in H. by destruct (n <? 0). }
  repeat match type of H with
  | (cl _ _ ≫= _) _ = _ =>
      apply bind_Throw in H as [H|(? & ? & _ & H)];
      [by eapply cl_Throw_inv|]
  | (now _ ≫= _) _ = _ =>
      apply bind_Throw in H as [H|(? & ? & _ & H)]; [done|]
  end.
  apply bind_Throw in H as [H|(res & ? & _ & H)].
  { unfold enqueueNDRangeKernel in H.
    apply bind_Throw in H as [H|(? & ? & _ & H)]; [by eapply cl_Throw_inv|].
    destruct (negb _); [done|]. by destruct (Kernel.reduce _ _ _ _ _ _ _ _). }
  repeat match type of H with
  | (cl _ _ ≫= _) _ = _ =>
      apply bind_Throw in H as [H|(? & ? & _ & H)];
      [by eapply cl_Throw_inv|]
  | (now _ ≫= _) _ = _ =>
      apply bind_Throw in H as [H|(? & ? & _ & H)]; [done|]
  end.
  by destruct (res !! 0%nat).
Qed.

(** *** The trace only grows *)

Lemma grows_ret {A} (a : A) : grows (ret a).
Proof. intros w. exists []. by rewrite app_nil_r. Qed.

Lemma grows_throw {A} e : grows (@throw A e).
Proof. intros w. exists []. by rewrite app_nil_r. Qed.

Lemma grows_undefined {A} : grows (@undefined A).
Proof. intros w. exists []. by rewrite app_nil_r. Qed.

Lemma grows_emit e : grows (emit e).
Proof. intros w. by exists [e]. Qed.

Lemma grows_now E : grows (now E).
Proof. intros w. exists []. by rewrite app_nil_r. Qed.

Lemma grows_cl E c : grows (cl E c).
Proof.
  intros w. destruct (cl E c w) as [r w'] eqn:H.
  apply cl_inv in H as [-> _]. by exists [Call c].
Qed.

Lemma bind_trace {A B} (c : M A) (k : A -> M B) w pre :
  (exists rest, trace (c w).2 = pre ++ rest) ->
  (forall a, grows (k a)) ->
  exists rest, trace ((c ≫= k) w).2 = pre ++ rest.
Proof.
  intros [rest Hc] Hk. unfold mbind, M_bind, bind.
  destruct (c w) as [[a|e|] w1]; cbn [snd] in *.
  - destruct (Hk a w1) as [r2 Hr2]. exists (rest ++ r2).
    by rewrite Hr2, Hc, app_assoc.
  - by exists rest.
  - by exists rest.
Qed.

Lemma grows_bind {A B} (c : M A) (k : A -> M B) :
  grows c -> (forall a, grows (k a)) -> grows (c ≫= k).
Proof. intros Hc Hk w. by apply bind_trace. Qed.

Lemma grows_report name t b : grows (report name t b).
Proof.
  destruct t as [|t0 [|t1 [|t2 [|t3 [|t4 [|]]]]]];
    try apply grows_undefined. apply grows_emit.
Qed.

(** [profile_reduce] checks nothing before the dispatch: when the calls
    before it succeed, the dispatch is requested. *)
Lemma measure_reaches_dispatch E n w :
  0 <= n ->
  (forall c, c ∈ take 7 (calls_to_dispatch n) -> cl_status E c = 0) ->
  exists rest,
    trace (profile_reduce_measure E n w).2
    = (trace w ++ map Call (calls_to_dispatch n)) ++ rest.
Proof.
  intros Hn Hcl. unfold profile_reduce_measure.
  assert (Hc : forall i c, take 7 (calls_to_dispatch n) !! i = Some c ->
                           cl_status E c = 0).
  { intros i c Hi. apply Hcl. by eapply list_elem_of_lookup_2. }
  rewrite (bind_run _ _ _ _ _ (random_vector_run E n w Hn)).
  cbn [reads drawn trace].
  rewrite (bind_run _ _ _ _ _ (cl_ok E _ _ (Hc 0%nat _ eq_refl))).
  cbn [reads drawn trace].
  rewrite (bind_run _ _ _ _ _ (cl_ok E _ _ (Hc 1%nat _ eq_refl))).
  cbn [reads drawn trace].
  rewrite (bind_run _ _ _ _ _ (now_run E _)). cbn [reads drawn trace].
  rewrite (bind_run _ _ _ _ _ (now_run E _)). cbn [reads drawn trace].
  rewrite (bind_run _ _ _ _ _ (cl_ok E _ _ (Hc 2%nat _ eq_refl))).
  cbn [reads drawn trace].
  rewrite (bind_run _ _ _ _ _ (cl_ok E _ _ (Hc 3%nat _ eq_refl))).
  cbn [reads drawn trace].
  rewrite (bind_run _ _ _ _ _ (cl_ok E _ _ (Hc 4%nat _ eq_refl))).
  cbn [reads drawn trace].
  rewrite (bind_run _ _ _ _ _ (cl_ok E _ _ (Hc 5%nat _ eq_refl))).
  cbn [reads drawn trace].
  rewrite (bind_run _ _ _ _ _ (cl_ok E _ _ (Hc 6%nat _ eq_refl))).
  cbn [reads drawn trace].
  rewrite (bind_run _ _ _ _ _ (now_run E _)). cbn [reads drawn trace].
  apply bind_trace.
  - unfold enqueueNDRangeKernel. apply bind_trace.
    + match goal with |- context [cl E ?c ?w0] =>
        destruct (cl E c w0) as [r w'] eqn:H end.
      apply cl_inv in H as [-> _]. exists []. cbn [snd trace].
      unfold calls_to_dispatch. cbn [map app].
      by rewrite <- !app_assoc.
    + intros _. destruct (negb _); [apply grows_undefined|].
      destruct (Kernel.reduce _ _ _ _ _ _ _ _);
        [apply grows_ret|apply grows_undefined].
  - intros res.
    repeat first
      [ apply grows_bind; [first [apply grows_cl|apply grows_now]|intros ?] ].
    destruct (res !! 0%nat); [apply grows_ret|apply grows_undefined].
Qed.

(** *** [main] *)

Lemma emit_run e w :
  emit e w = (Ok tt, World (reads w) (drawn w) (trace w ++ [e])).
Proof. done. Qed.

Lemma for_each_emit es : forall w,
  for_each emit es w = (Ok tt, World (reads w) (drawn w) (trace w ++ es)).
Proof.
  induction es as [|e es IH]; intros w; cbn [for_each].
  - unfold ret. destruct w. cbn. by rewrite app_nil_r.
  - rewrite (bind_run _ _ _ _ _ (emit_run e w)), IH. cbn [reads drawn trace].
    by rewrite <- app_assoc.
Qed.

Lemma try_catch_Ok {A} (c : M A) h w a w' :
  c w = (Ok a, w') -> try_catch c h w = (Ok a, w').
Proof. unfold try_catch. by intros ->. Qed.

Lemma try_catch_Throw {A} (c : M A) h w e w' :
  c w = (Throw e, w') -> try_catch c h w = h e w'.
Proof. unfold try_catch. by intros ->. Qed.

(** [main] in terms of its [try] block. *)
Lemma main_of_body E w :
  main E w
  = match main_body E w with
    | (Ok c, w') => (Ok c, w')
    | (Throw e, w') =>
        (Ok 1, World (reads w') (drawn w') (trace w' ++ diagnostic e))
    | (Undefined, w') => (Undefined, w')
    end.
Proof.
  unfold main, try_catch. destruct (main_body E w) as [[c|e|] w']; try done.
  by rewrite (bind_run _ _ _ _ _ (for_each_emit (diagnostic e) w')).
Qed.

Lemma build_logs_run E xs : forall w,
  (forall i, cl_status E (BuildLog i) = 0) ->
  for_each (fun i => cl E (BuildLog i) ;; emit (Cerr [Text (build_log E i)]))
           xs w
  = (Ok tt, World (reads w) (drawn w)
              (trace w ++ flat_map (fun i => [Call (BuildLog i);
                                              Cerr [Text (build_log E i)]]) xs)).
Proof.
  intros w Hs. revert w. induction xs as [|i xs IH]; intros w; cbn [for_each].
  - unfold ret. destruct w. cbn. by rewrite app_nil_r.
  - rewrite (bind_run _ _ _ _ _
               (bind_run _ _ _ _ _ (cl_ok E (BuildLog i) w (Hs i)))).
    unfold emit at 1. cbn [reads drawn trace]. rewrite IH.
    cbn [reads drawn trace flat_map]. by rewrite <- !app_assoc.
Qed.

Lemma profile_scan_inclusive_run E n w :
  0 <= n ->
  profile_scan_inclusive E n w
  = (Ok tt, World (reads w + 5) (drawn w + Z.to_nat n)
              (trace w ++ [scan_row n (readings E w)])).
Proof.
  intros Hn. unfold profile_scan_inclusive.
  rewrite (bind_run _ _ _ _ _ (random_vector_run E n w Hn)).
  cbn [reads drawn trace].
  do 5 (rewrite (bind_run _ _ _ _ _ (now_run E _)); cbn [reads drawn trace]).
  rewrite report_run. cbn [reads drawn trace]. f_equal. f_equal; [lia|].
  unfold readings, scan_row. cbn [map seq].
  by rewrite !Nat.add_0_r, ?Nat.add_1_r, ?Nat.add_succ_r, ?Nat.add_0_r.
Qed.

(** The kernel launch of [profile_reduce n] is defined and fills slot 0
    whenever 128 divides [n > 0], whatever the device schedule. *)
Lemma kernel_run_total E n (a : list spec_float) :
  0 < n -> n mod 128 = 0 -> length a = Z.to_nat n ->
  exists res sum, kernel_run E n a = Some res /\ res !! 0%nat = Some sum.
Proof.
  intros Hn Hmod Ha. unfold kernel_run.
  assert (Hq : Z.quot n 128 = n / 128) by (apply Z.quot_div_nonneg; lia).
  assert (Hl : (0 < Z.to_nat (n / 128))%nat).
  { Z.to_euclidean_division_equations. lia. }
  assert (H128 : Z.to_nat 128 = 128%nat) by reflexivity.
  rewrite H128.
  assert (Hlen : length a = (Z.to_nat (n / 128) * 128)%nat).
  { rewrite Ha. Z.to_euclidean_division_equations. lia. }
  destruct (KernelFacts.reduce_frame F32.zero F32.add (Z.to_nat (n / 128))
              128%nat a (map (dev_local E) (seq 0 Kernel.BUFFSIZE))
              (fun k => Kernel.tree_sum F32.zero F32.add 7
                          (Kernel.slice 128 k a)))
    with (sched := sched E)
         (res0 := map (dev_result E) (seq 0 (Z.to_nat (Z.quot n 128))))
    as (res & Hres & Hlres & _).
  { lia. }
  { intros k Hk.
    apply (KernelFacts.group_sum_tree F32.zero F32.add 7 k a).
    - rewrite length_map, length_seq. unfold Kernel.BUFFSIZE. simpl. lia.
    - rewrite Hlen. change (2 ^ 7)%nat with 128%nat. nia. }
  { by rewrite length_map, length_seq, Hq. }
  rewrite Hres.
  exists res. destruct (lookup_lt_is_Some_2 res 0%nat) as [sum Hsum]; [lia|].
  by exists sum.
Qed.

Lemma profile_reduce_run E n w :
  0 < n -> n mod 128 = 0 -> runtime_ok E ->
  let a := map (random E) (seq (drawn w) (Z.to_nat n)) in
  (forall res sum, kernel_run E n a = Some res -> res !! 0%nat = Some sum ->
                   exceeds_tolerance (reduce_host a) sum = false) ->
  profile_reduce E n w
  = (Ok tt, World (reads w + 5) (drawn w + Z.to_nat n)
              (trace (measured n w) ++ [reduce_row n (readings E w)])).
Proof.
  intros Hn Hmod Hok a Hval.
  destruct (kernel_run_total E n a Hn Hmod) as (res & sum & Hk & Hsum).
  { unfold a. by rewrite length_map, length_seq. }
  pose proof (measure_run E n w res sum ltac:(lia) Hmod
                (fun c _ => Hok c) Hk Hsum) as Hm.
  rewrite (profile_reduce_pass E n w _ _ Hm).
  - done.
  - cbn [m_expected m_sum]. by eapply Hval.
Qed.

Lemma cerr_of_app t1 t2 : cerr_of (t1 ++ t2) = cerr_of t1 ++ cerr_of t2.
Proof. unfold cerr_of. apply omap_app. Qed.

Lemma cerr_of_calls cs : cerr_of (map Call cs) = [].
Proof. induction cs as [|c cs IH]; [done|]. exact IH. Qed.

Lemma cerr_of_build_logs E :
  cerr_of (build_logs E)
  = map (fun i => [Text (build_log E i)]) (seq 0 (length (devices E))).
Proof.
  unfold build_logs. induction (seq 0 (length (devices E))) as [|i xs IH];
    [done|].
  cbn [flat_map map]. rewrite cerr_of_app, IH. done.
Qed.

Lemma rows_of_app t1 t2 : rows_of (t1 ++ t2) = rows_of t1 ++ rows_of t2.
Proof. unfold rows_of. apply omap_app. Qed.

Lemma rows_of_calls cs : rows_of (map Call cs) = [].
Proof. induction cs as [|c cs IH]; [done|]. exact IH. Qed.

Lemma N_pos : 0 < N.
Proof. reflexivity. Qed.

Lemma N_mod_128 : N mod 128 = 0.
Proof. reflexivity. Qed.

(** [opencl_main] when every call succeeds and the validation passes. *)
Lemma opencl_main_run E w :
  runtime_ok E -> validation_passes E -> drawn w = 0%nat ->
  opencl_main E w
  = (Ok tt, World (reads w + 10) (Z.to_nat N + Z.to_nat N)
              (trace w ++ opencl_main_trace
                            (readings E w)
                            (readings E (World (reads w + 5) 0 [])))).
Proof.
  intros Hok Hval Hd. unfold opencl_main, print_column_names.
  rewrite (bind_run _ _ _ _ _ (emit_run Header w)).
  change (1024 * 1024 * 10) with N.
  assert (Hval' : forall res sum,
            kernel_run E N (map (random E) (seq (drawn w) (Z.to_nat N)))
            = Some res ->
            res !! 0%nat = Some sum ->
            exceeds_tolerance
              (reduce_host (map (random E) (seq (drawn w) (Z.to_nat N)))) sum
            = false).
  { rewrite Hd. exact Hval. }
  rewrite (bind_run _ _ _ _ _
             (profile_reduce_run E N
                (World (reads w) (drawn w) (trace w ++ [Header]))
                N_pos N_mod_128 Hok Hval')).
  rewrite profile_scan_inclusive_run by (pose proof N_pos; lia).
  cbn [reads drawn trace measured]. rewrite Hd.
  f_equal. f_equal; [lia|].
  unfold opencl_main_trace. change (1024 * 1024 * 10) with N.
  rewrite <- !app_assoc. done.
Qed.

Lemma main_body_no_platform E :
  cl_status E PlatformGet = 0 -> platforms E = [] ->
  main_body E world0
  = (Ok 1, World 0 0 [Call PlatformGet;
                      Cerr [Text "Unable to find OpenCL platforms
"]]).
Proof.
  intros Hs Hp. unfold main_body.
  rewrite (bind_run _ _ _ _ _ (cl_ok E _ _ Hs)), Hp. done.
Qed.

Lemma main_body_setup E p ps d ds (k : M Z) :
  (forall c, c ∈ setup_calls -> cl_status E c = 0) ->
  platforms E = p :: ps -> devices E = d :: ds ->
  main_body E world0
  = ((try_catch (cl E BuildProgram) (build_failed E) ;;
      cl E CreateQueue ;; opencl_main E ;; ret 0)
       (World 0 0 (removelast (setup_trace p d)))).
Proof.
  intros Hcl Hp Hd. unfold main_body.
  assert (Hc : forall i c, setup_calls !! i = Some c -> cl_status E c = 0).
  { intros i c Hi. apply Hcl. by eapply list_elem_of_lookup_2. }
  rewrite (bind_run _ _ _ _ _ (cl_ok E _ _ (Hc 0%nat _ eq_refl))), Hp.
  cbn [reads drawn trace].
  rewrite (bind_run _ _ _ _ _ (emit_run _ _)). cbn [reads drawn trace].
  rewrite (bind_run _ _ _ _ _ (cl_ok E _ _ (Hc 1%nat _ eq_refl))).
  cbn [reads drawn trace].
  rewrite (bind_run _ _ _ _ _ (emit_run _ _)). cbn [reads drawn trace].
  rewrite (bind_run _ _ _ _ _ (cl_ok E _ _ (Hc 2%nat _ eq_refl))).
  cbn [reads drawn trace].
  rewrite (bind_run _ _ _ _ _ (cl_ok E _ _ (Hc 3%nat _ eq_refl))), Hd.
  cbn [reads drawn trace].
  rewrite (bind_run _ _ _ _ _ (emit_run _ _)). cbn [reads drawn trace].
  rewrite (bind_run _ _ _ _ _ (cl_ok E _ _ (Hc 4%nat _ eq_refl))).
  cbn [reads drawn trace].
  rewrite (bind_run _ _ _ _ _ (emit_run _ _)). cbn [reads drawn trace].
  rewrite (bind_run _ _ _ _ _ (cl_ok E _ _ (Hc 5%nat _ eq_refl))).
  cbn [reads drawn trace]. done.
Qed.

Lemma main_body_build_fails E p ps d ds :
  (forall c, c ∈ setup_calls -> cl_status E c = 0) ->
  platforms E = p :: ps -> devices E = d :: ds ->
  cl_status E BuildProgram <> 0 ->
  (forall i, cl_status E (BuildLog i) = 0) ->
  main_body E world0
  = (Throw (ClError BuildProgram (cl_status E BuildProgram)),
     World 0 0 (setup_trace p d ++ build_logs E)).
Proof.
  intros Hcl Hp Hd Hb Hlog.
  rewrite (main_body_setup E p ps d ds (ret 0) Hcl Hp Hd).
  unfold mbind at 1, M_bind at 1, bind.
  rewrite (try_catch_Throw _ _ _ _ _ (cl_fail E BuildProgram _ Hb)).
  unfold build_failed.
  rewrite (bind_run _ _ _ _ _ (build_logs_run E _ _ Hlog)).
  cbn [reads drawn trace]. unfold throw. f_equal.
Qed.

Lemma main_body_success E p ps d ds :
  runtime_ok E -> platforms E = p :: ps -> devices E = d :: ds ->
  validation_passes E ->
  main_body E world0
  = (Ok 0, World 10 (Z.to_nat N + Z.to_nat N)
             (setup_trace p d ++ [Call CreateQueue]
              ++ opencl_main_trace (readings E world0)
                                   (readings E (World 5 0 [])))).
Proof.
  intros Hok Hp Hd Hval.
  rewrite (main_body_setup E p ps d ds (ret 0) (fun c _ => Hok c) Hp Hd).
  unfold mbind at 1, M_bind at 1, bind.
  rewrite (try_catch_Ok _ _ _ _ _ (cl_ok E BuildProgram _ (Hok _))).
  cbn [reads drawn trace].
  rewrite (bind_run _ _ _ _ _ (cl_ok E _ _ (Hok CreateQueue))).
  cbn [reads drawn trace].
  rewrite (bind_run _ _ _ _ _
             (opencl_main_run E
                (World 0 0 ((removelast (setup_trace p d) ++ [Call BuildProgram])
                            ++ [Call CreateQueue]))
                Hok Hval eq_refl)).
  cbn [reads drawn trace]. unfold ret. f_equal.
Qed.

Lemma groups_of_128 n :
  0 < n -> n mod 128 = 0 ->
  Z.to_nat n = (Z.to_nat (n / 128) * 128)%nat /\
  (0 < Z.to_nat (n / 128))%nat /\ Z.quot n 128 = n / 128.
Proof.
  intros Hn Hmod. split; [|split].
  - Z.to_euclidean_division_equations. lia.
  - Z.to_euclidean_division_equations. lia.
  - apply Z.quot_div_nonneg; lia.
Qed.

Lemma main_body_Ok_inv E w c w' :
  main_body E w = (Ok c, w') -> c = 0 \/ c = 1.
Proof.
  unfold main_body. intros H.
  apply bind_Ok in H as (? & ? & _ & H).
  destruct (platforms E) as [|p ps].
  - apply bind_Ok in H as (? & ? & _ & H). injection H as <- _. by right.
  - do 5 apply bind_Ok in H as (? & ? & _ & H).
    destruct (devices E) as [|d ds]; [done|].
    do 7 apply bind_Ok in H as (? & ? & _ & H).
    injection H as <- _. by left.
Qed.

(** The kernel on zeros, all publications first, against the serial sum. *)
Lemma validation_zeros (l : nat) (a res0 lmem : list spec_float) res sum :
  (0 < l)%nat -> length a = (l * 128)%nat -> length res0 = l ->
  length lmem = Kernel.BUFFSIZE ->
  Forall (fun x => x = F32.zero) a ->
  Kernel.reduce F32.zero F32.add l 128 a res0 lmem (seq 0 l) = Some res ->
  res !! 0%nat = Some sum ->
  exceeds_tolerance (reduce_host a) sum = false.
Proof.
  intros Hl Hlen Hres Hlm Hz Hk Hsum.
  rewrite (KernelFacts.reduce_128_synchronised F32.zero F32.add l a res0 lmem)
    in Hk; try done.
  - assert (Hres' : res = <[0%nat := Kernel.sum_list F32.zero F32.add
                                      (Kernel.partials F32.zero F32.add 7 l a)]>
                            (Kernel.partials F32.zero F32.add 7 l a))
      by congruence.
    rewrite Hres' in Hsum.
    rewrite list_lookup_insert_eq in Hsum
      by (by rewrite KernelFacts.length_partials).
    assert (Hs : sum = Kernel.sum_list F32.zero F32.add
                         (Kernel.partials F32.zero F32.add 7 l a))
      by congruence.
    rewrite Hs. unfold reduce_host.
    rewrite (KernelFacts.sum_list_zeros F32.zero F32.add eq_refl a Hz).
    rewrite (KernelFacts.sum_list_zeros F32.zero F32.add eq_refl _
               (KernelFacts.partials_zeros F32.zero F32.add eq_refl _ _ a Hz)).
    reflexivity.
  - exists (seq 0 l), []. by rewrite app_nil_r.
Qed.

(** A run of [main] on zeros passes the validation. *)
Lemma validation_passes_zeros : validation_passes env_zeros.
Proof.
  unfold validation_passes. cbn zeta. intros res sum.
  unfold kernel_run. cbn [sched env_zeros].
  destruct (groups_of_128 N N_pos N_mod_128) as (HN & Hl & Hq). rewrite Hq.
  change (Z.to_nat 128) with 128%nat.
  apply validation_zeros.
  - exact Hl.
  - rewrite length_map, length_seq. exact HN.
  - by rewrite length_map, length_seq.
  - by rewrite length_map, length_seq.
  - by apply KernelFacts.all_zero_map.
Qed.

End HostFacts.

(** ** Facts about failing runs of the host program *)

Module FailureFacts.
Import Host.

Local Open Scope Z_scope.

Lemma bind_throw_run {A B} (c : M A) (k : A -> M B) w e w' :
  c w = (Throw e, w') -> (c ≫= k) w = (Throw e, w').
Proof.
  intros H. unfold mbind, M_bind, bind. by rewrite H.
Qed.

Lemma bind_undefined_run {A B} (c : M A) (k : A -> M B) w w' :
  c w = (Undefined, w') -> (c ≫= k) w = (Undefined, w').
Proof.
  intros H. unfold mbind, M_bind, bind. by rewrite H.
Qed.

(** The dispatch call when the runtime refuses it. *)
Lemma enqueue_fail E n loc_sz a slots w :
  cl_status E (EnqueueNDRange n loc_sz) <> 0 ->
  enqueueNDRangeKernel E n loc_sz a slots w
  = (Throw (ClError (EnqueueNDRange n loc_sz)
                    (cl_status E (EnqueueNDRange n loc_sz))),
     World (reads w) (drawn w) (trace w ++ [Call (EnqueueNDRange n loc_sz)])).
Proof.
  intros H. unfold enqueueNDRangeKernel.
  by rewrite (bind_throw_run _ _ _ _ _ (HostFacts.cl_fail E _ _ H)).
Qed.

Ltac ok_call H :=
  rewrite (HostFacts.bind_run _ _ _ _ _ (HostFacts.cl_ok _ _ _ H));
  cbn [reads drawn trace].

Ltac fail_call H :=
  rewrite (bind_throw_run _ _ _ _ _ (HostFacts.cl_fail _ _ _ H));
  eexists; split; [reflexivity|]; cbn [trace map app];
  by rewrite <- ?app_assoc.

Ltac read_clock :=
  rewrite (HostFacts.bind_run _ _ _ _ _ (HostFacts.now_run _ _));
  cbn [reads drawn trace].

(** Lines 71-91 when an OpenCL call fails: the calls before it have been
    made, the failing call is the last one, and its [cl::Error] leaves the
    function. *)
Lemma measure_first_failure E n w pre c post :
  calls_to_dispatch n ++ calls_after_dispatch = pre ++ c :: post ->
  (forall c', c' ∈ pre -> cl_status E c' = 0) ->
  cl_status E c <> 0 ->
  0 <= n -> (c ∈ calls_after_dispatch -> 0 < n /\ n mod 128 = 0) ->
  exists w',
    profile_reduce_measure E n w = (Throw (ClError c (cl_status E c)), w') /\
    trace w' = trace w ++ map Call (pre ++ [c]).
Proof.
  intros Heq Hpre Hc Hn Hafter. unfold profile_reduce_measure.
  rewrite (HostFacts.bind_run _ _ _ _ _ (HostFacts.random_vector_run E n w Hn)).
  cbn [reads drawn trace].
  unfold calls_to_dispatch, calls_after_dispatch in Heq. cbn [app] in Heq.
  destruct pre as [|p0 pre]; [injection Heq as <- <-; fail_call Hc|].
  injection Heq as <- Heq.
  assert (H0 := Hpre _ (list_elem_of_here _ _)). ok_call H0.
  assert (Hpre1 := fun c' H => Hpre c' (list_elem_of_further _ _ _ H)).
  clear Hpre.
  destruct pre as [|p1 pre]; [injection Heq as <- <-; fail_call Hc|].
  injection Heq as <- Heq.
  assert (H1 := Hpre1 _ (list_elem_of_here _ _)). ok_call H1.
  assert (Hpre2 := fun c' H => Hpre1 c' (list_elem_of_further _ _ _ H)).
  clear Hpre1. read_clock. read_clock.
  destruct pre as [|p2 pre]; [injection Heq as <- <-; fail_call Hc|].
  injection Heq as <- Heq.
  assert (H2 := Hpre2 _ (list_elem_of_here _ _)). ok_call H2.
  assert (Hpre3 := fun c' H => Hpre2 c' (list_elem_of_further _ _ _ H)).
  clear Hpre2.
  destruct pre as [|p3 pre]; [injection Heq as <- <-; fail_call Hc|].
  injection Heq as <- Heq.
  assert (H3 := Hpre3 _ (list_elem_of_here _ _)). ok_call H3.
  assert (Hpre4 := fun c' H => Hpre3 c' (list_elem_of_further _ _ _ H)).
  clear Hpre3.
  destruct pre as [|p4 pre]; [injection Heq as <- <-; fail_call Hc|].
  injection Heq as <- Heq.
  assert (H4 := Hpre4 _ (list_elem_of_here _ _)). ok_call H4.
  assert (Hpre5 := fun c' H => Hpre4 c' (list_elem_of_further _ _ _ H)).
  clear Hpre4.
  destruct pre as [|p5 pre]; [injection Heq as <- <-; fail_call Hc|].
  injection Heq as <- Heq.
  assert (H5 := Hpre5 _ (list_elem_of_here _ _)). ok_call H5.
  assert (Hpre6 := fun c' H => Hpre5 c' (list_elem_of_further _ _ _ H)).
  clear Hpre5.
  destruct pre as [|p6 pre]; [injection Heq as <- <-; fail_call Hc|].
  injection Heq as <- Heq.
  assert (H6 := Hpre6 _ (list_elem_of_here _ _)). ok_call H6.
  assert (Hpre7 := fun c' H => Hpre6 c' (list_elem_of_further _ _ _ H)).
  clear Hpre6. read_clock.
  destruct pre as [|p7 pre].
  { injection Heq as <- <-.
    rewrite (bind_throw_run _ _ _ _ _ (enqueue_fail E n 128 _ _ _ Hc)).
    eexists; split; [reflexivity|]. cbn [trace map app].
    by rewrite <- ?app_assoc. }
  injection Heq as <- Heq.
  assert (H7 := Hpre7 _ (list_elem_of_here _ _)).
  assert (Hpre8 := fun c' H => Hpre7 c' (list_elem_of_further _ _ _ H)).
  clear Hpre7.
  assert (Hin : c ∈ [Flush 87; CopyOut]).
  { destruct pre as [|p8 pre]; [injection Heq as <- _; left|].
    injection Heq as _ Heq.
    destruct pre as [|p9 pre]; [injection Heq as <- _; right; left|].
    injection Heq as _ Heq. by destruct pre. }
  destruct (Hafter Hin) as [Hpos Hmod].
  destruct (HostFacts.kernel_run_total E n
              (map (random E) (seq (drawn w) (Z.to_nat n))) Hpos Hmod)
    as (res & sum & Hk & Hsum).
  { by rewrite length_map, length_seq. }
  rewrite (HostFacts.bind_run _ _ _ _ _
             (HostFacts.enqueue_run E n _ res _ H7 Hmod Hk)).
  cbn [reads drawn trace].
  destruct pre as [|p8 pre]; [injection Heq as <- <-; fail_call Hc|].
  injection Heq as <- Heq.
  assert (H8 := Hpre8 _ (list_elem_of_here _ _)). ok_call H8.
  assert (Hpre9 := fun c' H => Hpre8 c' (list_elem_of_further _ _ _ H)).
  clear Hpre8. read_clock.
  destruct pre as [|p9 pre]; [injection Heq as <- <-; fail_call Hc|].
  injection Heq as _ Heq. by destruct pre.
Qed.

End FailureFacts.

(** ** What the parts of the host program add to the trace *)

Module EffectFacts.
Import Host Effects.

Local Open Scope Z_scope.

Lemma only_calls_ret {A} (a : A) : only_calls (ret a).
Proof. intros w. exists []. by rewrite app_nil_r. Qed.

Lemma only_calls_throw {A} e : only_calls (@throw A e).
Proof. intros w. exists []. by rewrite app_nil_r. Qed.

Lemma only_calls_undefined {A} : only_calls (@undefined A).
Proof. intros w. exists []. by rewrite app_nil_r. Qed.

Lemma only_calls_now E : only_calls (now E).
Proof. intros w. exists []. by rewrite app_nil_r. Qed.

Lemma only_calls_cl E c : only_calls (cl E c).
Proof.
  intros w. exists [c]. destruct (cl E c w) as [r w'] eqn:H.
  by apply HostFacts.cl_inv in H as [-> _].
Qed.

Lemma only_calls_random_vector E n : only_calls (random_vector E n).
Proof.
  intros w. exists []. rewrite app_nil_r. unfold random_vector.
  by destruct (n <? 0).
Qed.

Lemma only_calls_bind {A B} (c : M A) (k : A -> M B) :
  only_calls c -> (forall a, only_calls (k a)) -> only_calls (c ≫= k).
Proof.
  intros Hc Hk w. destruct (Hc w) as [cs1 H1].
  unfold mbind, M_bind, bind. destruct (c w) as [[a|e|] w1]; cbn [snd] in *.
  - destruct (Hk a w1) as [cs2 H2]. exists (cs1 ++ cs2).
    by rewrite H2, H1, map_app, app_assoc.
  - by exists cs1.
  - by exists cs1.
Qed.

Lemma only_calls_enqueue E n loc_sz a slots :
  only_calls (enqueueNDRangeKernel E n loc_sz a slots).
Proof.
  unfold enqueueNDRangeKernel. apply only_calls_bind; [apply only_calls_cl|].
  intros _. destruct (negb _); [apply only_calls_undefined|].
  destruct (Kernel.reduce _ _ _ _ _ _ _ _);
    [apply only_calls_ret|apply only_calls_undefined].
Qed.

(** Lines 71-91 add nothing but OpenCL calls to the trace, however they
    end. *)
Lemma only_calls_measure E n : only_calls (profile_reduce_measure E n).
Proof.
  unfold profile_reduce_measure.
  repeat first
    [ apply only_calls_random_vector
    | apply only_calls_cl
    | apply only_calls_now
    | apply only_calls_enqueue
    | apply only_calls_bind; [|intros ?] ].
  match goal with |- only_calls (match ?x with _ => _ end) => destruct x end;
    [apply only_calls_ret|apply only_calls_undefined].
Qed.

Lemma only_calls_quiet {A} (c : M A) : only_calls c -> quiet c.
Proof.
  intros Hc w a w' Hw. destruct (Hc w) as [cs H]. rewrite Hw in H.
  cbn [snd] in H. by rewrite H, HostFacts.cerr_of_app, HostFacts.cerr_of_calls, app_nil_r.
Qed.

Lemma quiet_bind {A B} (c : M A) (k : A -> M B) :
  quiet c -> (forall a, quiet (k a)) -> quiet (c ≫= k).
Proof.
  intros Hc Hk w b w' H.
  apply HostFacts.bind_Ok in H as (a & w1 & H1 & H2).
  rewrite (Hk a _ _ _ H2). by eapply Hc.
Qed.

Lemma quiet_ret {A} (a : A) : quiet (ret a).
Proof. by intros w a' w' [= _ <-]. Qed.

Lemma quiet_cl E c : quiet (cl E c).
Proof. apply only_calls_quiet, only_calls_cl. Qed.

Lemma quiet_emit e :
  match e with Cerr _ => False | _ => True end -> quiet (emit e).
Proof.
  intros He w a w' H. unfold emit in H. simplify_eq. cbn [trace].
  rewrite HostFacts.cerr_of_app. destruct e; try done; by rewrite app_nil_r.
Qed.

Lemma quiet_report name t b : quiet (report name t b).
Proof.
  unfold report. destruct t as [|t0 [|t1 [|t2 [|t3 [|t4 [|? ?]]]]]];
    try by intros w a w' H.
  unfold print. by apply quiet_emit.
Qed.

Lemma quiet_profile_reduce E n : quiet (profile_reduce E n).
Proof.
  unfold profile_reduce. apply quiet_bind.
  - apply only_calls_quiet, only_calls_measure.
  - intros m. destruct (exceeds_tolerance _ _); [by intros w a w' H|].
    apply quiet_report.
Qed.

Lemma quiet_profile_scan_inclusive E n : quiet (profile_scan_inclusive E n).
Proof.
  unfold profile_scan_inclusive.
  repeat first
    [ apply only_calls_quiet, only_calls_random_vector
    | apply only_calls_quiet, only_calls_now
    | apply quiet_report
    | apply quiet_bind; [|intros ?] ].
Qed.

Lemma quiet_opencl_main E : quiet (opencl_main E).
Proof.
  unfold opencl_main.
  apply quiet_bind; [by apply quiet_emit|intros _].
  apply quiet_bind; [apply quiet_profile_reduce|intros _].
  apply quiet_profile_scan_inclusive.
Qed.

(** The handler of lines 192-198 always ends with an exception. *)
Lemma build_failed_never_returns E e : never_returns (build_failed E e).
Proof.
  intros w a w' H. unfold build_failed in H. destruct e as [c err|msg].
  - apply HostFacts.bind_Ok in H as (u & w1 & _ & H). done.
  - done.
Qed.

Lemma quiet_try_catch {A} (c : M A) h :
  quiet c -> (forall e, never_returns (h e)) -> quiet (try_catch c h).
Proof.
  intros Hc Hh w a w' H. unfold try_catch in H.
  destruct (c w) as [[a1|e|] w1] eqn:Hcw.
  - injection H as <- <-. by eapply Hc.
  - by apply Hh in H.
  - done.
Qed.

(** A [try] block that ends with [return 0] has written nothing to
    [std::cerr]. *)
Lemma main_body_quiet E w w' :
  main_body E w = (Ok 0, w') -> cerr_of (trace w') = cerr_of (trace w).
Proof.
  unfold main_body. intros H.
  apply HostFacts.bind_Ok in H as (u & w1 & H1 & H).
  rewrite <- (quiet_cl E _ _ _ _ H1).
  destruct (platforms E) as [|p ps].
  { apply HostFacts.bind_Ok in H as (u' & w2 & _ & H). by injection H. }
  match type of H with ?c _ = _ =>
    enough (Hq : quiet c) by exact (Hq _ _ _ H) end.
  clear H H1.
  apply quiet_bind; [by apply quiet_emit|intros _].
  apply quiet_bind; [apply quiet_cl|intros _].
  apply quiet_bind; [by apply quiet_emit|intros _].
  apply quiet_bind; [apply quiet_cl|intros _].
  apply quiet_bind; [apply quiet_cl|intros _].
  destruct (devices E) as [|d ds]; [by intros ? ? ? ?|].
  apply quiet_bind; [by apply quiet_emit|intros _].
  apply quiet_bind; [apply quiet_cl|intros _].
  apply quiet_bind; [by apply quiet_emit|intros _].
  apply quiet_bind; [apply quiet_cl|intros _].
  apply quiet_bind.
  { apply quiet_try_catch; [apply quiet_cl|apply build_failed_never_returns]. }
  intros _.
  apply quiet_bind; [apply quiet_cl|intros _].
  apply quiet_bind; [apply quiet_opencl_main|intros _].
  apply quiet_ret.
Qed.

End EffectFacts.

(** ** Facts about [opencl_main] and [main] *)

Module MainFacts.
Import Host Effects.

Local Open Scope Z_scope.


(** The launch that [profile_reduce n] requests returns as many slots as
    there are groups. *)
Lemma kernel_run_length E n (a res : list spec_float) :
  0 <= n -> n mod 128 = 0 -> length a = Z.to_nat n ->
  kernel_run E n a = Some res -> length res = Z.to_nat (n / 128).
Proof.
  intros Hn Hmod Ha. unfold kernel_run.
  assert (Hq : Z.quot n 128 = n / 128) by (apply Z.quot_div_nonneg; lia).
  assert (H128 : Z.to_nat 128 = 128%nat) by reflexivity.
  rewrite H128.
  assert (Hlen : length a = (Z.to_nat (n / 128) * 128)%nat).
  { rewrite Ha. Z.to_euclidean_division_equations. lia. }
  destruct (KernelFacts.reduce_128_frame F32.zero F32.add (Z.to_nat (n / 128))
              a (map (dev_result E) (seq 0 (Z.to_nat (Z.quot n 128))))
              (map (dev_local E) (seq 0 Kernel.BUFFSIZE)) (sched E))
    as (res' & Hres & Hlres & _).
  { done. }
  { by rewrite length_map, length_seq, Hq. }
  { by rewrite length_map, length_seq. }
  rewrite Hres. by intros [= <-].
Qed.

(** [report] does not throw. *)
Lemma report_no_throw name t b w e w' : report name t b w <> (Throw e, w').
Proof.
  unfold report. by destruct t as [|t0 [|t1 [|t2 [|t3 [|t4 [|? ?]]]]]].
Qed.

(** A [profile_reduce] that ends with an exception has added nothing but
    OpenCL calls to the trace. *)
Lemma profile_reduce_Throw_inv E n w e w' :
  profile_reduce E n w = (Throw e, w') ->
  (exists cs, trace w' = trace w ++ map Call cs) /\
  ((exists c err, e = ClError c err) \/
   (exists sum expected, e = RuntimeError (invalid_value sum expected))).
Proof.
  unfold profile_reduce. intros H.
  apply HostFacts.bind_Throw in H as [H|(m & w1 & Hm & H)].
  - split.
    + destruct (EffectFacts.only_calls_measure E n w) as [cs Hcs]. exists cs.
      by rewrite H in Hcs.
    + left. by eapply HostFacts.measure_Throw_inv.
  - destruct (exceeds_tolerance _ _).
    + injection H as <- <-. split; [|right; by eexists _, _].
      destruct (EffectFacts.only_calls_measure E n w) as [cs Hcs]. exists cs.
      by rewrite Hm in Hcs.
    + by apply report_no_throw in H.
Qed.

(** An exception leaves [opencl_main] only from [profile_reduce], after
    the header and before any row. *)
Lemma opencl_main_Throw_inv E w e w' :
  opencl_main E w = (Throw e, w') ->
  (exists cs, trace w' = trace w ++ [Header] ++ map Call cs) /\
  ((exists c err, e = ClError c err) \/
   (exists sum expected, e = RuntimeError (invalid_value sum expected))).
Proof.
  unfold opencl_main, print_column_names. intros H.
  rewrite (HostFacts.bind_run _ _ _ _ _ (HostFacts.emit_run _ _)) in H.
  apply HostFacts.bind_Throw in H as [H|(u & w1 & _ & H)].
  - apply profile_reduce_Throw_inv in H as [[cs Hcs] He].
    split; [|done]. exists cs. cbn [trace] in Hcs.
    by rewrite Hcs, <- app_assoc.
  - rewrite HostFacts.profile_scan_inclusive_run in H by done. done.
Qed.

Lemma for_each_app {A} (f : A -> M unit) xs ys w :
  for_each f (xs ++ ys) w = (for_each f xs ;; for_each f ys) w.
Proof.
  revert w. induction xs as [|x xs IH]; intros w; cbn [for_each app].
  - done.
  - unfold mbind, M_bind, bind. destruct (f x w) as [[u|e|] w1]; [|done..].
    apply IH.
Qed.

(** The build logs of the devices [xs], when they can be queried. *)
Lemma build_logs_some E xs : forall w,
  (forall i, i ∈ xs -> cl_status E (BuildLog i) = 0) ->
  for_each (fun i => cl E (BuildLog i) ;; emit (Cerr [Text (build_log E i)]))
           xs w
  = (Ok tt, World (reads w) (drawn w)
              (trace w ++ flat_map (fun i => [Call (BuildLog i);
                                              Cerr [Text (build_log E i)]]) xs)).
Proof.
  induction xs as [|i xs IH]; intros w Hs; cbn [for_each].
  - unfold ret. destruct w. cbn. by rewrite app_nil_r.
  - rewrite (HostFacts.bind_run _ _ _ _ _
               (HostFacts.bind_run _ _ _ _ _
                  (HostFacts.cl_ok E (BuildLog i) w (Hs i (list_elem_of_here _ _))))).
    unfold emit at 1. cbn [reads drawn trace]. rewrite IH.
    + cbn [reads drawn trace flat_map]. by rewrite <- !app_assoc.
    + intros j Hj. apply Hs. by right.
Qed.

(** The handler of lines 192-198 when the log of device [i] cannot be
    queried: the logs of the devices before [i] are written, and the
    exception of the query replaces that of the build. *)
Lemma build_failed_log_fails E c err i w :
  (i < length (devices E))%nat ->
  (forall j, (j < i)%nat -> cl_status E (BuildLog j) = 0) ->
  cl_status E (BuildLog i) <> 0 ->
  build_failed E (ClError c err) w
  = (Throw (ClError (BuildLog i) (cl_status E (BuildLog i))),
     World (reads w) (drawn w)
       (trace w ++ flat_map (fun j => [Call (BuildLog j);
                                       Cerr [Text (build_log E j)]]) (seq 0 i)
        ++ [Call (BuildLog i)])).
Proof.
  intros Hi Hok Hfail. unfold build_failed.
  replace (length (devices E)) with (i + S (length (devices E) - i - 1))%nat
    by lia.
  rewrite seq_app. cbn [seq].
  apply FailureFacts.bind_throw_run. rewrite for_each_app.
  assert (Hpre : forall j, j ∈ seq 0 i -> cl_status E (BuildLog j) = 0).
  { intros j Hj. apply Hok. apply elem_of_seq in Hj. lia. }
  rewrite (HostFacts.bind_run _ _ _ _ _ (build_logs_some E (seq 0 i) w Hpre)).
  cbn [for_each reads drawn trace].
  apply FailureFacts.bind_throw_run. apply FailureFacts.bind_throw_run.
  rewrite (HostFacts.cl_fail E _ _ Hfail). cbn [reads drawn trace].
  by rewrite <- app_assoc.
Qed.

(** The [try] block returns 1 only when no platform is found. *)
Lemma main_body_Ok1_inv E w w' :
  main_body E w = (Ok 1, w') ->
  platforms E = [] /\
  trace w' = trace w ++ [Call PlatformGet;
                         Cerr [Text "Unable to find OpenCL platforms
"]].
Proof.
  unfold main_body. intros H.
  apply HostFacts.bind_Ok in H as (? & w1 & H1 & H).
  apply HostFacts.cl_Ok_inv in H1 as [_ ->].
  destruct (platforms E) as [|p ps].
  - split; [done|].
    rewrite (HostFacts.bind_run _ _ _ _ _ (HostFacts.emit_run _ _)) in H.
    injection H as <-. cbn [trace]. by rewrite <- app_assoc.
  - do 5 apply HostFacts.bind_Ok in H as (? & ? & _ & H).
    destruct (devices E) as [|d ds]; [done|].
    do 7 apply HostFacts.bind_Ok in H as (? & ? & _ & H).
    by injection H.
Qed.

Lemma cerr_of_diagnostic e : cerr_of (diagnostic e) <> [].
Proof. by destruct e. Qed.

(** The [try] block when the build fails and the log of every device of
    the context can be queried. *)
Lemma main_body_build_logs E p ps d ds :
  (forall c, c ∈ setup_calls -> cl_status E c = 0) ->
  platforms E = p :: ps -> devices E = d :: ds ->
  cl_status E BuildProgram <> 0 ->
  (forall i, (i < length (devices E))%nat -> cl_status E (BuildLog i) = 0) ->
  main_body E world0
  = (Throw (ClError BuildProgram (cl_status E BuildProgram)),
     World 0 0 (setup_trace p d ++ build_logs E)).
Proof.
  intros Hcl Hp Hd Hb Hlog.
  rewrite (HostFacts.main_body_setup E p ps d ds (ret 0) Hcl Hp Hd).
  unfold mbind at 1, M_bind at 1, bind.
  rewrite (HostFacts.try_catch_Throw _ _ _ _ _
             (HostFacts.cl_fail E BuildProgram _ Hb)).
  unfold build_failed.
  assert (Hs : forall i, i ∈ seq 0 (length (devices E)) ->
                         cl_status E (BuildLog i) = 0).
  { intros i Hi. apply Hlog. apply elem_of_seq in Hi. lia. }
  rewrite (HostFacts.bind_run _ _ _ _ _ (build_logs_some E _ _ Hs)).
  cbn [reads drawn trace]. unfold throw. f_equal.
Qed.

End MainFacts.

Module LogFacts.
Import Host.

Lemma cerr_of_logs E xs :
  cerr_of (flat_map (fun j => [Call (BuildLog j); Cerr [Text (build_log E j)]]) xs)
  = map (fun j => [Text (build_log E j)]) xs.
Proof.
  induction xs as [|i xs IH]; [done|].
  cbn [flat_map map]. rewrite HostFacts.cerr_of_app, IH. done.
Qed.

Lemma cerr_of_setup p d : cerr_of (setup_trace p d) = [].
Proof. done. Qed.

End LogFacts.

(** ** Facts about the text of the report *)

Module TextFacts.
Import Host Text.

Lemma length_append (s t : string) :
  String.length (String.append s t) = String.length s + String.length t.
Proof. induction s as [|c s IH]; simpl; [done|]. by rewrite IH. Qed.

Lemma length_spaces n : String.length (spaces n) = n.
Proof. induction n as [|n IH]; simpl; [done|]. by rewrite IH. Qed.

(** A field is as wide as asked for, or as wide as its text. *)
Lemma length_setw w s : String.length (setw w s) = w `max` String.length s.
Proof. unfold setw. rewrite length_append, length_spaces. lia. Qed.

(** A number below [10 ^ k] has at most [k] digits. *)
Lemma length_show_digits fuel : forall (k : nat) z acc,
  (0 <= z < 10 ^ Z.of_nat k)%Z -> 1 <= k <= fuel ->
  String.length (show_digits fuel z acc) <= k + String.length acc.
Proof.
  induction fuel as [|fuel IH]; intros k z acc Hz Hk; [lia|].
  cbn [show_digits]. destruct (Z.eqb_spec (z / 10) 0) as [Hq|Hq].
  - simpl. lia.
  - destruct k as [|[|k]]; [lia| |].
    + exfalso. apply Hq. apply Z.div_small. simpl in Hz. lia.
    + etransitivity; [apply (IH (S k))|simpl; lia]; [|lia].
      rewrite (Nat2Z.inj_succ (S k)), Z.pow_succ_r in Hz by lia.
      split; [apply Z.div_pos; lia|].
      apply Z.div_lt_upper_bound; lia.
Qed.

Lemma length_show_Z z :
  (- 10 ^ 16 < z < 10 ^ 16)%Z -> String.length (show_Z z) <= 17.
Proof.
  intros Hz. unfold show_Z. destruct (Z.ltb_spec z 0).
  - pose proof (length_show_digits 19 16 (- z) EmptyString) as H16.
    simpl String.length in *. change (Z.of_nat 16) with 16%Z in H16.
    specialize (H16 ltac:(lia) ltac:(lia)). lia.
  - pose proof (length_show_digits 19 16 z EmptyString) as H16.
    simpl String.length in *. change (Z.of_nat 16) with 16%Z in H16.
    specialize (H16 ltac:(lia) ltac:(lia)). lia.
Qed.

(** The microsecond count of a representable duration has at most 16
    digits. *)
Lemma to_us_digits d :
  (- 2 ^ 63 <= d < 2 ^ 63)%Z -> (- 10 ^ 16 < to_us d < 10 ^ 16)%Z.
Proof.
  intros Hd. unfold to_us, ticks_per_us.
  pose proof (Z.quot_rem' d 1000) as Hqr.
  pose proof (Z.rem_bound_abs d 1000 ltac:(lia)) as Hr.
  lia.
Qed.

(** The field of a representable duration is exactly 20 characters
    wide. *)
Lemma length_us_field d :
  (- 2 ^ 63 <= d < 2 ^ 63)%Z -> String.length (us_field (to_us d)) = 20.
Proof.
  intros Hd. unfold us_field. rewrite length_setw, length_append.
  pose proof (length_show_Z _ (to_us_digits d Hd)). simpl. lia.
Qed.

Lemma length_bw_field show_double b :
  String.length (bw_field show_double b)
  = 20 `max` (String.length (show_double b) + 4).
Proof. unfold bw_field. rewrite length_setw, length_append. done. Qed.

Lemma length_header_text : String.length header_text = 160.
Proof. reflexivity. Qed.

End TextFacts.

(** * The claims about the kernel *)

Local Open Scope nat_scope.

Section KernelClaims.
Context {F : Type}.
Variable zero : F.
Variable add : F -> F -> F.

(** C1 (amended).  For an input of [N = l * 128] elements, [l > 0], and an
    execution in which every work-group has published its partial sum
    before the combine starts, the kernel ends without a fault and slot 0
    of the partial-sums buffer holds the left-to-right sum, from 0, of
    the [l] per-group tree sums.  When the addition is associative and
    commutative with unit 0 (exact arithmetic) this is the sum of all [N]
    input elements. *)
Theorem reduce_slot0_sum l (a res0 lmem : list F) sched :
  0 < l -> length a = l * 128 -> length res0 = l ->
  length lmem = Kernel.BUFFSIZE -> Kernel.barrier_synchronised l sched ->
  exists res,
    Kernel.reduce zero add l 128 a res0 lmem sched = Some res /\
    res !! 0 = Some (Kernel.sum_list zero add (Kernel.partials zero add 7 l a)) /\
    (exact_addition zero add ->
     res !! 0 = Some (Kernel.sum_list zero add a)).
Proof.
  intros Hl Ha Hres Hlm Hs. eexists. split.
  { by apply KernelFacts.reduce_128_synchronised. }
  assert (H0 : forall x, <[0:=x]> (Kernel.partials zero add 7 l a) !! 0 = Some x).
  { intros x. apply list_lookup_insert_eq. rewrite KernelFacts.length_partials. lia. }
  split; [apply H0|].
  intros (Hassoc & Hcomm & Hunit). rewrite H0. f_equal.
  apply KernelFacts.sum_partials; try done.
Qed.

(** C8 (amended).  When the addition is associative and commutative with
    unit 0 (exact arithmetic), the kernel leaves the same value in slot 0
    for an input and for any permutation of it (both runs with all
    publications before the combine). *)
Theorem reduce_permutation_exact l (a a' res0 res0' lmem lmem' : list F)
    sched sched' :
  exact_addition zero add ->
  0 < l -> length a = l * 128 -> Permutation a a' ->
  length res0 = l -> length res0' = l ->
  length lmem = Kernel.BUFFSIZE -> length lmem' = Kernel.BUFFSIZE ->
  Kernel.barrier_synchronised l sched ->
  Kernel.barrier_synchronised l sched' ->
  exists res res' s,
    Kernel.reduce zero add l 128 a res0 lmem sched = Some res /\
    Kernel.reduce zero add l 128 a' res0' lmem' sched' = Some res' /\
    res !! 0 = Some s /\ res' !! 0 = Some s.
Proof.
  intros (Hassoc & Hcomm & Hunit) Hl Ha Hperm Hr Hr' Hlm Hlm' Hs Hs'.
  assert (Ha' : length a' = l * 128) by (by rewrite <- Hperm).
  eexists _, _, (Kernel.sum_list zero add a).
  split; [by apply KernelFacts.reduce_128_synchronised|].
  split; [by apply KernelFacts.reduce_128_synchronised|].
  assert (H0 : forall b x,
            <[0:=x]> (Kernel.partials zero add 7 l b) !! 0 = Some x).
  { intros b x. apply list_lookup_insert_eq. rewrite KernelFacts.length_partials. lia. }
  rewrite !H0. split; f_equal.
  - by apply KernelFacts.sum_partials.
  - rewrite (KernelFacts.sum_list_perm zero add Hassoc Hcomm Hunit a a' Hperm).
    by apply KernelFacts.sum_partials.
Qed.

End KernelClaims.

Lemma exact_addition_Z : exact_addition 0%Z Z.add.
Proof. unfold exact_addition. repeat split; intros; lia. Qed.

Lemma barrier_synchronised_seq l rest :
  Kernel.barrier_synchronised l (seq 0 l ++ rest).
Proof. by exists (seq 0 l), rest. Qed.

(** The kernel on 256 integers 1..256, two groups: slot 0 is their sum. *)
Lemma reduce_slot0_sum_witness :
  exists res,
    Kernel.reduce 0%Z Z.add 2 128 (map Z.of_nat (seq 1 256)) [7; 7]%Z
      (replicate Kernel.BUFFSIZE 7%Z) [1; 0] = Some res /\
    res !! 0 = Some (Kernel.sum_list 0%Z Z.add
                       (Kernel.partials 0%Z Z.add 7 2 (map Z.of_nat (seq 1 256)))) /\
    (exact_addition 0%Z Z.add ->
     res !! 0 = Some (Kernel.sum_list 0%Z Z.add (map Z.of_nat (seq 1 256)))).
Proof.
  apply (reduce_slot0_sum 0%Z Z.add 2 (map Z.of_nat (seq 1 256)) [7; 7]%Z
           (replicate Kernel.BUFFSIZE 7%Z) [1; 0]).
  - lia.
  - reflexivity.
  - reflexivity.
  - reflexivity.
  - exists [1; 0], []. split; [reflexivity|]. apply perm_swap.
Defined.

Lemma reduce_permutation_exact_witness :
  exists res res' s,
    Kernel.reduce 0%Z Z.add 1 128 (map Z.of_nat (seq 1 128)) [7%Z]
      (replicate Kernel.BUFFSIZE 7%Z) [0] = Some res /\
    Kernel.reduce 0%Z Z.add 1 128 (rev (map Z.of_nat (seq 1 128))) [9%Z]
      (replicate Kernel.BUFFSIZE 9%Z) [0; 0] = Some res' /\
    res !! 0 = Some s /\ res' !! 0 = Some s.
Proof.
  apply (reduce_permutation_exact 0%Z Z.add 1).
  - exact exact_addition_Z.
  - lia.
  - reflexivity.
  - apply Permutation_rev.
  - reflexivity.
  - reflexivity.
  - reflexivity.
  - reflexivity.
  - exact (barrier_synchronised_seq 1 []).
  - exact (barrier_synchronised_seq 1 [0]).
Defined.

(** The scenarios of the specification: 1024 ones in 8 groups give exactly
    1024.0; 128 ones followed by 128 minus-ones give 0.0. *)
Example reduce_ones_1024 :
  Kernel.reduce F32.zero F32.add 8 128 (replicate 1024 (F32.of_Z 1))
    (replicate 8 S754_nan) nan_lmem (seq 0 8) ≫= (.!! 0)
  = Some (F32.of_Z 1024).
Proof. vm_compute. reflexivity. Qed.

Example reduce_plus_minus_256 :
  Kernel.reduce F32.zero F32.add 2 128
    (replicate 128 (F32.of_Z 1) ++ replicate 128 (F32.of_Z (-1)))
    (replicate 2 S754_nan) nan_lmem (seq 0 2) ≫= (.!! 0)
  = Some F32.zero.
Proof. vm_compute. reflexivity. Qed.

Lemma within_nan tol ref : ~ within tol S754_nan ref.
Proof. by intros (qx & qr & Hx & _). Qed.

Lemma group4_swap v0 v1 w0 w1 :
  Permutation (group4 v0 v1 w0 w1) (group4 v0 w0 v1 w1).
Proof.
  unfold group4. cbn [app]. constructor.
  rewrite !Permutation_middle. apply Permutation_app_head. apply perm_swap.
Qed.

(** C1 (counterexample).  Two inputs of one group of 128 floats.  On the
    first the kernel returns 1 (the exact sum) and the serial reference 0:
    the difference exceeds every tolerance [c * N * epsilon * |reference|].
    On the second the additions of the tree overflow and the kernel returns
    NaN, while the serial reference is 0 (the exact sum): the result is
    within no tolerance at all. *)
Lemma reduce_tolerance_counterexample :
  reduce1 cancel_input = Some [F32.of_Z 1] /\
  Host.reduce_host cancel_input = F32.zero /\
  (forall c : Q,
     ~ within (c * inject_Z 128 * flt_epsilon * Qabs 0) (F32.of_Z 1)
              (Host.reduce_host cancel_input)) /\
  reduce1 overflow_input = Some [S754_nan] /\
  Host.reduce_host overflow_input = F32.zero /\
  (forall tol : Q, ~ within tol S754_nan (Host.reduce_host overflow_input)).
Proof.
  split; [by vm_compute|]. split; [by vm_compute|]. split.
  { intros c (qx & qr & Hx & Hr & Hle).
    assert (Hs : Host.reduce_host cancel_input = F32.zero) by by vm_compute.
    rewrite Hs in Hr. vm_compute in Hx, Hr.
    injection Hx as <-. injection Hr as <-.
    assert (Htol : (c * inject_Z 128 * flt_epsilon * Qabs 0 == 0)%Q).
    { change (Qabs 0) with 0%Q. ring. }
    rewrite Htol in Hle. vm_compute in Hle. exact (Hle eq_refl). }
  split; [by vm_compute|]. split; [by vm_compute|].
  intros tol. apply within_nan.
Qed.

(** C8 (counterexample).  Two pairs of inputs, each a permutation of the
    other (cells 1 and 64 exchanged).  For the first pair the kernel
    returns 4096 and 0: apart by more than the tolerance 1e3 of the
    validation.  For the second pair it returns NaN and 0: within no
    tolerance at all. *)
Lemma reduce_permutation_counterexample :
  Permutation absorb_input absorb_input_permuted /\
  reduce1 absorb_input = Some [F32.of_Z 4096] /\
  reduce1 absorb_input_permuted = Some [F32.zero] /\
  Host.exceeds_tolerance (F32.of_Z 4096) F32.zero = true /\
  ~ within 1000 F32.zero (F32.of_Z 4096) /\
  Permutation overflow_input overflow_input_permuted /\
  reduce1 overflow_input = Some [S754_nan] /\
  reduce1 overflow_input_permuted = Some [F32.zero] /\
  (forall tol : Q, ~ within tol S754_nan F32.zero).
Proof.
  split; [apply group4_swap|]. split; [by vm_compute|].
  split; [by vm_compute|]. split; [by vm_compute|]. split.
  { intros (qx & qr & Hx & Hr & Hle). vm_compute in Hx, Hr.
    injection Hx as <-. injection Hr as <-. vm_compute in Hle.
    exact (Hle eq_refl). }
  split; [apply group4_swap|]. split; [by vm_compute|].
  split; [by vm_compute|]. intros tol. apply within_nan.
Qed.

(** C10 (the failing execution).  256 ones in two groups, a [result] buffer
    that holds zeros at launch, and the device running group 0 to its end
    before group 1: work-item 0 reads slot 1 before group 1 has published,
    and slot 0 ends as 128, not as the total 256.  Slot 1 holds the partial
    sum of group 1.  With the publications first, slot 0 ends as 256. *)
Lemma reduce_unsynchronised_slot0 :
  Kernel.reduce F32.zero F32.add 2 128 (replicate 256 (F32.of_Z 1))
    [F32.zero; F32.zero] nan_lmem []
  = Some [F32.of_Z 128; F32.of_Z 128] /\
  Kernel.reduce F32.zero F32.add 2 128 (replicate 256 (F32.of_Z 1))
    [F32.zero; F32.zero] nan_lmem [0; 1]
  = Some [F32.of_Z 256; F32.of_Z 128] /\
  F32.of_Z 128 <> F32.of_Z 256.
Proof. split; [by vm_compute|]. split; [by vm_compute|]. by vm_compute. Qed.

(** The part of C10 that holds under every schedule: the kernel ends
    without a fault and every slot [k >= 1] holds the partial sum of
    group [k]. *)
Lemma reduce_frame_all_schedules (l : nat) (a res0 lmem : list spec_float)
    (sched : list nat) :
  length a = l * 128 -> length res0 = l ->
  length lmem = Kernel.BUFFSIZE ->
  exists res,
    Kernel.reduce F32.zero F32.add l 128 a res0 lmem sched = Some res /\
    length res = l /\
    forall k, 0 < k < l ->
      res !! k = Some (Kernel.tree_sum F32.zero F32.add 7 (Kernel.slice 128 k a)).
Proof. apply KernelFacts.reduce_128_frame. Qed.

(** * The claims about the host program *)

Local Open Scope Z_scope.

Lemma to_us_nonneg d : 0 <= d -> 0 <= Host.to_us d.
Proof.
  intros H. unfold Host.to_us, Host.ticks_per_us.
  rewrite Z.quot_div_nonneg by lia. Z.to_euclidean_division_equations. lia.
Qed.

Lemma to_us_lt d : 0 <= d -> d < 2 ^ 63 -> Host.to_us d < 2 ^ 63.
Proof.
  intros H Hlt. unfold Host.to_us, Host.ticks_per_us.
  rewrite Z.quot_div_nonneg by lia. Z.to_euclidean_division_equations. lia.
Qed.

(** C7.  For every [int] argument and every pair of time points with the
    end not before the start (their difference being a representable
    [duration]), [bandwidth] returns a finite, non-negative [double]; when
    the elapsed time is zero microseconds it returns 0. *)
Theorem bandwidth_nonneg_finite (n t0 t1 : Z) :
  t0 <= t1 -> t1 - t0 < 2 ^ 63 ->
  nonneg_finite (Host.bandwidth n t0 t1) /\
  (Host.to_us (t1 - t0) = 0 -> Host.bandwidth n t0 t1 = F64.zero).
Proof.
  intros Hle Hrange. unfold Host.bandwidth.
  pose proof (to_us_nonneg (t1 - t0) ltac:(lia)) as Hdt0.
  pose proof (to_us_lt (t1 - t0) ltac:(lia) Hrange) as Hdt1.
  destruct (Z.eqb_spec (Host.to_us (t1 - t0)) 0) as [Hz|Hnz].
  { split; done. }
  split; [|done].
  set (bytes := Host.wrap_size_t _).
  assert (Hbytes : 0 <= bytes < 2 ^ 64).
  { unfold bytes, Host.wrap_size_t. apply Z.mod_pos_bound. lia. }
  pose proof (FloatFacts.F64_of_Z_nonneg bytes 64 ltac:(lia) ltac:(lia)
                ltac:(lia) ltac:(lia)) as HX.
  pose proof (FloatFacts.F64_of_Z_pos (Host.to_us (t1 - t0)) 63 ltac:(lia)
                ltac:(lia) ltac:(lia) ltac:(lia)) as HD.
  pose proof (FloatFacts.mul_nonneg_below F64.prec F64.emax ltac:(done)
                ltac:(done) _ _ _ _ _ HX FloatFacts.c_1e_9_finite) as HN.
  pose proof (FloatFacts.mul_pos_finite F64.prec F64.emax ltac:(done)
                ltac:(done) _ _ _ _ _ _ HD FloatFacts.c_1e_6_finite) as HM.
  unfold SpecFloat.emin, F64.prec, F64.emax in HN, HM.
  specialize (HN ltac:(lia) ltac:(lia) ltac:(lia)).
  specialize (HM ltac:(lia) ltac:(lia) ltac:(lia)).
  pose proof (FloatFacts.div_nonneg_below F64.prec F64.emax ltac:(done)
                ltac:(done) _ _ _ _ _ HN HM) as HR.
  unfold SpecFloat.emin, F64.prec, F64.emax in HR.
  specialize (HR ltac:(lia) ltac:(lia)).
  eapply FloatFacts.nonneg_below_finite. exact HR.
Qed.

Lemma bandwidth_nonneg_finite_witness :
  nonneg_finite (Host.bandwidth Host.N 0 2500000) /\
  (Host.to_us (2500000 - 0) = 0 -> Host.bandwidth Host.N 0 2500000 = F64.zero).
Proof. apply (bandwidth_nonneg_finite Host.N 0 2500000); vm_compute; congruence. Defined.

Example bandwidth_N_2500us :
  Host.bandwidth Host.N 0 2500000
  = S754_finite false 7083549724304469 (-47).
Proof. vm_compute. reflexivity. Qed.

Example bandwidth_zero_duration : Host.bandwidth Host.N 0 999 = F64.zero.
Proof. vm_compute. reflexivity. Qed.

Import Host.

(** C3 (amended).  Once lines 71-91 have produced the kernel result [sum]
    (slot 0 of the partial sums) and the serial reference
    [expected_result], two [float]s, the test of line 92 is made on their
    rounded difference [d = expected_result - sum], a [float]:
    [profile_reduce] throws the [std::runtime_error] with the message
    "Invalid value: <sum>, expected: <expected_result>" exactly when [d] is
    infinite or a number of absolute value above 1000; otherwise (also when
    [d] is NaN) it throws nothing and prints its row.  No other path of
    [profile_reduce] throws a [std::runtime_error]. *)
Theorem profile_reduce_validation (E : env) (n : Z) (w : world) :
  (forall m w1,
     profile_reduce_measure E n w = (Ok m, w1) ->
     valid_binary F32.prec F32.emax (m_expected m) = true ->
     valid_binary F32.prec F32.emax (m_sum m) = true ->
     let a := map (random E) (seq (drawn w) (Z.to_nat n)) in
     let d := F32.sub (m_expected m) (m_sum m) in
     let exceeds := (exists s, d = S754_infinity s) \/
                    (exists q, SF2Q d = Some q /\ (1000 < Qabs q)%Q) in
     m_expected m = reduce_host a /\
     (exists res, kernel_run E n a = Some res /\ res !! 0%nat = Some (m_sum m)) /\
     (exceeds <->
      profile_reduce E n w
      = (Throw (RuntimeError [Text "Invalid value: "; Flt (m_sum m);
                              Text ", expected: "; Flt (m_expected m)]), w1)) /\
     (~ exceeds <->
      exists w2 us bw, profile_reduce E n w = (Ok tt, w2) /\
                       trace w2 = trace w1 ++ [Row "reduce" us bw])) /\
  (forall msg w',
     profile_reduce E n w = (Throw (RuntimeError msg), w') ->
     exists m, profile_reduce_measure E n w = (Ok m, w') /\
       msg = [Text "Invalid value: "; Flt (m_sum m);
              Text ", expected: "; Flt (m_expected m)]).
Proof.
  split.
  - intros m w1 Hm Hve Hvs a d exceeds.
    pose proof (HostFacts.measure_inv E n w m w1 Hm)
      as (_ & _ & _ & Ht & Hexp & Hk & _).
    split; [done|]. split; [done|].
    pose proof (ValidFacts.exceeds_tolerance_value _ _ Hve Hvs) as Hiff.
    fold d in Hiff. fold exceeds in Hiff.
    destruct (exceeds_tolerance (m_expected m) (m_sum m)) eqn:Hex.
    + rewrite (HostFacts.profile_reduce_fail E n w m w1 Hm Hex).
      split; [split; [done|intros _; by apply Hiff]|].
      split; [intros Hn; exfalso; apply Hn; by apply Hiff|].
      by intros (w2 & us & bw & [=] & _).
    + rewrite (HostFacts.profile_reduce_pass E n w m w1 Hm Hex).
      assert (Hn : ~ exceeds) by (intros He; by apply Hiff in He).
      split; [split; [done|by intros [=]]|].
      split; [|done]. intros _. unfold reduce_row. rewrite <- Ht.
      pose proof (HostFacts.readings_length E w) as Hlen. rewrite <- Ht in Hlen.
      destruct (m_t m) as [|t0 [|t1 [|t2 [|t3 [|t4 [|]]]]]]; try done.
      eexists _, _, _. split; [done|]. done.
  - intros msg w' H. unfold profile_reduce in H.
    apply HostFacts.bind_Throw in H as [H|(m & w1 & Hm & H)].
    { apply HostFacts.measure_Throw_inv in H as (c & err & [=]). }
    exists m. destruct (exceeds_tolerance (m_expected m) (m_sum m)) eqn:Hex.
    + by injection H as <- <-.
    + pose proof (HostFacts.profile_reduce_pass E n w m w1 Hm Hex) as Hp.
      unfold profile_reduce in Hp.
      rewrite (HostFacts.bind_run _ _ _ _ _ Hm), Hex in Hp.
      by rewrite Hp in H.
Qed.

(** A run on 2048 ones in which the device runs group 0 to its end first:
    the kernel returns 128, the serial sum is 2048, the difference 1920 is
    above 1000 and the error with both values is thrown. *)
Lemma profile_reduce_validation_witness :
  exists w1,
    profile_reduce env_race 2048 world0
    = (Throw (RuntimeError [Text "Invalid value: "; Flt (F32.of_Z 128);
                            Text ", expected: "; Flt (F32.of_Z 2048)]), w1).
Proof.
  destruct (profile_reduce_validation env_race 2048 world0) as [H _].
  destruct (profile_reduce_measure env_race 2048 world0) as [r w1] eqn:Hm.
  vm_compute in Hm. injection Hm as <- <-.
  specialize (H _ _ eq_refl eq_refl eq_refl) as (_ & _ & [Hthrow _] & _).
  cbn [m_sum m_expected] in Hthrow. eexists.
  change (F32.of_Z 128) with (S754_finite false 8388608 (-16)).
  change (F32.of_Z 2048) with (S754_finite false 8388608 (-12)).
  apply Hthrow. right.
  eexists. split; [vm_compute; reflexivity|].
  vm_compute. reflexivity.
Defined.

(** C3 (counterexample).  The difference that is tested is the rounded
    one.  On [rounding_input] the serial sum is 1000 and the kernel returns
    [-2^-20]: their difference [1000 + 2^-20] exceeds the tolerance 1000,
    but it rounds to the [float] 1000, and [profile_reduce] raises nothing
    and prints its row.  On [overflow_input] the kernel returns NaN, which
    is within no tolerance of the serial sum 0, and [profile_reduce] raises
    nothing either. *)
Lemma profile_reduce_validation_counterexample :
  (exists w1 w2 qe qs,
     profile_reduce_measure env_rounding 128 world0
     = (Ok (Measurement [0; 1000; 2000; 3000; 4000] (F32.of_Z 1000)
              (S754_finite true 8388608 (-43))), w1) /\
     SF2Q (F32.of_Z 1000) = Some qe /\
     SF2Q (S754_finite true 8388608 (-43)) = Some qs /\
     (1000 < Qabs (qe - qs))%Q /\
     F32.sub (F32.of_Z 1000) (S754_finite true 8388608 (-43)) = F32.of_Z 1000 /\
     profile_reduce env_rounding 128 world0 = (Ok tt, w2)) /\
  (exists w1 w2,
     profile_reduce_measure env_overflow 128 world0
     = (Ok (Measurement [0; 1000; 2000; 3000; 4000] F32.zero S754_nan), w1) /\
     (forall tol : Q, ~ within tol S754_nan F32.zero) /\
     profile_reduce env_overflow 128 world0 = (Ok tt, w2)).
Proof.
  split.
  - eexists _, _, _, _.
    split; [vm_compute; reflexivity|].
    split; [vm_compute; reflexivity|].
    split; [vm_compute; reflexivity|].
    split; [by vm_compute|].
    split; [vm_compute; reflexivity|].
    vm_compute. reflexivity.
  - eexists _, _.
    split; [vm_compute; reflexivity|].
    split; [intros tol; apply within_nan|].
    vm_compute. reflexivity.
Qed.

(** The race and the validation together: with 2048 ones the kernel
    returns 128 instead of 2048 and the validation throws; with 1024 ones
    the wrong result 128 is within 1e3 of 1024 and passes. *)
Example profile_reduce_race_2048 :
  (profile_reduce env_race 2048 world0).1
  = Throw (RuntimeError (invalid_value (F32.of_Z 128) (F32.of_Z 2048))).
Proof. vm_compute. reflexivity. Qed.

Example profile_reduce_race_1024 :
  (profile_reduce env_race 1024 world0).1 = Ok tt /\
  (profile_reduce_measure env_race 1024 world0).1
  = Ok (Measurement [0; 1000; 2000; 3000; 4000] (F32.of_Z 1024) (F32.of_Z 128)).
Proof. split; vm_compute; reflexivity. Qed.

(** The [int] value of [n*n+n+n] when it does not overflow. *)
Lemma bandwidth_arg_small n :
  0 <= n -> n * n + n + n < 2 ^ 31 -> bandwidth_arg n = n * n + n + n.
Proof.
  intros Hn Hlt. unfold bandwidth_arg, wrap_int.
  assert (Hnn : 0 <= n * n) by nia.
  rewrite (Z.mod_small (n * n + 2 ^ 31)) by lia.
  replace (n * n + 2 ^ 31 - 2 ^ 31 + n + 2 ^ 31) with (n * n + n + 2 ^ 31) by lia.
  rewrite (Z.mod_small (n * n + n + 2 ^ 31)) by lia.
  replace (n * n + n + 2 ^ 31 - 2 ^ 31 + n + 2 ^ 31)
    with (n * n + n + n + 2 ^ 31) by lia.
  rewrite Z.mod_small by lia. lia.
Qed.

(** The [int] and [size_t] arithmetic of [bandwidth] when the tripled
    count fits an [int]. *)
Lemma bandwidth_bytes b :
  0 <= b -> 3 * b < 2 ^ 31 ->
  wrap_size_t (wrap_size_t (wrap_int (wrap_int (b + b) + b)) * sizeof_float)
  = 3 * b * sizeof_float.
Proof.
  intros Hb Hlt. unfold wrap_size_t, wrap_int, sizeof_float.
  Z.to_euclidean_division_equations. lia.
Qed.

(** C2 (amended).  For an input length [n] for which the tripled count
    [3 * (n*n+n+n)] fits an [int], the two bandwidths that a completed
    [profile_reduce n] reports, for the host-compute interval [t0..t1] and
    the kernel-execution interval [t2..t3], are [bandwidth(n*n+n+n, t0, t1)]
    and [bandwidth(n*n+n+n, t2, t3)]: the element count is
    [b = n * (n + 2)], not [n].  For this [b], [bandwidth(b, s, e)] is 0
    when the elapsed whole microseconds [dt] are 0, and otherwise the
    [double] that the operations of
    [(3 * b * sizeof(float) * 1e-9) / (dt * 1e-6)] give: the integers
    [3 * b * 4] and [dt] are converted, each is multiplied by its literal,
    and the products are divided. *)
Theorem profile_reduce_bandwidth (E : env) (n : Z) (w w2 : world) :
  profile_reduce E n w = (Ok tt, w2) ->
  3 * (n * n + n + n) < 2 ^ 31 ->
  exists t0 t1 t2 t3 t4 us,
    readings E w = [t0; t1; t2; t3; t4] /\
    list.last (trace w2)
    = Some (Row "reduce" us [bandwidth (n * (n + 2)) t0 t1;
                             bandwidth (n * (n + 2)) t2 t3]) /\
    forall s e,
      bandwidth (n * (n + 2)) s e
      = if to_us (e - s) =? 0 then F64.zero
        else F64.div
               (F64.mul (F64.of_Z (3 * (n * (n + 2)) * sizeof_float))
                        F64.c_1e_9)
               (F64.mul (F64.of_Z (to_us (e - s))) F64.c_1e_6).
Proof.
  intros H Hlt.
  apply HostFacts.profile_reduce_Ok_inv in H as (m & Hm & _ & _ & ->).
  pose proof (HostFacts.measure_inv E n w m _ Hm) as (Hn & _).
  assert (Hb : 0 <= n * (n + 2)) by nia.
  eexists _, _, _, _, _, _. split; [reflexivity|]. cbn [trace].
  rewrite last_snoc. unfold reduce_row, readings. cbn [map seq].
  rewrite (bandwidth_arg_small n Hn ltac:(lia)).
  replace (n * n + n + n) with (n * (n + 2)) by lia.
  split; [done|]. intros s e. unfold bandwidth.
  destruct (to_us (e - s) =? 0); [done|].
  by rewrite (bandwidth_bytes _ Hb ltac:(lia)).
Qed.

Lemma profile_reduce_bandwidth_witness :
  exists t0 t1 t2 t3 t4 us,
    readings (env_ones 8) world0 = [t0; t1; t2; t3; t4] /\
    list.last (trace (profile_reduce (env_ones 8) 1024 world0).2)
    = Some (Row "reduce" us [bandwidth (1024 * (1024 + 2)) t0 t1;
                             bandwidth (1024 * (1024 + 2)) t2 t3]) /\
    forall s e,
      bandwidth (1024 * (1024 + 2)) s e
      = if to_us (e - s) =? 0 then F64.zero
        else F64.div
               (F64.mul (F64.of_Z (3 * (1024 * (1024 + 2)) * sizeof_float))
                        F64.c_1e_9)
               (F64.mul (F64.of_Z (to_us (e - s))) F64.c_1e_6).
Proof.
  apply (profile_reduce_bandwidth (env_ones 8) 1024 world0).
  - vm_compute. reflexivity.
  - vm_compute. reflexivity.
Defined.

(** Where [n*n+n+n] fits an [int] and its triple does not, the tripling of
    line 31 overflows: for [n = 32768], if the arithmetic wraps around, the
    byte count becomes a [size_t] near [2 ^ 64]. *)
Example bandwidth_triple_overflow :
  32768 * 32768 + 32768 + 32768 < 2 ^ 31 /\
  2 ^ 31 <= 3 * (32768 * 32768 + 32768 + 32768) /\
  wrap_size_t (wrap_size_t
                 (wrap_int (wrap_int (bandwidth_arg 32768 + bandwidth_arg 32768)
                            + bandwidth_arg 32768)) * sizeof_float)
  = 2 ^ 64 - 4294180864.
Proof. split; [done|]. split; [done|]. vm_compute. reflexivity. Qed.

(** For the input size of [opencl_main], [n*n] does not fit an [int]
    (undefined behaviour); if the arithmetic wraps around, the argument of
    [bandwidth] is [2 * N]. *)
Example bandwidth_arg_N : bandwidth_arg N = 2 * N.
Proof. vm_compute. reflexivity. Qed.

(** C2 (counterexample).  [profile_reduce] on 1024 elements, each phase
    lasting one microsecond: the reported bandwidths are those of
    [1024*1024+1024+1024] elements, not of 1024.  The reported value is not
    [bandwidth(1024, ...)], and it is more than a thousand times
    [(3 * N * elementSize) / elapsedTime]. *)
Lemma profile_reduce_bandwidth_counterexample :
  exists us b q,
    list.last (trace (profile_reduce (env_ones 8) 1024 world0).2)
    = Some (Row "reduce" us [b; b]) /\
    b = bandwidth 1050624 0 1000 /\
    b <> bandwidth 1024 0 1000 /\
    SF2Q b = Some q /\
    (1000 * bandwidth_formula 1024 1 < q)%Q.
Proof.
  eexists _, _, _. split; [vm_compute; reflexivity|].
  split; [vm_compute; reflexivity|].
  split; [by vm_compute|].
  split; [vm_compute; reflexivity|]. by vm_compute.
Qed.

(** C6 (amended).  When the five clock readings of a completed
    [profile_reduce] do not decrease, each of the five durations it reports
    (in microseconds) is non-negative, and copy-in + kernel + copy-out is
    at most the total accelerator phase; the unrounded durations add up
    exactly. *)
Theorem profile_reduce_durations (E : env) (n : Z) (w w2 : world)
    (t0 t1 t2 t3 t4 : Z) :
  profile_reduce E n w = (Ok tt, w2) ->
  readings E w = [t0; t1; t2; t3; t4] ->
  t0 <= t1 -> t1 <= t2 -> t2 <= t3 -> t3 <= t4 ->
  exists d_host d_total d_in d_kernel d_out bw,
    list.last (trace w2)
    = Some (Row "reduce" [d_host; d_total; d_in; d_kernel; d_out] bw) /\
    d_host = to_us (t1 - t0) /\ d_total = to_us (t4 - t1) /\
    d_in = to_us (t2 - t1) /\ d_kernel = to_us (t3 - t2) /\
    d_out = to_us (t4 - t3) /\
    0 <= d_host /\ 0 <= d_total /\ 0 <= d_in /\ 0 <= d_kernel /\ 0 <= d_out /\
    d_in + d_kernel + d_out <= d_total /\
    (t2 - t1) + (t3 - t2) + (t4 - t3) = t4 - t1.
Proof.
  intros H Hr H01 H12 H23 H34.
  apply HostFacts.profile_reduce_Ok_inv in H as (m & _ & _ & _ & ->).
  rewrite Hr. eexists _, _, _, _, _, _.
  cbn [trace]. split; [by rewrite last_snoc|].
  do 5 (split; [reflexivity|]).
  repeat split; try (apply to_us_nonneg; lia); [|lia].
  unfold to_us, ticks_per_us. rewrite !Z.quot_div_nonneg by lia.
  Z.to_euclidean_division_equations. lia.
Qed.

Lemma profile_reduce_durations_witness :
  exists d_host d_total d_in d_kernel d_out bw,
    list.last (trace (profile_reduce (env_ones 8) 1024 world0).2)
    = Some (Row "reduce" [d_host; d_total; d_in; d_kernel; d_out] bw) /\
    d_host = to_us (1000 - 0) /\ d_total = to_us (4000 - 1000) /\
    d_in = to_us (2000 - 1000) /\ d_kernel = to_us (3000 - 2000) /\
    d_out = to_us (4000 - 3000) /\
    0 <= d_host /\ 0 <= d_total /\ 0 <= d_in /\ 0 <= d_kernel /\ 0 <= d_out /\
    d_in + d_kernel + d_out <= d_total /\
    (2000 - 1000) + (3000 - 2000) + (4000 - 3000) = 4000 - 1000.
Proof.
  apply (profile_reduce_durations (env_ones 8) 1024 world0 _ 0 1000 2000 3000 4000).
  - vm_compute. reflexivity.
  - reflexivity.
  - lia.
  - lia.
  - lia.
  - lia.
Defined.

(** C6 (counterexample).  Nothing in the program keeps the readings of
    [high_resolution_clock] from decreasing.  With the readings 5000, 0,
    1000, 2000, 3000 (the clock set back during the host computation)
    [profile_reduce] completes and reports a host duration of -5
    microseconds, and a negative host bandwidth. *)
Lemma profile_reduce_durations_counterexample :
  exists w2 bw0 bw1 q,
    readings env_clock_back world0 = [5000; 0; 1000; 2000; 3000] /\
    profile_reduce env_clock_back 1024 world0 = (Ok tt, w2) /\
    list.last (trace w2) = Some (Row "reduce" [-5; 3; 1; 1; 1] [bw0; bw1]) /\
    SF2Q bw0 = Some q /\ (q < 0)%Q.
Proof.
  eexists _, _, _, _.
  split; [reflexivity|].
  split; [vm_compute; reflexivity|].
  split; [vm_compute; reflexivity|].
  split; [vm_compute; reflexivity|].
  by vm_compute.
Qed.

(** C5 (amended).  [profile_reduce] has no check of the input size: for
    every [n >= 0], whether 128 divides it or not, when the OpenCL calls
    before the dispatch succeed the dispatch is requested, with the global
    size [n] and the local size 128, after a [d_result] buffer of
    [n / 128] (rounded down) floats has been created. *)
Theorem profile_reduce_reaches_dispatch (E : env) (n : Z) (w : world) :
  0 <= n ->
  (forall c, c ∈ take 7 (calls_to_dispatch n) -> cl_status E c = 0) ->
  exists rest,
    trace (profile_reduce E n w).2
    = (trace w ++ map Call (calls_to_dispatch n)) ++ rest /\
    list.last (calls_to_dispatch n) = Some (EnqueueNDRange n 128).
Proof.
  intros Hn Hcl.
  destruct (HostFacts.bind_trace (profile_reduce_measure E n)
              (fun m => if exceeds_tolerance (m_expected m) (m_sum m)
                        then throw (RuntimeError
                                      (invalid_value (m_sum m) (m_expected m)))
                        else report "reduce" (m_t m)
                               (wrap_int (wrap_int (wrap_int (n * n) + n) + n)))
              w (trace w ++ map Call (calls_to_dispatch n))) as [rest Hrest].
  - by apply HostFacts.measure_reaches_dispatch.
  - intros m. destruct (exceeds_tolerance _ _);
      [apply HostFacts.grows_throw|apply HostFacts.grows_report].
  - exists rest. split; [exact Hrest|done].
Qed.

Lemma profile_reduce_reaches_dispatch_witness :
  exists rest,
    trace (profile_reduce (env_ones 8) 1000 world0).2
    = (trace world0 ++ map Call (calls_to_dispatch 1000)) ++ rest /\
    list.last (calls_to_dispatch 1000) = Some (EnqueueNDRange 1000 128).
Proof.
  apply (profile_reduce_reaches_dispatch (env_ones 8) 1000 world0).
  - lia.
  - intros c _. reflexivity.
Defined.

(** C5 (counterexample).  For [n = 1000] the program itself rejects
    nothing: the partial-sums vector gets [1000 / 128 = 7] slots, the
    buffers are created and the dispatch of 1000 work-items in groups of
    128 is requested.  If the runtime accepts it the behaviour is
    undefined; if the runtime refuses it, the error is the [cl::Error] of
    the dispatch call itself. *)
Lemma profile_reduce_no_size_check :
  ~ rejected_before_dispatch (profile_reduce (env_ones 8) 1000 world0) /\
  profile_reduce (env_ones 8) 1000 world0
  = (Undefined, World 3 1000 (map Call (calls_to_dispatch 1000))) /\
  calls_to_dispatch 1000
  = [Flush 75; CreateKernel; BufferFromHost; CreateBuffer 28; SetArg 0;
     SetArg 1; Flush 84; EnqueueNDRange 1000 128] /\
  ~ rejected_before_dispatch (profile_reduce env_strict 1000 world0) /\
  profile_reduce env_strict 1000 world0
  = (Throw (ClError (EnqueueNDRange 1000 128) (-54)),
     World 3 1000 (map Call (calls_to_dispatch 1000))).
Proof.
  assert (H1 : profile_reduce (env_ones 8) 1000 world0
               = (Undefined, World 3 1000 (map Call (calls_to_dispatch 1000))))
    by (vm_compute; reflexivity).
  assert (H2 : profile_reduce env_strict 1000 world0
               = (Throw (ClError (EnqueueNDRange 1000 128) (-54)),
                  World 3 1000 (map Call (calls_to_dispatch 1000))))
    by (vm_compute; reflexivity).
  split; [|split; [exact H1|split; [reflexivity|split; [|exact H2]]]].
  - rewrite H1. intros [[e He] _]. discriminate He.
  - rewrite H2. intros [_ Hno]. apply (Hno 1000 128).
    cbn [snd trace]. apply list_elem_of_In. vm_compute. tauto.
Qed.

(** C9 (amended).  [main] returns 0 on a successful run (every OpenCL call
    succeeds, a platform and a device exist, the validation passes), and
    then has written nothing to [std::cerr] and printed the header and the
    two rows.  It returns 1 after the line "Unable to find OpenCL
    platforms" on [std::cerr] when no platform is found.  When the build
    fails and the build log of every device can be queried, it writes the
    log of every device and then the three lines of the [cl::Error]
    handler, and returns 1.  Whenever a [cl::Error] leaves the [try] block
    it adds those three lines, which name the failed call and its status,
    and returns 1; whenever a [std::runtime_error] leaves it, it adds the
    message and a newline, and returns 1.  It returns 0 only if no
    exception was thrown, and no other code than 0 or 1. *)
Theorem main_exit_contract (E : env) :
  (runtime_ok E -> platforms E <> [] -> devices E <> [] ->
   validation_passes E ->
   exists w t t', main E world0 = (Ok 0, w) /\ cerr w = [] /\
                  rows w = [Header; reduce_row N t; scan_row N t']) /\
  (cl_status E PlatformGet = 0 -> platforms E = [] ->
   exists w, main E world0 = (Ok 1, w) /\
             cerr w = [[Text "Unable to find OpenCL platforms
"]]) /\
  ((forall c, c ∈ setup_calls -> cl_status E c = 0) ->
   platforms E <> [] -> devices E <> [] ->
   cl_status E BuildProgram <> 0 ->
   (forall i, (i < length (devices E))%nat -> cl_status E (BuildLog i) = 0) ->
   exists w, main E world0 = (Ok 1, w) /\
     cerr w = map (fun i => [Text (build_log E i)])
                  (seq 0 (length (devices E)))
              ++ [[Text "OpenCL error in "; What BuildProgram; Text "(";
                   Int (cl_status E BuildProgram); Text ")
"];
                  [Text "Search cl.h file for error code (";
                   Int (cl_status E BuildProgram);
                   Text ") to understand what it means:
"];
                  [Text "https://github.com/KhronosGroup/OpenCL-Headers/blob/master/CL/cl.h
"]]) /\
  (forall c err w, main_body E world0 = (Throw (ClError c err), w) ->
     exists w', main E world0 = (Ok 1, w') /\
       cerr w'
       = cerr w
         ++ [[Text "OpenCL error in "; What c; Text "("; Int err; Text ")
"];
             [Text "Search cl.h file for error code ("; Int err;
              Text ") to understand what it means:
"];
             [Text "https://github.com/KhronosGroup/OpenCL-Headers/blob/master/CL/cl.h
"]]) /\
  (forall msg w, main_body E world0 = (Throw (RuntimeError msg), w) ->
     exists w', main E world0 = (Ok 1, w') /\
       cerr w' = cerr w ++ [msg ++ [Text "
"]]) /\
  (forall w, main E world0 = (Ok 0, w) -> main_body E world0 = (Ok 0, w)) /\
  (forall c w, main E world0 = (Ok c, w) -> c = 0 \/ c = 1).
Proof.
  split; [|split; [|split; [|split; [|split; [|split]]]]].
  - intros Hok Hp Hd Hval.
    destruct (platforms E) as [|p ps] eqn:Hpe; [done|].
    destruct (devices E) as [|d ds] eqn:Hde; [done|].
    rewrite HostFacts.main_of_body,
      (HostFacts.main_body_success E p ps d ds Hok Hpe Hde Hval).
    eexists _, _, _. split; [reflexivity|].
    unfold cerr, rows, opencl_main_trace. cbn [trace].
    change (1024 * 1024 * 10) with N.
    rewrite !HostFacts.cerr_of_app, !HostFacts.rows_of_app,
      HostFacts.cerr_of_calls, HostFacts.rows_of_calls.
    split; reflexivity.
  - intros Hs Hp.
    rewrite HostFacts.main_of_body, (HostFacts.main_body_no_platform E Hs Hp).
    eexists. split; reflexivity.
  - intros Hcl Hp Hd Hb Hlog.
    destruct (platforms E) as [|p ps] eqn:Hpe; [done|].
    destruct (devices E) as [|d ds] eqn:Hde; [done|].
    rewrite HostFacts.main_of_body,
      (MainFacts.main_body_build_logs E p ps d ds Hcl Hpe Hde Hb
         ltac:(by rewrite Hde)).
    eexists. split; [reflexivity|]. unfold cerr. cbn [trace].
    rewrite !HostFacts.cerr_of_app, HostFacts.cerr_of_build_logs.
    by rewrite Hde.
  - intros c err w Hb. rewrite HostFacts.main_of_body, Hb.
    eexists. split; [reflexivity|]. unfold cerr. cbn [trace].
    by rewrite HostFacts.cerr_of_app.
  - intros msg w Hb. rewrite HostFacts.main_of_body, Hb.
    eexists. split; [reflexivity|]. unfold cerr. cbn [trace].
    by rewrite HostFacts.cerr_of_app.
  - intros w. rewrite HostFacts.main_of_body.
    destruct (main_body E world0) as [[c|e|] w']; by intros [= <- <-].
  - intros c w. rewrite HostFacts.main_of_body.
    destruct (main_body E world0) as [[c'|e|] w'] eqn:Hb; intros [= <- <-].
    + by eapply HostFacts.main_body_Ok_inv.
    + by right.
Qed.

(** A successful run on zeros, a run without a platform, and a run whose
    build fails on two devices. *)
Lemma main_exit_contract_witness :
  (exists w t t', main env_zeros world0 = (Ok 0, w) /\ cerr w = [] /\
                  rows w = [Header; reduce_row N t; scan_row N t']) /\
  (exists w, main env_no_platform world0 = (Ok 1, w) /\
             cerr w = [[Text "Unable to find OpenCL platforms
"]]) /\
  (exists w, main env_build_fails world0 = (Ok 1, w) /\
     cerr w = [[Text "log of gpu0"]; [Text "log of gpu1"];
               [Text "OpenCL error in "; What BuildProgram; Text "(";
                Int (-11); Text ")
"];
               [Text "Search cl.h file for error code ("; Int (-11);
                Text ") to understand what it means:
"];
               [Text "https://github.com/KhronosGroup/OpenCL-Headers/blob/master/CL/cl.h
"]]).
Proof.
  split; [|split].
  - apply (proj1 (main_exit_contract env_zeros)).
    + intros c. reflexivity.
    + discriminate.
    + discriminate.
    + exact HostFacts.validation_passes_zeros.
  - apply (proj1 (proj2 (main_exit_contract env_no_platform))); reflexivity.
  - apply (proj1 (proj2 (proj2 (main_exit_contract env_build_fails)))).
    + intros c Hc. unfold setup_calls in Hc.
      repeat (apply elem_of_cons in Hc as [->|Hc]; [reflexivity|]).
      by apply elem_of_nil in Hc.
    + discriminate.
    + discriminate.
    + discriminate.
    + intros i _. reflexivity.
Defined.

(** C9 (counterexample).  The build fails on a context of three devices
    and the build log of the second device cannot be queried (status -33):
    [main] writes the log of the first device only, and its diagnostic
    names the failed query, not the failed build.  The logs of the second
    and the third device are not printed. *)
Lemma main_exit_contract_counterexample :
  exists w,
    cl_status env_log_fails BuildProgram = -11 /\
    length (devices env_log_fails) = 3%nat /\
    main env_log_fails world0 = (Ok 1, w) /\
    cerr w
    = [[Text "log of gpu0"];
       [Text "OpenCL error in "; What (BuildLog 1); Text "("; Int (-33);
        Text ")
"];
       [Text "Search cl.h file for error code ("; Int (-33);
        Text ") to understand what it means:
"];
       [Text "https://github.com/KhronosGroup/OpenCL-Headers/blob/master/CL/cl.h
"]] /\
    ~ In [Text (build_log env_log_fails 1)] (cerr w) /\
    ~ In [Text (build_log env_log_fails 2)] (cerr w).
Proof.
  eexists. split; [reflexivity|]. split; [reflexivity|].
  split; [vm_compute; reflexivity|].
  split; [vm_compute; reflexivity|].
  split; intros Hin; vm_compute in Hin;
    repeat destruct Hin as [Hin|Hin]; try discriminate Hin; done.
Qed.

(** The name of the platform cannot be queried: the prefix of line 179 is
    in [std::clog] already when the exception of [getInfo] is thrown. *)
Example main_platform_name_fails :
  main env_name_fails world0
  = (Ok 1,
     World 0 0
       [Call PlatformGet; Clog [Text "Platform name: "]; Call PlatformName;
        Cerr [Text "OpenCL error in "; What PlatformName; Text "(";
              Int (-30); Text ")
"];
        Cerr [Text "Search cl.h file for error code ("; Int (-30);
              Text ") to understand what it means:
"];
        Cerr [Text "https://github.com/KhronosGroup/OpenCL-Headers/blob/master/CL/cl.h
"]]).
Proof. vm_compute. reflexivity. Qed.

(** * Further properties of the kernel *)

Local Open Scope nat_scope.

Section KernelLaunch.
Context {F : Type}.
Variable zero : F.
Variable add : F -> F -> F.

(** Every group of a launch with a power-of-two local size publishes the
    tree sum of its slice. *)
Lemma group_sums_pow2 d l (a lmem : list F) :
  length a = l * 2 ^ d -> 2 ^ d <= length lmem ->
  forall k, k < l ->
    Kernel.group_sum add (2 ^ d) k a lmem
    = Some (Kernel.tree_sum zero add d (Kernel.slice (2 ^ d) k a)).
Proof.
  intros Ha Hl k Hk. apply KernelFacts.group_sum_tree; [done|]. nia.
Qed.

(** The kernel for any power-of-two local size [2 ^ d] that fits the local
    buffer: whatever the order in which the device runs the groups, the
    kernel ends without an access out of bounds, the [result] buffer keeps
    its length, and every slot [k >= 1] holds the tree sum of the slice of
    group [k]; neither the initial content of [result] nor that of the
    local memory shows in these slots. *)
Theorem reduce_slots_any_schedule d l (a res0 lmem : list F) sched :
  length a = l * 2 ^ d -> length res0 = l -> 2 ^ d <= length lmem ->
  exists res,
    Kernel.reduce zero add l (2 ^ d) a res0 lmem sched = Some res /\
    length res = l /\
    forall k, 0 < k < l ->
      res !! k = Some (Kernel.tree_sum zero add d (Kernel.slice (2 ^ d) k a)).
Proof.
  intros Ha Hres Hl.
  apply (KernelFacts.reduce_frame zero add l (2 ^ d) a lmem
           (fun k => Kernel.tree_sum zero add d (Kernel.slice (2 ^ d) k a)));
    [apply KernelFacts.pow2_pos|by apply group_sums_pow2|done].
Qed.

(** The kernel is a correct reduction for every power-of-two local size
    up to the size of the local buffer, not only for the 128 of the host
    program: when all groups publish before the combine and the addition
    is associative and commutative with unit 0, the final [result] buffer
    holds the sum of the whole input in slot 0 and the partial sums of the
    groups in the other slots. *)
Theorem reduce_pow2_sum d l (a res0 lmem : list F) sched :
  0 < l -> length a = l * 2 ^ d -> length res0 = l ->
  2 ^ d <= length lmem -> Kernel.barrier_synchronised l sched ->
  exact_addition zero add ->
  Kernel.reduce zero add l (2 ^ d) a res0 lmem sched
  = Some (<[0 := Kernel.sum_list zero add a]> (Kernel.partials zero add d l a)).
Proof.
  intros Hl Ha Hres Hlm Hsync (Hassoc & Hcomm & Hunit).
  rewrite (KernelFacts.reduce_synchronised zero add l (2 ^ d) a lmem
             (fun k => Kernel.tree_sum zero add d (Kernel.slice (2 ^ d) k a)));
    [|apply KernelFacts.pow2_pos|by apply group_sums_pow2|done..].
  fold (Kernel.partials zero add d l a).
  by rewrite (KernelFacts.sum_partials zero add Hassoc Hcomm Hunit d l a Ha).
Qed.

(** A local size above [BUFFSIZE] makes line 138 write outside [buff]:
    every launch with at least one group faults, whatever the schedule. *)
Theorem reduce_local_size_overflow l m (a res0 lmem : list F) sched :
  0 < l -> length lmem = Kernel.BUFFSIZE -> Kernel.BUFFSIZE < m ->
  Kernel.reduce zero add l m a res0 lmem sched = None.
Proof.
  intros Hl Hlm Hm. apply FoldFacts.reduce_overflow; [done|lia].
Qed.

(** What the missing synchronisation between the groups can do to slot 0:
    under every schedule the kernel ends with slot 0 holding the
    left-to-right sum, from 0, of [l] values [v], where [v_0] is the
    partial sum of group 0 and every other [v_j] is either the partial sum
    of group [j] or what slot [j] held at launch. *)
Theorem reduce_race_outcomes d l (a res0 lmem : list F) sched :
  0 < l -> length a = l * 2 ^ d -> length res0 = l -> 2 ^ d <= length lmem ->
  exists res v,
    Kernel.reduce zero add l (2 ^ d) a res0 lmem sched = Some res /\
    length v = l /\
    res !! 0 = Some (Kernel.sum_list zero add v) /\
    forall j x, v !! j = Some x ->
      x = Kernel.tree_sum zero add d (Kernel.slice (2 ^ d) j a) \/
      (0 < j /\ res0 !! j = Some x).
Proof.
  intros Hl Ha Hres Hlm.
  destruct (RaceFacts.reduce_observed zero add l (2 ^ d) a lmem res0
              (fun k => Kernel.tree_sum zero add d (Kernel.slice (2 ^ d) k a))
              Hl (KernelFacts.pow2_pos d) (group_sums_pow2 d l a lmem Ha Hlm)
              sched Hres)
    as (res & v & Hred & _ & Hv & Hobs & H0).
  exists res, v. done.
Qed.

(** A launch with a single work-group has no race: under every schedule
    the kernel returns [0 + s], [s] the tree sum of the input. *)
Theorem reduce_single_group d (a res0 lmem : list F) sched :
  length a = 2 ^ d -> length res0 = 1 -> 2 ^ d <= length lmem ->
  Kernel.reduce zero add 1 (2 ^ d) a res0 lmem sched
  = Some [add zero (Kernel.tree_sum zero add d a)].
Proof.
  intros Ha Hres Hlm.
  destruct (RaceFacts.reduce_observed zero add 1 (2 ^ d) a lmem res0
              (fun k => Kernel.tree_sum zero add d (Kernel.slice (2 ^ d) k a))
              ltac:(lia) (KernelFacts.pow2_pos d)
              (group_sums_pow2 d 1 a lmem ltac:(lia) Hlm) sched Hres)
    as (res & v & -> & Hlen & Hv & Hobs & H0).
  destruct v as [|x [|? ?]]; [done| |done].
  destruct res as [|y [|? ?]]; [done| |done].
  destruct (Hobs 0 x eq_refl) as [->|[? _]]; [|lia].
  injection H0 as ->. unfold Kernel.sum_list, Kernel.slice. simpl.
  rewrite drop_0, take_ge by lia. done.
Qed.

(** A local size that is not a power of two loses input: the last element
    of every group's slice never reaches the sum.  Two inputs that differ
    only in these elements give the same [result]. *)
Theorem reduce_drops_last_of_group l m (a a' res0 lmem : list F) sched :
  0 < m -> m <> 2 ^ Nat.log2 m -> m <= length lmem ->
  length a = l * m -> length a' = l * m ->
  (forall i, i mod m <> m - 1 -> a !! i = a' !! i) ->
  Kernel.reduce zero add l m a res0 lmem sched
  = Kernel.reduce zero add l m a' res0 lmem sched.
Proof.
  intros Hm Hnp Hlm Ha Ha' Hag. unfold Kernel.reduce.
  rewrite (FoldFacts.run_ext zero add l m a a' lmem); [done| |].
  - intros k Hk. apply FoldFacts.group_sum_last; [done| |done|nia|lia|].
    + intros d ->. apply Hnp. by rewrite Nat.log2_pow2 by lia.
    + intros t Ht. apply Hag.
      rewrite (Nat.add_comm (k * m) t), Nat.Div0.mod_add.
      rewrite Nat.mod_small by lia. lia.
  - cbn [Kernel.pcs]. by rewrite length_replicate.
Qed.

End KernelLaunch.

(** Two groups of two integers, group 1 running before group 0. *)
Lemma reduce_slots_any_schedule_witness :
  exists res,
    Kernel.reduce 0%Z Z.add 2 (2 ^ 1) [1; 2; 3; 4]%Z [7; 7]%Z [9; 9]%Z [1; 0; 0]
    = Some res /\
    length res = 2 /\
    forall k, 0 < k < 2 ->
      res !! k = Some (Kernel.tree_sum 0%Z Z.add 1
                         (Kernel.slice (2 ^ 1) k [1; 2; 3; 4]%Z)).
Proof.
  apply (reduce_slots_any_schedule 0%Z Z.add 1 2 [1; 2; 3; 4]%Z [7; 7]%Z
           [9; 9]%Z [1; 0; 0]).
  - reflexivity.
  - reflexivity.
  - simpl. lia.
Defined.

(** Four groups of four integers: slot 0 ends as 1 + ... + 16. *)
Lemma reduce_pow2_sum_witness :
  Kernel.reduce 0%Z Z.add 4 (2 ^ 2) (map Z.of_nat (seq 1 16)) [7; 7; 7; 7]%Z
    (replicate 4 9%Z) (seq 0 4 ++ [])
  = Some (<[0 := Kernel.sum_list 0%Z Z.add (map Z.of_nat (seq 1 16))]>
            (Kernel.partials 0%Z Z.add 2 4 (map Z.of_nat (seq 1 16)))).
Proof.
  apply (reduce_pow2_sum 0%Z Z.add 2 4 (map Z.of_nat (seq 1 16)) [7; 7; 7; 7]%Z
           (replicate 4 9%Z) (seq 0 4 ++ [])).
  - lia.
  - reflexivity.
  - reflexivity.
  - simpl. lia.
  - exact (barrier_synchronised_seq 4 []).
  - exact exact_addition_Z.
Defined.

(** One group of 1025 work-items. *)
Lemma reduce_local_size_overflow_witness :
  Kernel.reduce 0%Z Z.add 1 1025 (replicate 1025 1%Z) [0%Z]
    (replicate Kernel.BUFFSIZE 0%Z) []
  = None.
Proof.
  apply (reduce_local_size_overflow 0%Z Z.add 1 1025 (replicate 1025 1%Z)
           [0%Z] (replicate Kernel.BUFFSIZE 0%Z) []).
  - lia.
  - reflexivity.
  - unfold Kernel.BUFFSIZE. lia.
Defined.

(** Two groups of two integers, group 0 running to its end first. *)
Lemma reduce_race_outcomes_witness :
  exists res v,
    Kernel.reduce 0%Z Z.add 2 (2 ^ 1) [1; 2; 3; 4]%Z [50; 70]%Z [9; 9]%Z []
    = Some res /\
    length v = 2 /\
    res !! 0 = Some (Kernel.sum_list 0%Z Z.add v) /\
    forall j x, v !! j = Some x ->
      x = Kernel.tree_sum 0%Z Z.add 1 (Kernel.slice (2 ^ 1) j [1; 2; 3; 4]%Z) \/
      (0 < j /\ [50; 70]%Z !! j = Some x).
Proof.
  apply (reduce_race_outcomes 0%Z Z.add 1 2 [1; 2; 3; 4]%Z [50; 70]%Z
           [9; 9]%Z []).
  - lia.
  - reflexivity.
  - reflexivity.
  - simpl. lia.
Defined.

(** In that execution slot 0 ends as [3 + 70]: the partial sum of group 0
    and what slot 1 held at launch. *)
Example reduce_race_stale_slot :
  Kernel.reduce 0%Z Z.add 2 (2 ^ 1) [1; 2; 3; 4]%Z [50; 70]%Z [9; 9]%Z []
  = Some [73; 7]%Z.
Proof. reflexivity. Qed.

(** One group of four integers under a schedule with repetitions. *)
Lemma reduce_single_group_witness :
  Kernel.reduce 0%Z Z.add 1 (2 ^ 2) [1; 2; 3; 4]%Z [7%Z] (replicate 4 9%Z)
    [0; 0; 5; 0]
  = Some [Z.add 0 (Kernel.tree_sum 0%Z Z.add 2 [1; 2; 3; 4]%Z)].
Proof.
  apply (reduce_single_group 0%Z Z.add 2 [1; 2; 3; 4]%Z [7%Z]
           (replicate 4 9%Z) [0; 0; 5; 0]).
  - reflexivity.
  - reflexivity.
  - simpl. lia.
Defined.

(** Groups of three work-items: the third element of each group is lost. *)
Lemma reduce_drops_last_of_group_witness :
  Kernel.reduce 0%Z Z.add 2 3 [1; 2; 3; 4; 5; 6]%Z [0; 0]%Z (replicate 4 0%Z)
    [0; 1]
  = Kernel.reduce 0%Z Z.add 2 3 [1; 2; 99; 4; 5; -7]%Z [0; 0]%Z
      (replicate 4 0%Z) [0; 1].
Proof.
  apply (reduce_drops_last_of_group 0%Z Z.add 2 3 [1; 2; 3; 4; 5; 6]%Z
           [1; 2; 99; 4; 5; -7]%Z [0; 0]%Z (replicate 4 0%Z) [0; 1]).
  - lia.
  - vm_compute. lia.
  - simpl. lia.
  - reflexivity.
  - reflexivity.
  - intros i Hi.
    destruct i as [|[|[|[|[|[|i]]]]]]; try reflexivity; exfalso; by apply Hi.
Defined.

(** With three work-items per group the kernel returns [1 + 2 + 4 + 5],
    not the sum 21 of the six elements. *)
Example reduce_three_items :
  Kernel.reduce 0%Z Z.add 2 3 [1; 2; 3; 4; 5; 6]%Z [0; 0]%Z (replicate 4 0%Z)
    [0; 1]
  = Some [12; 9]%Z.
Proof. reflexivity. Qed.

(** * Further properties of the host program *)

Local Open Scope Z_scope.

(** When an OpenCL call of [profile_reduce] fails, the calls before it
    having succeeded, the [cl::Error] of that call leaves the function:
    the later calls are not made and no row is printed.  (A failure after
    the dispatch presupposes that the kernel ran, on a positive multiple
    of 128 elements.) *)
Theorem profile_reduce_first_failure (E : env) (n : Z) (w : world)
    (pre : list cl_call) (c : cl_call) (post : list cl_call) :
  calls_to_dispatch n ++ calls_after_dispatch = pre ++ c :: post ->
  (forall c', c' ∈ pre -> cl_status E c' = 0) ->
  cl_status E c <> 0 ->
  0 <= n -> (c ∈ calls_after_dispatch -> 0 < n /\ n mod 128 = 0) ->
  exists w',
    profile_reduce E n w = (Throw (ClError c (cl_status E c)), w') /\
    trace w' = trace w ++ map Call (pre ++ [c]).
Proof.
  intros Heq Hpre Hc Hn Hafter.
  destruct (FailureFacts.measure_first_failure E n w pre c post Heq Hpre Hc Hn
              Hafter) as (w' & Hm & Ht).
  exists w'. split; [|done]. unfold profile_reduce.
  by apply FailureFacts.bind_throw_run.
Qed.

(** 1024 ones, the copy of the result back to the host failing. *)
Lemma profile_reduce_first_failure_witness :
  exists w',
    profile_reduce env_copy_fails 1024 world0
    = (Throw (ClError CopyOut (cl_status env_copy_fails CopyOut)), w') /\
    trace w'
    = trace world0
      ++ map Call ([Flush 75; CreateKernel; BufferFromHost; CreateBuffer 32;
                    SetArg 0; SetArg 1; Flush 84; EnqueueNDRange 1024 128;
                    Flush 87] ++ [CopyOut]).
Proof.
  apply (profile_reduce_first_failure env_copy_fails 1024 world0
           [Flush 75; CreateKernel; BufferFromHost; CreateBuffer 32;
            SetArg 0; SetArg 1; Flush 84; EnqueueNDRange 1024 128; Flush 87]
           CopyOut []).
  - reflexivity.
  - intros c' Hc'.
    repeat (apply elem_of_cons in Hc' as [->|Hc']; [reflexivity|]).
    by apply elem_of_nil in Hc'.
  - vm_compute. discriminate.
  - lia.
  - intros _. split; [lia|reflexivity].
Defined.

(** [profile_reduce] returns normally only for a positive multiple of 128
    elements, after all ten OpenCL calls have succeeded; it has then made
    exactly these calls in program order, read the clock five times, drawn
    [n] random values, and printed its row last. *)
Theorem profile_reduce_completion (E : env) (n : Z) (w w2 : world) :
  profile_reduce E n w = (Ok tt, w2) ->
  0 < n /\ n mod 128 = 0 /\
  (forall c, c ∈ calls_to_dispatch n ++ calls_after_dispatch ->
             cl_status E c = 0) /\
  w2 = World (reads w + 5) (drawn w + Z.to_nat n)
         (trace w ++ map Call (calls_to_dispatch n ++ calls_after_dispatch)
          ++ [reduce_row n (readings E w)]).
Proof.
  intros H.
  apply HostFacts.profile_reduce_Ok_inv in H as (m & Hm & _ & _ & ->).
  pose proof (HostFacts.measure_inv E n w m _ Hm)
    as (Hn & Hmod & Hcl & _ & _ & (res & Hk & Hsum) & _).
  split; [|split; [done|split; [done|]]].
  - destruct (decide (n = 0)) as [->|Hne]; [|lia]. exfalso.
    apply MainFacts.kernel_run_length in Hk; [|done|done|].
    + destruct res; [done|]. by vm_compute in Hk.
    + by rewrite length_map, length_seq.
  - unfold measured. cbn [trace]. by rewrite <- app_assoc.
Qed.

Lemma profile_reduce_completion_witness :
  0 < 1024 /\ 1024 mod 128 = 0 /\
  (forall c, c ∈ calls_to_dispatch 1024 ++ calls_after_dispatch ->
             cl_status (env_ones 8) c = 0) /\
  (profile_reduce (env_ones 8) 1024 world0).2
  = World (reads world0 + 5) (drawn world0 + Z.to_nat 1024)
      (trace world0 ++ map Call (calls_to_dispatch 1024 ++ calls_after_dispatch)
       ++ [reduce_row 1024 (readings (env_ones 8) world0)]).
Proof.
  apply (profile_reduce_completion (env_ones 8) 1024 world0
           (profile_reduce (env_ones 8) 1024 world0).2).
  vm_compute. reflexivity.
Defined.

(** Whatever happens, [profile_reduce] writes nothing to [std::cerr] or
    [std::clog]: it adds OpenCL calls to the trace and, exactly when it
    returns normally, its row. *)
Theorem profile_reduce_output (E : env) (n : Z) (w : world) :
  exists cs,
    trace (profile_reduce E n w).2
    = trace w ++ map Call cs
      ++ match (profile_reduce E n w).1 with
         | Ok _ => [reduce_row n (readings E w)]
         | _ => []
         end.
Proof.
  destruct (EffectFacts.only_calls_measure E n w) as [cs Hcs]. exists cs.
  unfold profile_reduce, mbind, M_bind, bind.
  destruct (profile_reduce_measure E n w) as [[m|e|] w1] eqn:Hm;
    cbn [fst snd] in *.
  - pose proof (HostFacts.measure_inv E n w m _ Hm) as (_ & _ & _ & Ht & _).
    destruct (exceeds_tolerance _ _).
    + cbn [throw fst snd]. by rewrite Hcs, app_nil_r.
    + rewrite Ht. fold (bandwidth_arg n).
      rewrite HostFacts.report_reduce_run. cbn [fst snd trace].
      by rewrite Hcs, <- app_assoc.
  - by rewrite Hcs, app_nil_r.
  - by rewrite Hcs, app_nil_r.
Qed.



(** When an exception leaves [opencl_main], it comes from
    [profile_reduce] (a [cl::Error] or the validation error): the header
    has been printed, no row has, [profile_scan_inclusive] has not run,
    and nothing has been written to [std::cerr] yet. *)
Theorem opencl_main_failure (E : env) (w : world) (e : exn) (w' : world) :
  opencl_main E w = (Throw e, w') ->
  rows_of (trace w') = rows_of (trace w) ++ [Header] /\
  cerr_of (trace w') = cerr_of (trace w) /\
  ((exists c err, e = ClError c err) \/
   (exists sum expected, e = RuntimeError (invalid_value sum expected))).
Proof.
  intros H. apply MainFacts.opencl_main_Throw_inv in H as [[cs Hcs] He].
  rewrite Hcs, !HostFacts.rows_of_app, !HostFacts.cerr_of_app,
    HostFacts.rows_of_calls, HostFacts.cerr_of_calls.
  cbn [rows_of cerr_of omap]. by rewrite !app_nil_r.
Qed.

(** The run of [opencl_main] on its ten million elements when the copy of
    the result back to the host fails. *)
Lemma opencl_main_copy_fails :
  exists w',
    opencl_main env_copy_fails world0 = (Throw (ClError CopyOut (-5)), w').
Proof.
  unfold opencl_main, print_column_names.
  rewrite (HostFacts.bind_run _ _ _ _ _ (HostFacts.emit_run _ _)).
  change (1024 * 1024 * 10) with N.
  destruct (FailureFacts.measure_first_failure env_copy_fails N
              (World (reads world0) (drawn world0) (trace world0 ++ [Header]))
              (calls_to_dispatch N ++ [Flush 87]) CopyOut [])
    as (w' & Hm & _).
  - unfold calls_after_dispatch. by rewrite <- app_assoc.
  - intros c' Hc'. destruct c'; try reflexivity.
    apply elem_of_app in Hc' as [Hc'|Hc']; unfold calls_to_dispatch in Hc';
      repeat (apply elem_of_cons in Hc' as [?|Hc']; [discriminate|]);
      by apply elem_of_nil in Hc'.
  - discriminate.
  - pose proof HostFacts.N_pos. lia.
  - intros _. split; [apply HostFacts.N_pos|apply HostFacts.N_mod_128].
  - exists w'. apply FailureFacts.bind_throw_run. unfold profile_reduce.
    by apply FailureFacts.bind_throw_run.
Qed.

Lemma opencl_main_failure_witness :
  exists w',
    opencl_main env_copy_fails world0 = (Throw (ClError CopyOut (-5)), w') /\
    rows_of (trace w') = rows_of (trace world0) ++ [Header] /\
    cerr_of (trace w') = cerr_of (trace world0) /\
    ((exists c err, ClError CopyOut (-5) = ClError c err) \/
     (exists sum expected,
        ClError CopyOut (-5) = RuntimeError (invalid_value sum expected))).
Proof.
  destruct opencl_main_copy_fails as [w' Hw]. exists w'.
  split; [exact Hw|].
  exact (opencl_main_failure env_copy_fails world0 _ w' Hw).
Defined.

(** The exit code of [main] tells whether anything was written to
    [std::cerr]: it is 0 with an empty [std::cerr], or 1 with a message
    on [std::cerr]. *)
Theorem main_exit_code_cerr (E : env) (c : Z) (w : world) :
  main E world0 = (Ok c, w) ->
  (c = 0 /\ cerr w = []) \/ (c = 1 /\ cerr w <> []).
Proof.
  rewrite HostFacts.main_of_body.
  destruct (main_body E world0) as [[c'|e|] w1] eqn:Hb; intros [= <- <-].
  - destruct (HostFacts.main_body_Ok_inv E _ _ _ Hb) as [->| ->].
    + left. split; [done|]. unfold cerr.
      by rewrite (EffectFacts.main_body_quiet E _ _ Hb).
    + right. split; [done|].
      apply MainFacts.main_body_Ok1_inv in Hb as [_ Ht].
      unfold cerr. by rewrite Ht.
  - right. split; [done|]. unfold cerr. cbn [trace].
    rewrite HostFacts.cerr_of_app. intros Hnil.
    apply app_eq_nil in Hnil as [_ Hnil].
    by apply MainFacts.cerr_of_diagnostic in Hnil.
Qed.

Lemma main_exit_code_cerr_witness :
  (1 = 0 /\ cerr (main env_no_platform world0).2 = []) \/
  (1 = 1 /\ cerr (main env_no_platform world0).2 <> []).
Proof.
  apply (main_exit_code_cerr env_no_platform 1 (main env_no_platform world0).2).
  vm_compute. reflexivity.
Defined.

(** An error inside the error handler: when the build fails and the build
    log of device [i] cannot be queried, [main] writes the logs of the
    devices before [i], then reports the failed query, not the failed
    build, and returns 1; the logs of the later devices are not
    written. *)
Theorem main_build_log_failure (E : env) (i : nat) :
  (forall c, c ∈ setup_calls -> cl_status E c = 0) ->
  platforms E <> [] -> devices E <> [] ->
  cl_status E BuildProgram <> 0 ->
  (i < length (devices E))%nat ->
  (forall j, (j < i)%nat -> cl_status E (BuildLog j) = 0) ->
  cl_status E (BuildLog i) <> 0 ->
  exists w,
    main E world0 = (Ok 1, w) /\
    cerr w
    = map (fun j => [Text (build_log E j)]) (seq 0 i)
      ++ cerr_of (diagnostic (ClError (BuildLog i) (cl_status E (BuildLog i)))).
Proof.
  intros Hcl Hp Hd Hb Hi Hok Hfail.
  destruct (platforms E) as [|p ps] eqn:Hpe; [done|].
  destruct (devices E) as [|d ds] eqn:Hde; [done|].
  rewrite HostFacts.main_of_body,
    (HostFacts.main_body_setup E p ps d ds (ret 0) Hcl Hpe Hde).
  unfold mbind at 1, M_bind at 1, bind.
  rewrite (HostFacts.try_catch_Throw _ _ _ _ _
             (HostFacts.cl_fail E BuildProgram _ Hb)).
  rewrite (MainFacts.build_failed_log_fails E _ _ i _ ltac:(by rewrite Hde)
             Hok Hfail).
  eexists. split; [reflexivity|]. unfold cerr. cbn [trace reads drawn].
  rewrite !HostFacts.cerr_of_app, LogFacts.cerr_of_logs.
  change (cerr_of (removelast (setup_trace p d))) with (@nil (list fragment)).
  change (cerr_of [Call BuildProgram]) with (@nil (list fragment)).
  change (cerr_of [Call (BuildLog i)]) with (@nil (list fragment)).
  cbn [app]. by rewrite app_nil_r.
Qed.

Lemma main_build_log_failure_witness :
  exists w,
    main env_log_fails world0 = (Ok 1, w) /\
    cerr w
    = map (fun j => [Text (build_log env_log_fails j)]) (seq 0 1)
      ++ cerr_of (diagnostic (ClError (BuildLog 1)
                                (cl_status env_log_fails (BuildLog 1)))).
Proof.
  apply (main_build_log_failure env_log_fails 1).
  - intros c Hc.
    repeat (apply elem_of_cons in Hc as [->|Hc]; [reflexivity|]).
    by apply elem_of_nil in Hc.
  - discriminate.
  - discriminate.
  - vm_compute. discriminate.
  - simpl. lia.
  - intros j Hj. assert (j = 0%nat) as -> by lia. reflexivity.
  - vm_compute. discriminate.
Defined.

(** * Further properties of [bandwidth] and of the validation *)

(** [bandwidth] returns zero exactly when there is nothing to report: for
    an [int] [n] and an interval that does not run backwards, the result
    is [+0] if and only if [n] is 0 or the interval is shorter than one
    microsecond (1000 clock ticks); in every other case it is a strictly
    positive finite number, never rounded down to zero. *)
Theorem bandwidth_zero_iff (n t0 t1 : Z) :
  - 2 ^ 31 <= n < 2 ^ 31 -> t0 <= t1 -> t1 - t0 < 2 ^ 63 ->
  (bandwidth n t0 t1 = F64.zero <-> n = 0 \/ t1 - t0 < 1000) /\
  (n <> 0 -> 1000 <= t1 - t0 ->
   exists m e, bandwidth n t0 t1 = S754_finite false m e).
Proof.
  intros Hn Hle Hrange.
  assert (Hdt : 0 <= to_us (t1 - t0) < 2 ^ 63 /\
                (to_us (t1 - t0) = 0 <-> t1 - t0 < 1000)).
  { unfold to_us, ticks_per_us. rewrite Z.quot_div_nonneg by lia.
    Z.to_euclidean_division_equations. lia. }
  destruct Hdt as [Hdt Hdt0].
  pose proof (FloatFacts.mul_pos_finite F64.prec F64.emax ltac:(done)
                ltac:(done) 1 64 (-19) (-19) (F64.of_Z (to_us (t1 - t0)))
                F64.c_1e_6) as HM.
  unfold SpecFloat.emin, F64.prec, F64.emax in HM.
  assert (Hpos : n <> 0 -> 1000 <= t1 - t0 ->
                 exists m e, bandwidth n t0 t1 = S754_finite false m e).
  { intros Hne Hlong. unfold bandwidth.
    destruct (Z.eqb_spec (to_us (t1 - t0)) 0) as [Hz|Hnz]; [lia|].
    set (n3 := wrap_int (wrap_int (n + n) + n)).
    assert (Hn3 : n3 <> 0)
      by (intros H3; by apply Hne, FloatMoreFacts.wrap_int_triple).
    pose proof (FloatMoreFacts.bytes_pos n3
                  (FloatMoreFacts.wrap_int_range _) Hn3) as Hbytes.
    set (bytes := wrap_size_t _) in *.
    pose proof (FloatFacts.F64_of_Z_pos bytes 64 ltac:(lia) ltac:(lia)
                  ltac:(lia) ltac:(lia)) as HX.
    pose proof (FloatFacts.F64_of_Z_pos (to_us (t1 - t0)) 63 ltac:(lia)
                  ltac:(lia) ltac:(lia) ltac:(lia)) as HD.
    pose proof (FloatFacts.mul_pos_finite F64.prec F64.emax ltac:(done)
                  ltac:(done) _ _ _ _ _ _ HX FloatFacts.c_1e_9_finite) as HN.
    unfold SpecFloat.emin, F64.prec, F64.emax in HN.
    specialize (HN ltac:(lia) ltac:(lia) ltac:(lia)).
    specialize (HM HD FloatFacts.c_1e_6_finite ltac:(lia) ltac:(lia)
                  ltac:(lia)).
    pose proof (FloatMoreFacts.div_pos_finite F64.prec F64.emax ltac:(done)
                  ltac:(done) _ _ _ _ _ _ HN HM) as HR.
    unfold SpecFloat.emin, F64.prec, F64.emax in HR.
    unfold F64.div, F64.mul, F64.prec, F64.emax.
    destruct (HR ltac:(lia) ltac:(lia)) as (m & e & -> & _).
    by exists m, e. }
  split; [|exact Hpos].
  split.
  - intros Hz. destruct (decide (n = 0)) as [?|Hne]; [by left|right].
    destruct (decide (t1 - t0 < 1000)) as [?|Hlong]; [done|].
    destruct (Hpos Hne ltac:(lia)) as (m & e & Hb).
    rewrite Hb in Hz. discriminate.
  - intros [-> |Hshort].
    + unfold bandwidth.
      destruct (Z.eqb_spec (to_us (t1 - t0)) 0) as [Hz|Hnz]; [done|].
      pose proof (FloatFacts.F64_of_Z_pos (to_us (t1 - t0)) 63 ltac:(lia)
                    ltac:(lia) ltac:(lia) ltac:(lia)) as HD.
      unfold F64.div, F64.mul, F64.prec, F64.emax.
      destruct (HM HD FloatFacts.c_1e_6_finite ltac:(lia) ltac:(lia)
                  ltac:(lia)) as (m & e & -> & _).
      reflexivity.
    + unfold bandwidth. by rewrite (proj2 Hdt0 Hshort).
Qed.

(** Three elements in 2.5 microseconds: a positive bandwidth. *)
Lemma bandwidth_zero_iff_witness :
  (bandwidth 3 0 2500 = F64.zero <-> 3 = 0 \/ 2500 - 0 < 1000) /\
  (3 <> 0 -> 1000 <= 2500 - 0 ->
   exists m e, bandwidth 3 0 2500 = S754_finite false m e).
Proof. apply (bandwidth_zero_iff 3 0 2500); lia. Defined.

(** A NaN passes the validation.  When the kernel result or the serial
    reference is NaN, the comparison of line 92 is false: [profile_reduce]
    throws nothing and prints its row. *)
Theorem profile_reduce_nan_passes (E : env) (n : Z) (w : world)
    (m : measurement) (w1 : world) :
  profile_reduce_measure E n w = (Ok m, w1) ->
  m_sum m = S754_nan \/ m_expected m = S754_nan ->
  exists w2,
    profile_reduce E n w = (Ok tt, w2) /\
    list.last (trace w2) = Some (reduce_row n (readings E w)).
Proof.
  intros Hm Hnan.
  assert (Hex : exceeds_tolerance (m_expected m) (m_sum m) = false).
  { destruct Hnan as [-> | ->].
    - apply ToleranceFacts.exceeds_tolerance_nan_r.
    - apply ToleranceFacts.exceeds_tolerance_nan_l. }
  rewrite (HostFacts.profile_reduce_pass E n w m w1 Hm Hex).
  eexists. split; [reflexivity|]. cbn [trace]. by rewrite last_snoc.
Qed.

(** 128 values among which [FLT_MAX] and [-FLT_MAX] twice: the tree of
    the kernel overflows to NaN, the serial sum is 0, and the run passes
    the validation. *)
Lemma profile_reduce_nan_passes_witness :
  exists w2,
    profile_reduce env_overflow 128 world0 = (Ok tt, w2) /\
    list.last (trace w2)
    = Some (reduce_row 128 (readings env_overflow world0)).
Proof.
  apply (profile_reduce_nan_passes env_overflow 128 world0
           (Measurement [0; 1000; 2000; 3000; 4000] F32.zero S754_nan)
           (measured 128 world0)).
  - vm_compute. reflexivity.
  - left. reflexivity.
Defined.

(** * The kernel when the device runs the groups in order *)

Local Open Scope nat_scope.

Section KernelInOrder.
Context {F : Type}.
Variable zero : F.
Variable add : F -> F -> F.

(** When work-group 0 runs to its end before any other group acts (the
    schedule gives its steps to group 0 only; the other groups follow in
    index order), the kernel does not compute the sum of the input: slot 0
    ends as the left-to-right sum, from 0, of the partial sum of group 0
    and of what slots 1 to [l - 1] of [result] held at launch.  The other
    slots receive the partial sums of their groups afterwards. *)
Theorem reduce_group0_first_stale d l (a res0 lmem : list F) n :
  0 < l -> length a = l * 2 ^ d -> length res0 = l -> 2 ^ d <= length lmem ->
  exists res,
    Kernel.reduce zero add l (2 ^ d) a res0 lmem (replicate n 0) = Some res /\
    length res = l /\
    res !! 0
    = Some (Kernel.sum_list zero add
              (Kernel.tree_sum zero add d (Kernel.slice (2 ^ d) 0 a)
               :: drop 1 res0)) /\
    forall k, 0 < k < l ->
      res !! k = Some (Kernel.tree_sum zero add d (Kernel.slice (2 ^ d) k a)).
Proof.
  intros Hl Ha Hres Hlm.
  destruct (InOrderFacts.reduce_group0_first zero add l (2 ^ d) a lmem res0
              (fun k => Kernel.tree_sum zero add d (Kernel.slice (2 ^ d) k a))
              Hl (KernelFacts.pow2_pos d) Hres
              (group_sums_pow2 zero add d l a lmem Ha Hlm) n)
    as (res & Hred & Hlen & H0 & Hk).
  exists res. split; [done|]. split; [done|]. split; [|done].
  rewrite H0. destruct res0 as [|y res0]; [simpl in Hres; lia|]. done.
Qed.

End KernelInOrder.

(** Two groups of two integers run in order: slot 0 ends as [3 + 70]. *)
Lemma reduce_group0_first_stale_witness :
  exists res,
    Kernel.reduce 0%Z Z.add 2 (2 ^ 1) [1; 2; 3; 4]%Z [50; 70]%Z [9; 9]%Z
      (replicate 0 0)
    = Some res /\
    length res = 2 /\
    res !! 0
    = Some (Kernel.sum_list 0%Z Z.add
              (Kernel.tree_sum 0%Z Z.add 1 (Kernel.slice (2 ^ 1) 0 [1; 2; 3; 4]%Z)
               :: drop 1 [50; 70]%Z)) /\
    forall k, 0 < k < 2 ->
      res !! k = Some (Kernel.tree_sum 0%Z Z.add 1
                         (Kernel.slice (2 ^ 1) k [1; 2; 3; 4]%Z)).
Proof.
  apply (reduce_group0_first_stale 0%Z Z.add 1 2 [1; 2; 3; 4]%Z [50; 70]%Z
           [9; 9]%Z 0).
  - lia.
  - reflexivity.
  - reflexivity.
  - simpl. lia.
Defined.

Local Open Scope Z_scope.

(** * The text of the report *)

Section Report.
(** The insertion of a [double] into a stream, which the C++ library
    defines. *)
Variable show_double : spec_float -> string.

(** The rows line up with the header.  [print] writes its row in full,
    and for five representable durations the row is exactly as long as
    the line of [print_column_names] (160 characters with the newline)
    if and only if the name has at most 19 characters and the text of
    each bandwidth at most 16: a duration never overflows its column. *)
Theorem print_row_aligned (name : string) (dt : list Z)
    (bw : list spec_float) (w : world) :
  length dt = 5%nat -> length bw = 2%nat ->
  Forall (fun d => - 2 ^ 63 <= d < 2 ^ 63) dt ->
  exists w' e,
    print name dt bw w = (Ok tt, w') /\
    list.last (trace w') = Some e /\
    (String.length (Text.render show_double e)
     = String.length (Text.render show_double Header)
     <-> (String.length name <= 19)%nat /\
         Forall (fun b => (String.length (show_double b) <= 16)%nat) bw).
Proof.
  intros Hdt Hbw Hrange.
  destruct dt as [|d0 [|d1 [|d2 [|d3 [|d4 [|? ?]]]]]]; try done.
  destruct bw as [|b0 [|b1 [|? ?]]]; try done.
  eexists _, _. split; [reflexivity|].
  split; [cbn [trace]; by rewrite last_snoc|].
  apply list.Forall_cons_1 in Hrange as [H0 Hrange].
  apply list.Forall_cons_1 in Hrange as [H1 Hrange].
  apply list.Forall_cons_1 in Hrange as [H2 Hrange].
  apply list.Forall_cons_1 in Hrange as [H3 Hrange].
  apply list.Forall_cons_1 in Hrange as [H4 _].
  cbn [Text.render]. unfold Text.row_text. cbn [map String.concat].
  rewrite TextFacts.length_header_text, !TextFacts.length_append,
    !TextFacts.length_us_field, !TextFacts.length_bw_field,
    TextFacts.length_setw by done.
  change (String.length Text.newline) with 1%nat.
  change (String.length EmptyString) with 0%nat.
  split.
  - intros H. split; [lia|].
    constructor; [lia|constructor; [lia|constructor]].
  - intros [Hn Hb]. apply list.Forall_cons_1 in Hb as [Hb0 Hb].
    apply list.Forall_cons_1 in Hb as [Hb1 _]. lia.
Qed.

End Report.

(** The row of a run of [profile_reduce] whose phases take 2.5
    microseconds each, with a bandwidth text of nine characters. *)
Lemma print_row_aligned_witness :
  exists w' e,
    print "reduce" [2500; 7500; 2500; 2500; 2500]
          [F64.zero; F64.zero] world0 = (Ok tt, w') /\
    list.last (trace w') = Some e /\
    (String.length (Text.render (fun _ => "0.0251658"%string) e)
     = String.length (Text.render (fun _ => "0.0251658"%string) Header)
     <-> (String.length "reduce" <= 19)%nat /\
         Forall (fun b => (String.length ((fun _ => "0.0251658"%string) b)
                           <= 16)%nat)
                [F64.zero; F64.zero]).
Proof.
  apply (print_row_aligned (fun _ => "0.0251658"%string) "reduce"
           [2500; 7500; 2500; 2500; 2500] [F64.zero; F64.zero] world0).
  - reflexivity.
  - reflexivity.
  - repeat constructor; lia.
Defined.

(** The text of that row. *)
Example row_text_reduce :
  Text.row_text (fun _ => "0.0251658"%string) "reduce" [2; 7; 2; 2; 2]
    [F64.zero; F64.zero]
  = String.append
      "             reduce                 2us                 7us"
      (String.append
         "                 2us                 2us                 2us"
         (String.append "       0.0251658GB/s       0.0251658GB/s"
                        Text.newline)).
Proof. reflexivity. Qed.

(** * The tolerance of the validation *)

(** What line 92 compares.  With [d] the [float] difference
    [expected_result - sum]: a NaN or a zero passes, an infinite [d] is
    rejected, and a finite [d = +-m * 2 ^ e] is rejected exactly when its
    magnitude exceeds 1000: the conversion to [double] and the comparison
    with [1e3] lose nothing.  (Magnitudes are written as multiples of
    [2 ^ -149], the smallest positive [float].) *)
Theorem exceeds_tolerance_spec (expected_result sum : spec_float) :
  (F32.sub expected_result sum = S754_nan ->
   exceeds_tolerance expected_result sum = false) /\
  (forall s, F32.sub expected_result sum = S754_zero s ->
             exceeds_tolerance expected_result sum = false) /\
  (forall s, F32.sub expected_result sum = S754_infinity s ->
             exceeds_tolerance expected_result sum = true) /\
  (forall s m e,
     F32.sub expected_result sum = S754_finite s m e ->
     Zpos m < 2 ^ 24 -> -149 <= e <= 104 ->
     (exceeds_tolerance expected_result sum = true
      <-> 1000 * 2 ^ 149 < Zpos m * 2 ^ (e + 149))).
Proof.
  unfold exceeds_tolerance. split; [|split; [|split]].
  - by intros ->.
  - by intros s ->.
  - by intros s ->.
  - intros s m e -> Hm He. cbn [F32.abs SFabs].
    by apply ExactFacts.ltb_1e3_of_f32.
Qed.

(** An expected value of 3000 against a result of 1000: the difference
    2000 is rejected. *)
Lemma exceeds_tolerance_spec_witness :
  exceeds_tolerance (F32.of_Z 3000) (F32.of_Z 1000) = true
  <-> 1000 * 2 ^ 149 < 16384000 * 2 ^ (-13 + 149).
Proof.
  apply (proj2 (proj2 (proj2
           (exceeds_tolerance_spec (F32.of_Z 3000) (F32.of_Z 1000))))
           false 16384000%positive (-13)).
  - vm_compute. reflexivity.
  - lia.
  - lia.
Defined.

(** A difference of exactly 1000 passes; the next [float] above 1000
    does not. *)
Example exceeds_tolerance_boundary :
  exceeds_tolerance (F32.of_Z 2000) (F32.of_Z 1000) = false /\
  exceeds_tolerance (S754_finite false 8192001 (-13)) F32.zero = true.
Proof. split; vm_compute; reflexivity. Qed.

(** * The accuracy of [bandwidth] *)

(** [bandwidth] against the formula it implements (lines 27-32): for a
    positive element count [n] whose triple fits [int] and a duration of at
    least one microsecond (and below [2 ^ 53] microseconds, so that its
    conversion to [double] is exact), the returned [double] is finite and
    differs from the exact rational [(3 * n * 4 * 1e-9) / (dt * 1e-6)] by a
    relative error of at most [2 ^ -49]: the five roundings (the two
    literals, the two products and the quotient) are all that is lost. *)
Theorem bandwidth_accurate (n t0 t1 : Z) :
  0 < n -> 3 * n < 2 ^ 31 ->
  1000 <= t1 - t0 -> to_us (t1 - t0) < 2 ^ 53 ->
  exists q,
    SF2Q (bandwidth n t0 t1) = Some q /\
    (Qabs (q - bandwidth_formula n (to_us (t1 - t0)))
       <= bandwidth_formula n (to_us (t1 - t0)) * Qpower 2 (-49))%Q.
Proof.
  intros Hn Hsmall Ht Hdt53. unfold bandwidth, bandwidth_formula.
  set (dt := to_us (t1 - t0)) in *.
  assert (Hdt : 1 <= dt).
  { unfold dt, to_us, ticks_per_us. rewrite Z.quot_div_nonneg by lia.
    Z.to_euclidean_division_equations. lia. }
  destruct (Z.eqb_spec dt 0) as [?|_]; [lia|].
  assert (Hbytes : wrap_size_t (wrap_size_t (wrap_int (wrap_int (n + n) + n))
                                * sizeof_float) = 12 * n).
  { unfold wrap_size_t, wrap_int, sizeof_float.
    Z.to_euclidean_division_equations. lia. }
  rewrite Hbytes.
  replace (3 * n * sizeof_float) with (12 * n) by (unfold sizeof_float; lia).
  destruct ValueFacts.c_1e_9_value as (m9 & -> & Hd9 & H9).
  destruct ValueFacts.c_1e_6_value as (m6 & -> & Hd6 & H6).
  destruct (ValueFacts.scaled_value (12 * n) m9 (-82) ltac:(lia) Hd9 ltac:(lia))
    as (ma & ea & -> & Hma & Ha).
  destruct (ValueFacts.scaled_value dt m6 (-72) ltac:(lia) Hd6 ltac:(lia))
    as (mb & eb & -> & Hmb & Hb).
  destruct (ValueFacts.div_error 53 1024 ltac:(lia) ltac:(lia) ma ea mb eb)
    as (m & e & Heq & Hq); try (unfold SpecFloat.emin; lia).
  unfold F64.div, F64.prec, F64.emax. rewrite Heq.
  exists (Qval m e). split; [reflexivity|].
  apply (ValueFacts.quotient_error
           (inject_Z (12 * n)) (Qpower 10 (-9)) (Qval m9 (-82)) (Qval ma ea)
           (inject_Z dt) (Qpower 10 (-6)) (Qval m6 (-72)) (Qval mb eb)
           (Qval m e)); try done.
  - rewrite <- (Zlt_Qlt 0). lia.
  - rewrite <- (Zlt_Qlt 0). lia.
  - apply ValueFacts.Qval_pos.
Qed.

(** [2 ^ 20] elements in 2.5 milliseconds. *)
Lemma bandwidth_accurate_witness :
  exists q,
    SF2Q (bandwidth 1048576 0 2500000) = Some q /\
    (Qabs (q - bandwidth_formula 1048576 (to_us (2500000 - 0)))
       <= bandwidth_formula 1048576 (to_us (2500000 - 0)) * Qpower 2 (-49))%Q.
Proof.
  apply (bandwidth_accurate 1048576 0 2500000); vm_compute; congruence.
Defined.
